(** * RancherAPI: in-service upgrade of a Rancher service

    A shallow embedding of [src/lib/RancherAPI.js].  The class drives an
    in-service upgrade through the Rancher REST API: look the service up,
    post the upgrade, poll until the service is "upgraded", post
    [finishupgrade], poll until the service is "active".

    The JavaScript is promise based and talks to three things outside the
    program: the HTTP endpoint, the wall clock and the console.  They are
    gathered in a [World]; a promise is a function from the world to an
    outcome and the world after it settled. *)

From Stdlib Require Import ZArith String List Lia.
From stdpp Require Import gmap strings list.

Local Open Scope string_scope.
Local Open Scope Z_scope.
Local Open Scope list_scope.

(** ** Data as it travels over the wire *)

(** Values stored in an environment mapping. *)
Inductive JsValue :=
| JNum (n : Z)
| JStr (s : string)
| JBool (b : bool).

Module LaunchConfig.
(** [others] stands for every key of the launch config the library never
    looks at. *)
Record t := mk {
  imageUuid : string;
  environment : option (gmap string JsValue);
  others : gmap string JsValue
}.
End LaunchConfig.

Module Service.
(** A service as the control plane reports it.  A key of [actions] is
    present when the platform offers that action. *)
Record t := mk {
  name : string;
  state : string;
  launchConfig : LaunchConfig.t;
  secondaryLaunchConfigs : list LaunchConfig.t;
  actions : gmap string string
}.
End Service.

Module InServiceStrategy.
Record t := mk {
  batchSize : Z;
  intervalMillis : Z;
  startFirst : bool;
  launchConfig : LaunchConfig.t;
  secondaryLaunchConfigs : list LaunchConfig.t
}.
End InServiceStrategy.

(** The argument of [inServiceUpgrade].  [None] is JavaScript's
    [undefined]: the key is not there. *)
Module Options.
Record t := mk {
  serviceName : option string;
  imageRepo : option string;
  imageTag : option string;
  environment : option (gmap string JsValue);
  batchSize : option Z;
  intervalMillis : option Z;
  startFirst : option bool
}.
End Options.

(** [this.options] of a constructed [RancherAPI]. *)
Module Config.
Record t := mk {
  endpoint : string;
  apikey : string;
  apisecret : string;
  statusCheckFrequency : Z;
  serviceActiveTimeout : Z;
  serviceUpgradedTimeout : Z
}.
End Config.

(** What the caller hands to [new RancherAPI(options)]. *)
Module ConstructorOptions.
Record t := mk {
  endpoint : option string;
  apikey : option string;
  apisecret : option string;
  statusCheckFrequency : option Z;
  serviceActiveTimeout : option Z;
  serviceUpgradedTimeout : option Z
}.
End ConstructorOptions.

(** The [params] of a call: a query string for GET, a JSON body for POST. *)
Inductive Params :=
| ParamsEmpty
| ParamsName (name : string)
| ParamsUpgrade (inServiceStrategy : InServiceStrategy.t).

Inductive Method := GET | POST.

Module RequestOptions.
Record t := mk {
  method : Method;
  uri : string;
  auth : string * string;
  json : bool;
  qs : option Params;
  body : option Params
}.
End RequestOptions.

(** A parsed response body. *)
Inductive Body :=
| BNull
| BText (text : string)
| BCollection (data : list Service.t)
| BResource (svc : Service.t).

(** ** Promises over an explicit world *)

(** Why a promise was rejected: the string given to [Promise.reject], an
    exception raised by a property access on [undefined] or [null], or the
    error of the HTTP library.  The detail of a [TypeError] is the message
    of the engine, whose wording varies with its version; nothing below
    depends on it. *)
Inductive Reason :=
| Message (msg : string)
| TypeError (detail : string)
| RequestError (err : string).

Inductive Outcome (A : Type) :=
| Fulfilled (a : A)
| Rejected (r : Reason)
| Pending.
Arguments Fulfilled {A} a.
Arguments Rejected {A} r.
Arguments Pending {A}.

Inductive Reply :=
| ReplyBody (b : Body)
| ReplyError (err : string).

(** One answer of the endpoint, and how long it takes to arrive. *)
Record Exchange := { latency : Z; reply : Reply }.

Inductive LogArg :=
| LogStr (s : string)
| LogTime (t : Z)
| LogUndefined
| LogService (svc : Service.t)
| LogReason (r : Reason).

Inductive Stream := Stdout | Stderr.

Inductive Event :=
| EvRequest (time : Z) (req : RequestOptions.t)
| EvConsole (stream : Stream) (args : list LogArg)
| EvTimer (time : Z) (ms : Z).

(** [clock] is what [Date.now()] returns; [network] holds the answers the
    endpoint will give, in order (a call issued when none is left never
    settles); [trace] records what the program did, oldest first. *)
Record World := {
  clock : Z;
  network : list Exchange;
  trace : list Event
}.

Definition Promise (A : Type) : Type := World -> Outcome A * World.

Definition resolve {A} (a : A) : Promise A := fun w => (Fulfilled a, w).

Definition reject {A} (r : Reason) : Promise A := fun w => (Rejected r, w).

Definition then_ {A B} (p : Promise A) (f : A -> Promise B) : Promise B :=
  fun w =>
    match p w with
    | (Fulfilled a, w') => f a w'
    | (Rejected r, w') => (Rejected r, w')
    | (Pending, w') => (Pending, w')
    end.

Definition catch_ {A} (p : Promise A) (h : Reason -> Promise A) : Promise A :=
  fun w =>
    match p w with
    | (Rejected r, w') => h r w'
    | settled => settled
    end.

Notation "x <- p ;; k" := (then_ p (fun x => k))
  (at level 100, p at next level, right associativity).
Notation "p ;; k" := (then_ p (fun _ => k))
  (at level 100, right associativity).

Definition emit (e : Event) (w : World) : World :=
  {| clock := clock w; network := network w; trace := trace w ++ [e] |}.

Definition Date_now : Promise Z := fun w => (Fulfilled (clock w), w).

Definition console (stream : Stream) (args : list LogArg) : Promise unit :=
  fun w => (Fulfilled tt, emit (EvConsole stream args) w).

(** [request(requestOptions)] of request-promise-native. *)
Definition request (requestOptions : RequestOptions.t) : Promise Body :=
  fun w =>
    let sent := emit (EvRequest (clock w) requestOptions) w in
    match network w with
    | [] => (Pending, sent)
    | ex :: rest =>
        let w' := {| clock := clock w + Z.max 0 (latency ex);
                     network := rest;
                     trace := trace sent |} in
        match reply ex with
        | ReplyBody b => (Fulfilled b, w')
        | ReplyError err => (Rejected (RequestError err), w')
        end
    end.

(** ** The helpers at the top of the file *)

(** The world after a line was logged. *)
Definition logged (stream : Stream) (args : list LogArg) (w : World)
  : World :=
  emit (EvConsole stream (LogTime (clock w) :: args)) w.

(** [setTimeout(callback, after)] of Node keeps a delay between 1 ms and
    [TIMEOUT_MAX], which is 2^31 - 1 ms; any other delay is set to 1 ms.
    (For a delay above [TIMEOUT_MAX] Node also emits a process warning; it
    is no call of [console] and is not on the trace.) *)
Definition TIMEOUT_MAX : Z := 2147483647.

Definition setTimeout_after (after : Z) : Z :=
  if (1 <=? after) && (after <=? TIMEOUT_MAX) then after else 1.

(** The world after a timer set for [time] ms ran out. *)
Definition delayed (time : Z) (w : World) : World :=
  {| clock := clock w + setTimeout_after time;
     network := network w;
     trace := trace w ++ [EvTimer (clock w) time] |}.

Definition LOG (args : list LogArg) : Promise unit :=
  now <- Date_now ;;
  console Stdout (LogTime now :: args).

Definition ERROR {A} (msg : string) (more : list LogArg) : Promise A :=
  now <- Date_now ;;
  console Stderr (LogTime now :: LogStr msg :: more) ;;
  reject (Message msg).

Definition DELAY (time : Z) : Promise unit :=
  fun w => (Fulfilled tt, delayed time w).

(** ** JavaScript truthiness of the values the code tests *)

Definition truthy (v : option string) : bool :=
  match v with
  | Some s => negb (String.eqb s "")
  | None => false
  end.

(** ** class RancherAPI *)

(** [inl] is the string the constructor throws. *)
Definition constructor (options : option ConstructorOptions.t)
  : string + Config.t :=
  match options with
  | None => inl "options can't be null."
  | Some o =>
      if negb (truthy (ConstructorOptions.endpoint o))
      then inl "you must specify a rancher endpoint."
      else if negb (truthy (ConstructorOptions.apikey o))
      then inl "you must specify a rancher api key."
      else if negb (truthy (ConstructorOptions.apisecret o))
      then inl "you must specify a rancher api secret."
      else inr
        {| Config.endpoint := default "" (ConstructorOptions.endpoint o);
           Config.apikey := default "" (ConstructorOptions.apikey o);
           Config.apisecret := default "" (ConstructorOptions.apisecret o);
           Config.statusCheckFrequency :=
             default (20 * 1000) (ConstructorOptions.statusCheckFrequency o);
           Config.serviceActiveTimeout :=
             default (3 * 60 * 1000) (ConstructorOptions.serviceActiveTimeout o);
           Config.serviceUpgradedTimeout :=
             default (3 * 60 * 1000)
                     (ConstructorOptions.serviceUpgradedTimeout o) |}
  end.

(** [path.match(/^https?:\/\//)] *)
Definition absolute (path : string) : bool :=
  String.prefix "http://" path || String.prefix "https://" path.

(** The [requestOptions] object built by [_apiRequest]. *)
Definition requestOptions_for (self : Config.t) (path : string)
    (method : Method) (params : Params) : RequestOptions.t :=
  let uri := if absolute path then path
             else Config.endpoint self +:+ "/" +:+ path in
  let auth := (Config.apikey self, Config.apisecret self) in
  match method with
  | GET => RequestOptions.mk method uri auth true (Some params) None
  | POST => RequestOptions.mk method uri auth true None (Some params)
  end.

(** A [path] that is [undefined] makes [path.match] throw; every call with
    such a path sits in a [then] callback, where the throw rejects the
    promise.  The [catch] handler returns what [console.log] returns:
    [undefined]. *)
Definition _apiRequest (self : Config.t) (path : option string)
    (method : Method) (params : Params) : Promise (option Body) :=
  match path with
  | None => reject (TypeError "Cannot read property 'match' of undefined")
  | Some path =>
      catch_
        (body <- request (requestOptions_for self path method params) ;;
         resolve (Some body))
        (fun err =>
           console Stdout [LogStr "ERROR on REQ:"; LogReason err] ;;
           resolve None)
  end.

Definition get (self : Config.t) (path : option string) (params : Params)
  : Promise (option Body) :=
  _apiRequest self path GET params.

Definition post (self : Config.t) (path : option string) (params : Params)
  : Promise (option Body) :=
  _apiRequest self path POST params.

Definition getService (self : Config.t) (name : string)
  : Promise Service.t :=
  result <- get self (Some "services") (ParamsName name) ;;
  match result with
  | Some (BCollection (svc :: _)) => resolve svc
  | _ => ERROR "getService: Rancher service not found." []
  end.

(** [startTime || Date.now()]: [undefined] and [0] are both falsy. *)
Definition startTime_or (startTime : option Z) (now : Z) : Z :=
  match startTime with
  | Some t => if (t =? 0)%Z then now else t
  | None => now
  end.

Definition startTime_or_now (startTime : option Z) : Promise Z :=
  now <- Date_now ;;
  resolve (startTime_or startTime now).

(** The body of [waitForActive]; [again] is the call it makes to itself
    after the delay. *)
Definition waitForActive_body (again : option Z -> Promise Service.t)
    (self : Config.t) (serviceName : string) (startTime : option Z)
  : Promise Service.t :=
  startTime <- startTime_or_now startTime ;;
  now <- Date_now ;;
  if (startTime + Config.serviceActiveTimeout self <? now)%Z
  then ERROR "Timeout waiting for service to activate. Upgrade failed!" []
  else
    svc <- getService self serviceName ;;
    if negb (Service.state svc =? "active")%string
    then
      LOG [LogStr ("Waiting for active status. Current("
                   +:+ Service.state svc +:+ ")")] ;;
      DELAY (Config.statusCheckFrequency self) ;;
      again (Some startTime)
    else
      LOG [LogStr "Upgrade succeded!"] ;;
      resolve svc.

Fixpoint waitForActive_fuel (fuel : nat) (self : Config.t)
    (serviceName : string) (startTime : option Z) : Promise Service.t :=
  match fuel with
  | O => fun w => (Pending, w)
  | S fuel' =>
      waitForActive_body (waitForActive_fuel fuel' self serviceName)
                         self serviceName startTime
  end.

(** Every turn of the loop consumes one answer of the network, so one more
    unit of fuel than there are answers left is never used up
    ([waitForActive_unfold] below). *)
Definition waitForActive (self : Config.t) (serviceName : string)
    (startTime : option Z) : Promise Service.t :=
  fun w => waitForActive_fuel (S (length (network w)))
                              self serviceName startTime w.

Definition waitForUpgrade_body (again : option Z -> Promise Service.t)
    (self : Config.t) (serviceName : string) (startTime : option Z)
  : Promise Service.t :=
  startTime <- startTime_or_now startTime ;;
  now <- Date_now ;;
  if (startTime + Config.serviceUpgradedTimeout self <? now)%Z
  then ERROR "Timeout waiting for service to upgrade. Upgrade failed!" []
  else
    svc <- getService self serviceName ;;
    if (Service.state svc =? "upgrading")%string
    then
      LOG [LogStr "Service is upgrading, waiting..."] ;;
      DELAY (Config.statusCheckFrequency self) ;;
      again (Some startTime)
    else if (Service.state svc =? "upgraded")%string
    then
      LOG [LogStr "Service is upgraded. Finishing..."] ;;
      result <- post self (Service.actions svc !! "finishupgrade")
                     ParamsEmpty ;;
      LOG [LogStr "Finish upgrade sent."] ;;
      waitForActive self serviceName None
    else
      LOG [LogStr "unexpected status"; LogStr (Service.state svc);
           LogStr "Aborting."] ;;
      ERROR ("unexpected status (" +:+ Service.state svc
             +:+ ") when waiting for upgrade to complete.") [].

Fixpoint waitForUpgrade_fuel (fuel : nat) (self : Config.t)
    (serviceName : string) (startTime : option Z) : Promise Service.t :=
  match fuel with
  | O => fun w => (Pending, w)
  | S fuel' =>
      waitForUpgrade_body (waitForUpgrade_fuel fuel' self serviceName)
                          self serviceName startTime
  end.

Definition waitForUpgrade (self : Config.t) (serviceName : string)
    (startTime : option Z) : Promise Service.t :=
  fun w => waitForUpgrade_fuel (S (length (network w)))
                               self serviceName startTime w.

(** ['docker:' + imageRepo], then [':' + imageTag] under [if (imageTag)]. *)
Definition imageUuid_for (imageRepo : string) (imageTag : option string)
  : string :=
  let uuid := "docker:" +:+ imageRepo in
  if truthy imageTag then uuid +:+ ":" +:+ default "" imageTag else uuid.

(** [Object.assign(target, source)]: the keys of [source] are written over
    [target]. *)
Definition Object_assign (target source : gmap string JsValue)
  : gmap string JsValue :=
  source ∪ target.

(** [result.state] for the log line after the upgrade was posted; [result]
    is [undefined] after a call that failed and [null] for a null body. *)
Definition result_state (result : option Body) : Promise LogArg :=
  match result with
  | None => reject (TypeError "Cannot read property 'state' of undefined")
  | Some BNull => reject (TypeError "Cannot read property 'state' of null")
  | Some (BResource svc) => resolve (LogStr (Service.state svc))
  | Some (BText _) | Some (BCollection _) => resolve LogUndefined
  end.

(** The launch config after [inServiceUpgrade] wrote the image uuid and the
    merged environment into it. *)
Definition launchConfig_for (options : Options.t) (svc : Service.t)
  : LaunchConfig.t :=
  let launchConfig := Service.launchConfig svc in
  LaunchConfig.mk
    (imageUuid_for (default "" (Options.imageRepo options))
                   (Options.imageTag options))
    (Some (Object_assign (default ∅ (LaunchConfig.environment launchConfig))
                         (default ∅ (Options.environment options))))
    (LaunchConfig.others launchConfig).

(** The [inServiceStrategy] object that is posted; an option the caller
    left [undefined] takes its default. *)
Definition inServiceStrategy_for (options : Options.t) (svc : Service.t)
  : InServiceStrategy.t :=
  InServiceStrategy.mk
    (default 1 (Options.batchSize options))
    (default (30 * 1000) (Options.intervalMillis options))
    (default true (Options.startFirst options))
    (launchConfig_for options svc)
    (Service.secondaryLaunchConfigs svc).

Definition inServiceUpgrade (self : Config.t) (options : option Options.t)
  : Promise Service.t :=
  let options :=
    default (Options.mk None None None None None None None) options in
  if negb (truthy (Options.serviceName options))
  then ERROR "Must specify options.serviceName" []
  else if negb (truthy (Options.imageRepo options))
  then ERROR "Must specify options.imageRepo" []
  else
    let serviceName := default "" (Options.serviceName options) in
    LOG [LogStr "Starting deploy for"; LogStr serviceName] ;;
    result <-
      (svc <- getService self serviceName ;;
       LOG [LogStr "Got service"; LogStr serviceName] ;;
       let upgrade := Service.actions svc !! "upgrade" in
       let inactive := negb (Service.state svc =? "active")%string in
       if inactive && negb (truthy upgrade)
       then ERROR ("Service is not in active status. ("
                   +:+ Service.state svc +:+ "). Cannot proceed.")
                  [LogService svc]
       else
         (if inactive
          then LOG [LogStr ("Warning: service is not in active status. ("
                            +:+ Service.state svc
                            +:+ "). It seems we can proceed anyway...")]
          else resolve tt) ;;
         LOG [LogStr "Changed service image uuid to";
              LogStr (LaunchConfig.imageUuid (launchConfig_for options svc))] ;;
         LOG [LogStr "Updated service environment variables."] ;;
         post self upgrade (ParamsUpgrade (inServiceStrategy_for options svc))) ;;
    state <- result_state result ;;
    LOG [LogStr "Upgrading service..."; state] ;;
    waitForUpgrade self serviceName None.

(** ** The messages of the spec's error kinds *)

Definition ValidationError (r : Reason) : Prop :=
  r = Message "Must specify options.serviceName"
  ∨ r = Message "Must specify options.imageRepo".

Definition NotFoundError : Reason :=
  Message "getService: Rancher service not found.".

Definition PreconditionError (state : string) : Reason :=
  Message ("Service is not in active status. (" +:+ state
           +:+ "). Cannot proceed.").

Definition UnexpectedStateError (state : string) : Reason :=
  Message ("unexpected status (" +:+ state
           +:+ ") when waiting for upgrade to complete.").

Definition TimeoutError_upgrade : Reason :=
  Message "Timeout waiting for service to upgrade. Upgrade failed!".

Definition TimeoutError_active : Reason :=
  Message "Timeout waiting for service to activate. Upgrade failed!".

(** The ways the upgraded-wait (and the active-wait it hands over to) can
    fail. *)
Definition wait_failure (r : Reason) : Prop :=
  r = TimeoutError_upgrade
  ∨ r = TimeoutError_active
  ∨ r = NotFoundError
  ∨ (∃ state, r = UnexpectedStateError state)
  ∨ (∃ detail, r = TypeError detail).

(** ** Reading a trace *)

Definition requests (tr : list Event) : list RequestOptions.t :=
  omap (fun e => match e with EvRequest _ req => Some req | _ => None end) tr.

Definition is_post (req : RequestOptions.t) : bool :=
  match RequestOptions.method req with POST => true | GET => false end.

Definition posts (tr : list Event) : list RequestOptions.t :=
  List.filter is_post (requests tr).

(** The in-service strategies that were posted. *)
Definition submitted (reqs : list RequestOptions.t)
  : list InServiceStrategy.t :=
  omap (fun req => match RequestOptions.body req with
                   | Some (ParamsUpgrade s) => Some s
                   | _ => None
                   end) reqs.

(** When each request was issued. *)
Definition request_times (tr : list Event) : list Z :=
  omap (fun e => match e with EvRequest t _ => Some t | _ => None end) tr.

(** Times that start no earlier than [from] and lie at least [gap] apart. *)
Fixpoint paced (gap from : Z) (times : list Z) : Prop :=
  match times with
  | [] => True
  | t :: later => from ≤ t ∧ paced gap (t + gap) later
  end.

(** Two worlds with the same clock and the same answers to come; they may
    differ in what was logged and requested so far.  A promise [respects]
    this when it ends alike on two such worlds. *)
Definition same_state (w1 w2 : World) : Prop :=
  clock w1 = clock w2 ∧ network w1 = network w2.

Definition respects {A} (p : Promise A) : Prop :=
  ∀ w1 w2,
    same_state w1 w2 →
    fst (p w1) = fst (p w2) ∧ same_state (snd (p w1)) (snd (p w2)).

(** A promise [reports] its failures when every rejection with a message
    comes right after that message was written to the error console. *)
Definition reports {A} (p : Promise A) : Prop :=
  ∀ w msg w',
    p w = (Rejected (Message msg), w') →
    ∃ before t more,
      trace w'
      = before ++ [EvConsole Stderr (LogTime t :: LogStr msg :: more)].

(** What [_apiRequest] makes of a call with [params]: the request carries
    the key and the secret, [json: true], and [params] as the query string
    of a GET or as the body of a POST, the other of the two being left
    out. *)
Definition well_formed (self : Config.t) (params : Params)
    (req : RequestOptions.t) : Prop :=
  RequestOptions.auth req = (Config.apikey self, Config.apisecret self)
  ∧ RequestOptions.json req = true
  ∧ match RequestOptions.method req with
    | GET => RequestOptions.qs req = Some params
             ∧ RequestOptions.body req = None
    | POST => RequestOptions.qs req = None
              ∧ RequestOptions.body req = Some params
    end.

(** The request a pending promise is still waiting on. *)
Definition pending_count {A} (o : Outcome A) : nat :=
  match o with
  | Pending => 1
  | _ => 0
  end.

(** The world once the endpoint has given the answer [ex] to [req]. *)
Definition answered (w : World) (ex : Exchange) (rest : list Exchange)
    (req : RequestOptions.t) : World :=
  {| clock := clock w + Z.max 0 (latency ex);
     network := rest;
     trace := trace w ++ [EvRequest (clock w) req] |}.

(** The world of [inServiceUpgrade] once the service was fetched, and
    once the payload is built; [submit] is the rest of its promise chain,
    from the post of the upgrade on. *)
Definition fetched (self : Config.t) (name : string) (w : World)
    (ex : Exchange) (rest : list Exchange) : World :=
  logged Stdout [LogStr "Got service"; LogStr name]
    (answered (logged Stdout [LogStr "Starting deploy for"; LogStr name] w)
              ex rest
              (requestOptions_for self "services" GET (ParamsName name))).

Definition prepared (options : Options.t) (svc : Service.t) (w : World)
  : World :=
  logged Stdout [LogStr "Updated service environment variables."]
    (logged Stdout
       [LogStr "Changed service image uuid to";
        LogStr (LaunchConfig.imageUuid (launchConfig_for options svc))]
       (if negb (Service.state svc =? "active")%string
        then logged Stdout
               [LogStr ("Warning: service is not in active status. ("
                        +:+ Service.state svc
                        +:+ "). It seems we can proceed anyway...")] w
        else w)).

Definition submit (self : Config.t) (options : Options.t) (name : string)
    (svc : Service.t) : Promise Service.t :=
  result <- post self (Service.actions svc !! "upgrade")
                 (ParamsUpgrade (inServiceStrategy_for options svc)) ;;
  state <- result_state result ;;
  LOG [LogStr "Upgrading service..."; state] ;;
  waitForUpgrade self name None.

(** The directory query of [getService]. *)
Definition services_query (self : Config.t) (name : string)
  : RequestOptions.t :=
  requestOptions_for self "services" GET (ParamsName name).

(** What the directory query found: the [data] of a collection, nothing
    for any other body and for a call that failed. *)
Definition matches (r : Reply) : list Service.t :=
  match r with
  | ReplyBody (BCollection data) => data
  | _ => []
  end.

(** The service a lookup finds when it is given the answer at position [j]
    of [answers] (counting from 0): the first match, if there is one. *)
Definition looked_up (answers : list Exchange) (j : nat)
  : option Service.t :=
  match answers !! j with
  | Some ex => head (matches (reply ex))
  | None => None
  end.

(** What a run of the upgraded-wait leaves on the trace after its [k]
    lookups, which took the first [k] of [answers]: nothing, or the post of
    [finishupgrade] followed by what the active-wait did.  The post goes to
    the [finishupgrade] action of the service the last lookup found, in
    state "upgraded", and it is only missing when there is no such action;
    [entered] is the clock when the active-wait was entered, no earlier
    than [from]. *)
Definition finalized (self : Config.t) (serviceName : string) (from : Z)
    (answers : list Exchange) (k : nat) (tail : list Event) : Prop :=
  (tail = []
   ∧ ∀ j svc,
       k = S j →
       looked_up answers j = Some svc →
       Service.state svc = "upgraded" →
       Service.actions svc !! "finishupgrade" = None)
  ∨ ∃ j svc url t entered act m,
      k = S j
      ∧ looked_up answers j = Some svc
      ∧ Service.state svc = "upgraded"
      ∧ Service.actions svc !! "finishupgrade" = Some url
      ∧ tail = EvRequest t (requestOptions_for self url POST ParamsEmpty) :: act
      ∧ from ≤ entered
      ∧ requests act = replicate m (services_query self serviceName)
      ∧ paced (setTimeout_after (Config.statusCheckFrequency self)) entered
              (request_times act)
      ∧ (entered ≠ 0 →
         Forall (fun t => t ≤ entered + Config.serviceActiveTimeout self)
                (request_times act)).

(** The requests [rest] of a session after its first lookup, once the
    upgrade of [svc] is posted: the post to the [upgrade] action of [svc],
    the [k] lookups of the upgraded-wait, entered at [entered] and taking
    the first [k] of [answers], and what follows them. *)
Definition rollout (self : Config.t) (options : Options.t) (name : string)
    (svc : Service.t) (from : Z) (answers : list Exchange)
    (rest : list RequestOptions.t) : Prop :=
  ∃ url polls tail k entered,
    Service.actions svc !! "upgrade" = Some url
    ∧ rest = requestOptions_for self url POST
               (ParamsUpgrade (inServiceStrategy_for options svc))
             :: requests polls ++ requests tail
    ∧ requests polls = replicate k (services_query self name)
    ∧ from ≤ entered
    ∧ paced (setTimeout_after (Config.statusCheckFrequency self)) entered
            (request_times polls)
    ∧ (entered ≠ 0 →
       Forall (fun t => t ≤ entered + Config.serviceUpgradedTimeout self)
              (request_times polls))
    ∧ finalized self name entered answers k tail.

(** ** A scenario to run the code on *)

Module Scenario.
Definition api : Config.t :=
  Config.mk "https://rancher.local/v1" "key" "secret"
            (20 * 1000) (3 * 60 * 1000) (3 * 60 * 1000).

Definition upgrade_url : string :=
  "https://rancher.local/v1/services/1s7/?action=upgrade".

Definition finish_url : string :=
  "https://rancher.local/v1/services/1s7/?action=finishupgrade".

Definition launch : LaunchConfig.t :=
  LaunchConfig.mk "docker:org/app:v1"
                  (Some {[ "A" := JNum 1; "B" := JNum 2 ]}) ∅.

Definition web (state : string) : Service.t :=
  Service.mk "web" state launch []
             {[ "upgrade" := upgrade_url; "finishupgrade" := finish_url ]}.

(** A service that offers no action at all. *)
Definition stuck (state : string) : Service.t :=
  Service.mk "web" state launch [] ∅.

Definition found (svc : Service.t) : Exchange :=
  {| latency := 40; reply := ReplyBody (BCollection [svc]) |}.

Definition nothing : Exchange :=
  {| latency := 40; reply := ReplyBody (BCollection []) |}.

Definition accepted (svc : Service.t) : Exchange :=
  {| latency := 60; reply := ReplyBody (BResource svc) |}.

Definition refused : Exchange :=
  {| latency := 5; reply := ReplyError "ECONNREFUSED" |}.

Definition at_noon (answers : list Exchange) : World :=
  {| clock := 43200000; network := answers; trace := [] |}.

Definition request_v2 : Options.t :=
  Options.mk (Some "web") (Some "org/app") (Some "v2")
             (Some {[ "B" := JNum 3; "C" := JNum 4 ]}) None None None.

Definition request_untagged : Options.t :=
  Options.mk (Some "web") (Some "org/app") None None None None None.

Definition request_empty_tag : Options.t :=
  Options.mk (Some "web") (Some "org/app") (Some "") None None None None.

Definition request_zeroes : Options.t :=
  Options.mk (Some "web") (Some "org/app") (Some "v2") None
             (Some 0) (Some 0) (Some false).

Definition request_unnamed : Options.t :=
  Options.mk None (Some "org/app") None None None None None.

(** active, then upgrading twice, upgraded, and active again. *)
Definition smooth : World :=
  at_noon [found (web "active"); accepted (web "upgrading");
           found (web "upgrading"); found (web "upgrading");
           found (web "upgraded"); accepted (web "active");
           found (web "active")].

(** An instance with short timeouts: one poll interval each. *)
Definition quick : Config.t :=
  Config.mk "https://rancher.local/v1" "key" "secret"
            (20 * 1000) (20 * 1000) (20 * 1000).

(** An instance whose poll interval is one more than [TIMEOUT_MAX]. *)
Definition hasty : Config.t :=
  Config.mk "https://rancher.local/v1" "key" "secret"
            2147483648 (3 * 60 * 1000) (3 * 60 * 1000).

(** A call that takes as long as [accepted] and fails. *)
Definition dropped : Exchange :=
  {| latency := 60; reply := ReplyError "ECONNRESET" |}.

(** The same, but the [finishupgrade] call cannot be completed. *)
Definition finalize_refused : World :=
  at_noon [found (web "active"); accepted (web "upgrading");
           found (web "upgraded"); refused; found (web "active")].
End Scenario.

(** * Properties *)

(** ** Traces *)

Lemma requests_app (tr1 tr2 : list Event) :
  requests (tr1 ++ tr2) = requests tr1 ++ requests tr2.
Proof. unfold requests. apply omap_app. Qed.

Lemma posts_app (tr1 tr2 : list Event) :
  posts (tr1 ++ tr2) = posts tr1 ++ posts tr2.
Proof. unfold posts. rewrite requests_app. apply List.filter_app. Qed.

Lemma request_times_app (tr1 tr2 : list Event) :
  request_times (tr1 ++ tr2) = request_times tr1 ++ request_times tr2.
Proof. unfold request_times. apply omap_app. Qed.


(** ** The helpers *)


Lemma LOG_then {B} (args : list LogArg) (k : Promise B) (w : World) :
  (LOG args ;; k) w = k (logged Stdout args w).
Proof. reflexivity. Qed.

Lemma DELAY_then {B} (time : Z) (k : Promise B) (w : World) :
  (DELAY time ;; k) w = k (delayed time w).
Proof. reflexivity. Qed.

Lemma ERROR_run {A} (msg : string) (more : list LogArg) (w : World) :
  @ERROR A msg more w
  = (Rejected (Message msg), logged Stderr (LogStr msg :: more) w).
Proof. reflexivity. Qed.

Lemma trace_logged (stream : Stream) (args : list LogArg) (w : World) :
  trace (logged stream args w)
  = trace w ++ [EvConsole stream (LogTime (clock w) :: args)].
Proof. reflexivity. Qed.

Lemma network_logged (stream : Stream) (args : list LogArg) (w : World) :
  network (logged stream args w) = network w.
Proof. reflexivity. Qed.

Lemma clock_logged (stream : Stream) (args : list LogArg) (w : World) :
  clock (logged stream args w) = clock w.
Proof. reflexivity. Qed.

Lemma trace_delayed (time : Z) (w : World) :
  trace (delayed time w) = trace w ++ [EvTimer (clock w) time].
Proof. reflexivity. Qed.

Lemma network_delayed (time : Z) (w : World) :
  network (delayed time w) = network w.
Proof. reflexivity. Qed.

Lemma clock_delayed (time : Z) (w : World) :
  clock (delayed time w) = clock w + setTimeout_after time.
Proof. reflexivity. Qed.

Lemma trace_answered (w : World) (ex : Exchange) (rest : list Exchange)
    (req : RequestOptions.t) :
  trace (answered w ex rest req) = trace w ++ [EvRequest (clock w) req].
Proof. reflexivity. Qed.

Lemma network_answered (w : World) (ex : Exchange) (rest : list Exchange)
    (req : RequestOptions.t) :
  network (answered w ex rest req) = rest.
Proof. reflexivity. Qed.

Lemma clock_answered (w : World) (ex : Exchange) (rest : list Exchange)
    (req : RequestOptions.t) :
  clock (answered w ex rest req) = clock w + Z.max 0 (latency ex).
Proof. reflexivity. Qed.

Lemma setTimeout_after_positive (after : Z) : 1 ≤ setTimeout_after after.
Proof.
  unfold setTimeout_after.
  destruct (Z.leb_spec 1 after), (Z.leb_spec after TIMEOUT_MAX); simpl; lia.
Qed.

Lemma setTimeout_after_kept (after : Z) :
  1 ≤ after ≤ TIMEOUT_MAX → setTimeout_after after = after.
Proof.
  intros [Hlo Hhi]. unfold setTimeout_after.
  apply Z.leb_le in Hlo, Hhi. rewrite Hlo, Hhi. reflexivity.
Qed.

Create Rewrite HintDb world.
#[local] Hint Rewrite trace_logged network_logged clock_logged
  trace_delayed network_delayed clock_delayed
  trace_answered network_answered clock_answered : world.




Lemma startTime_or_now_run (startTime : option Z) (w : World) :
  startTime_or_now startTime w
  = (Fulfilled (startTime_or startTime (clock w)), w).
Proof. reflexivity. Qed.

Lemma startTime_or_fixed (t now : Z) :
  t ≠ 0 → startTime_or (Some t) now = t.
Proof.
  intros Ht. unfold startTime_or.
  destruct (Z.eqb_spec t 0) as [E | _]; [contradiction | reflexivity].
Qed.

Lemma then_ext {A B} (p : Promise A) (f g : A → Promise B) (w : World) :
  (∀ a w', p w = (Fulfilled a, w') → f a w' = g a w') →
  then_ p f w = then_ p g w.
Proof.
  intros H. unfold then_. destruct (p w) as [[a | r |] w']; auto.
Qed.

Lemma then_fulfilled {A B} (p : Promise A) (f : A → Promise B)
    (w w' : World) (a : A) :
  p w = (Fulfilled a, w') → then_ p f w = f a w'.
Proof. intros H. unfold then_. rewrite H. reflexivity. Qed.

Lemma then_resolve {A B} (a : A) (f : A → Promise B) (w : World) :
  then_ (resolve a) f w = f a w.
Proof. reflexivity. Qed.

Lemma then_rejected {A B} (p : Promise A) (f : A → Promise B)
    (w w' : World) (r : Reason) :
  p w = (Rejected r, w') → then_ p f w = (Rejected r, w').
Proof. intros H. unfold then_. rewrite H. reflexivity. Qed.

Lemma then_pending {A B} (p : Promise A) (f : A → Promise B)
    (w w' : World) :
  p w = (Pending, w') → then_ p f w = (Pending, w').
Proof. intros H. unfold then_. rewrite H. reflexivity. Qed.

Section Calls.
Variable self : Config.t.

Lemma _apiRequest_body (path : string) (method : Method) (params : Params)
    (w : World) (ex : Exchange) (rest : list Exchange) (b : Body) :
  network w = ex :: rest →
  reply ex = ReplyBody b →
  _apiRequest self (Some path) method params w
  = (Fulfilled (Some b),
     answered w ex rest (requestOptions_for self path method params)).
Proof.
  intros Hn Hr. unfold _apiRequest, catch_, then_, request.
  rewrite Hn, Hr. reflexivity.
Qed.

Lemma _apiRequest_error (path : string) (method : Method) (params : Params)
    (w : World) (ex : Exchange) (rest : list Exchange) (err : string) :
  network w = ex :: rest →
  reply ex = ReplyError err →
  _apiRequest self (Some path) method params w
  = (Fulfilled None,
     emit (EvConsole Stdout
             [LogStr "ERROR on REQ:"; LogReason (RequestError err)])
          (answered w ex rest
                    (requestOptions_for self path method params))).
Proof.
  intros Hn Hr. unfold _apiRequest, catch_, then_, request.
  rewrite Hn, Hr. reflexivity.
Qed.

Lemma _apiRequest_pending (path : string) (method : Method)
    (params : Params) (w : World) :
  network w = [] →
  _apiRequest self (Some path) method params w
  = (Pending,
     emit (EvRequest (clock w)
                     (requestOptions_for self path method params)) w).
Proof.
  intros Hn. unfold _apiRequest, catch_, then_, request.
  rewrite Hn. reflexivity.
Qed.

(** Whatever the endpoint does, a call with a path puts exactly one
    request on the wire, and nothing it logs is a request. *)
Lemma _apiRequest_inv (path : string) (method : Method) (params : Params)
    (w : World) (o : Outcome (option Body)) (w' : World) :
  _apiRequest self (Some path) method params w = (o, w') →
  (∃ logs, trace w' = trace w
             ++ EvRequest (clock w)
                  (requestOptions_for self path method params) :: logs
           ∧ requests logs = [])
  ∧ match o with
    | Fulfilled _ => ∃ ex, network w = ex :: network w'
    | Rejected _ => False
    | Pending => network w = [] ∧ network w' = []
    end.
Proof.
  intros H. destruct (network w) as [| ex rest] eqn:Hn.
  - rewrite _apiRequest_pending in H by assumption.
    injection H as <- <-. split; [exists []; split; reflexivity |].
    simpl. auto.
  - destruct (reply ex) as [b | err] eqn:Hr.
    + erewrite _apiRequest_body in H by eassumption.
      injection H as <- <-. split; [exists []; split; reflexivity |].
      simpl. eauto.
    + erewrite _apiRequest_error in H by eassumption.
      injection H as <- <-. split; [| simpl; eauto].
      eexists [_]. simpl. rewrite <- app_assoc. split; reflexivity.
Qed.

Lemma getService_found (name : string) (w : World) (ex : Exchange)
    (rest : list Exchange) (svc : Service.t) (more : list Service.t) :
  network w = ex :: rest →
  reply ex = ReplyBody (BCollection (svc :: more)) →
  getService self name w
  = (Fulfilled svc, answered w ex rest (services_query self name)).
Proof.
  intros Hn Hr. unfold getService, get, then_.
  erewrite _apiRequest_body by eassumption. reflexivity.
Qed.

(** The three ways a lookup can end. *)
Lemma getService_inv (name : string) (w : World)
    (o : Outcome Service.t) (w' : World) :
  getService self name w = (o, w') →
  (∃ logs, trace w' = trace w
             ++ EvRequest (clock w) (services_query self name) :: logs
           ∧ requests logs = [])
  ∧ match o with
    | Fulfilled svc =>
        ∃ ex more, network w = ex :: network w'
                   ∧ reply ex = ReplyBody (BCollection (svc :: more))
                   ∧ w' = answered w ex (network w')
                                   (services_query self name)
    | Rejected r => r = NotFoundError ∧ ∃ ex, network w = ex :: network w'
    | Pending => network w = [] ∧ network w' = []
    end.
Proof.
  unfold getService, get, then_.
  destruct (_apiRequest self (Some "services") GET (ParamsName name) w)
    as [[result | r |] w1] eqn:Hreq;
    pose proof (_apiRequest_inv _ _ _ _ _ _ Hreq) as [[logs [Htr Hlogs]] Hout].
  - destruct Hout as [ex Hn].
    assert (Hnf : ∀ o w',
               @ERROR Service.t "getService: Rancher service not found." [] w1
               = (o, w') →
               (∃ logs, trace w' = trace w
                  ++ EvRequest (clock w) (services_query self name) :: logs
                  ∧ requests logs = [])
               ∧ match o with
                 | Fulfilled svc =>
                     ∃ ex more, network w = ex :: network w'
                       ∧ reply ex = ReplyBody (BCollection (svc :: more))
                       ∧ w' = answered w ex (network w')
                                       (services_query self name)
                 | Rejected r =>
                     r = NotFoundError ∧ ∃ ex, network w = ex :: network w'
                 | Pending => network w = [] ∧ network w' = []
                 end).
    { intros o0 w0. rewrite ERROR_run. intros [= <- <-]. split.
      - eexists (logs ++ [_]). simpl. rewrite Htr, <- app_assoc. simpl.
        split; [reflexivity |].
        rewrite requests_app, Hlogs. reflexivity.
      - simpl. split; [reflexivity | eauto]. }
    destruct result as [[| text | [| svc more] | rsvc] |]; try apply Hnf.
    intros [= <- <-]. split; [eauto |].
    destruct (reply ex) as [b | err] eqn:Hr.
    + erewrite _apiRequest_body in Hreq by eassumption.
      exists ex, more. split; [assumption |].
      injection Hreq as -> <-. simpl. auto.
    + erewrite _apiRequest_error in Hreq by eassumption. discriminate.
  - destruct Hout.
  - intros [= <- <-]. split; eauto.
Qed.
End Calls.

(** ** The two wait phases, one turn at a time *)

Section Phases.
Variable self : Config.t.
Variable serviceName : string.

Lemma waitForActive_body_expired (again : option Z → Promise Service.t)
    (startTime : option Z) (w : World) :
  startTime_or startTime (clock w) + Config.serviceActiveTimeout self
    < clock w →
  waitForActive_body again self serviceName startTime w
  = ERROR "Timeout waiting for service to activate. Upgrade failed!" [] w.
Proof.
  intros Hlate. unfold waitForActive_body, then_ at 1 2.
  rewrite startTime_or_now_run. simpl.
  destruct (Z.ltb_spec
              (startTime_or startTime (clock w)
               + Config.serviceActiveTimeout self) (clock w));
    [reflexivity | lia].
Qed.

Lemma waitForActive_body_check (again : option Z → Promise Service.t)
    (startTime : option Z) (w : World) :
  clock w ≤ startTime_or startTime (clock w)
            + Config.serviceActiveTimeout self →
  waitForActive_body again self serviceName startTime w
  = (svc <- getService self serviceName ;;
     if negb (Service.state svc =? "active")%string
     then
       LOG [LogStr ("Waiting for active status. Current("
                    +:+ Service.state svc +:+ ")")] ;;
       DELAY (Config.statusCheckFrequency self) ;;
       again (Some (startTime_or startTime (clock w)))
     else
       LOG [LogStr "Upgrade succeded!"] ;;
       resolve svc) w.
Proof.
  intros Hok. unfold waitForActive_body, then_ at 1 2.
  rewrite startTime_or_now_run. simpl.
  destruct (Z.ltb_spec
              (startTime_or startTime (clock w)
               + Config.serviceActiveTimeout self) (clock w));
    [lia | reflexivity].
Qed.

Lemma waitForActive_body_ext (again1 again2 : option Z → Promise Service.t)
    (startTime : option Z) (w : World) :
  (∀ st w', (length (network w') < length (network w))%nat →
            again1 st w' = again2 st w') →
  waitForActive_body again1 self serviceName startTime w
  = waitForActive_body again2 self serviceName startTime w.
Proof.
  intros Hagain.
  destruct (Z.lt_ge_cases
              (startTime_or startTime (clock w)
               + Config.serviceActiveTimeout self) (clock w)) as [Hlate | Hok].
  - rewrite !waitForActive_body_expired by assumption. reflexivity.
  - rewrite !waitForActive_body_check by assumption.
    apply then_ext. intros svc w1 Hget.
    apply getService_inv in Hget as [_ (ex & more & Hn & _ & _)].
    destruct (negb (Service.state svc =? "active")%string);
      [| reflexivity].
    rewrite !LOG_then, !DELAY_then.
    apply Hagain. autorewrite with world. rewrite Hn. simpl. lia.
Qed.

Lemma waitForActive_fuel_enough (n m : nat) (startTime : option Z)
    (w : World) :
  (length (network w) < n)%nat →
  (length (network w) < m)%nat →
  waitForActive_fuel n self serviceName startTime w
  = waitForActive_fuel m self serviceName startTime w.
Proof.
  revert m startTime w.
  induction n as [| n IH]; intros m startTime w Hn Hm; [lia |].
  destruct m as [| m]; [lia |]. simpl.
  apply waitForActive_body_ext. intros st w' Hw'.
  apply IH; lia.
Qed.

(** [waitForActive] is its own body: the fuel never shows. *)
Lemma waitForActive_unfold (startTime : option Z) (w : World) :
  waitForActive self serviceName startTime w
  = waitForActive_body (waitForActive self serviceName)
                       self serviceName startTime w.
Proof.
  unfold waitForActive at 1. simpl.
  apply waitForActive_body_ext. intros st w' Hw'.
  unfold waitForActive. apply waitForActive_fuel_enough; lia.
Qed.

Lemma waitForUpgrade_body_expired (again : option Z → Promise Service.t)
    (startTime : option Z) (w : World) :
  startTime_or startTime (clock w) + Config.serviceUpgradedTimeout self
    < clock w →
  waitForUpgrade_body again self serviceName startTime w
  = ERROR "Timeout waiting for service to upgrade. Upgrade failed!" [] w.
Proof.
  intros Hlate. unfold waitForUpgrade_body, then_ at 1 2.
  rewrite startTime_or_now_run. simpl.
  destruct (Z.ltb_spec
              (startTime_or startTime (clock w)
               + Config.serviceUpgradedTimeout self) (clock w));
    [reflexivity | lia].
Qed.

Lemma waitForUpgrade_body_check (again : option Z → Promise Service.t)
    (startTime : option Z) (w : World) :
  clock w ≤ startTime_or startTime (clock w)
            + Config.serviceUpgradedTimeout self →
  waitForUpgrade_body again self serviceName startTime w
  = (svc <- getService self serviceName ;;
     if (Service.state svc =? "upgrading")%string
     then
       LOG [LogStr "Service is upgrading, waiting..."] ;;
       DELAY (Config.statusCheckFrequency self) ;;
       again (Some (startTime_or startTime (clock w)))
     else if (Service.state svc =? "upgraded")%string
     then
       LOG [LogStr "Service is upgraded. Finishing..."] ;;
       result <- post self (Service.actions svc !! "finishupgrade")
                      ParamsEmpty ;;
       LOG [LogStr "Finish upgrade sent."] ;;
       waitForActive self serviceName None
     else
       LOG [LogStr "unexpected status"; LogStr (Service.state svc);
            LogStr "Aborting."] ;;
       ERROR ("unexpected status (" +:+ Service.state svc
              +:+ ") when waiting for upgrade to complete.") []) w.
Proof.
  intros Hok. unfold waitForUpgrade_body, then_ at 1 2.
  rewrite startTime_or_now_run. simpl.
  destruct (Z.ltb_spec
              (startTime_or startTime (clock w)
               + Config.serviceUpgradedTimeout self) (clock w));
    [lia | reflexivity].
Qed.

Lemma waitForUpgrade_body_ext (again1 again2 : option Z → Promise Service.t)
    (startTime : option Z) (w : World) :
  (∀ st w', (length (network w') < length (network w))%nat →
            again1 st w' = again2 st w') →
  waitForUpgrade_body again1 self serviceName startTime w
  = waitForUpgrade_body again2 self serviceName startTime w.
Proof.
  intros Hagain.
  destruct (Z.lt_ge_cases
              (startTime_or startTime (clock w)
               + Config.serviceUpgradedTimeout self) (clock w))
    as [Hlate | Hok].
  - rewrite !waitForUpgrade_body_expired by assumption. reflexivity.
  - rewrite !waitForUpgrade_body_check by assumption.
    apply then_ext. intros svc w1 Hget.
    apply getService_inv in Hget as [_ (ex & more & Hn & _ & _)].
    destruct (Service.state svc =? "upgrading")%string; [| reflexivity].
    rewrite !LOG_then, !DELAY_then.
    apply Hagain. autorewrite with world. rewrite Hn. simpl. lia.
Qed.

Lemma waitForUpgrade_fuel_enough (n m : nat) (startTime : option Z)
    (w : World) :
  (length (network w) < n)%nat →
  (length (network w) < m)%nat →
  waitForUpgrade_fuel n self serviceName startTime w
  = waitForUpgrade_fuel m self serviceName startTime w.
Proof.
  revert m startTime w.
  induction n as [| n IH]; intros m startTime w Hn Hm; [lia |].
  destruct m as [| m]; [lia |]. simpl.
  apply waitForUpgrade_body_ext. intros st w' Hw'.
  apply IH; lia.
Qed.

Lemma waitForUpgrade_unfold (startTime : option Z) (w : World) :
  waitForUpgrade self serviceName startTime w
  = waitForUpgrade_body (waitForUpgrade self serviceName)
                        self serviceName startTime w.
Proof.
  unfold waitForUpgrade at 1. simpl.
  apply waitForUpgrade_body_ext. intros st w' Hw'.
  unfold waitForUpgrade. apply waitForUpgrade_fuel_enough; lia.
Qed.
End Phases.

(** ** Whole runs of the wait phases *)

Lemma requests_nil_times (tr : list Event) :
  requests tr = [] → request_times tr = [].
Proof.
  induction tr as [| [t req | stream args | t ms] tr IH]; simpl; intros H;
    try discriminate; auto.
Qed.

Lemma requests_nil_posts (tr : list Event) : requests tr = [] → posts tr = [].
Proof. unfold posts. intros ->. reflexivity. Qed.

Lemma posts_get (self : Config.t) (name : string) (t : Z) (logs : list Event) :
  requests logs = [] →
  posts (EvRequest t (services_query self name) :: logs) = [].
Proof. intros H. unfold posts. simpl. rewrite H. reflexivity. Qed.

Lemma request_times_one (t : Z) (req : RequestOptions.t) (logs : list Event) :
  requests logs = [] →
  request_times (EvRequest t req :: logs) = [t].
Proof. intros H. simpl. rewrite (requests_nil_times _ H). reflexivity. Qed.

Lemma posts_post' (self : Config.t) (t : Z) (url : string) (params : Params)
    (later : list Event) :
  posts (EvRequest t (requestOptions_for self url POST params) :: later)
  = requestOptions_for self url POST params :: posts later.
Proof. reflexivity. Qed.

Section Runs.
Variable self : Config.t.
Variable serviceName : string.

(** What a run of the active-wait adds to the trace, and how it can end:
    it posts nothing, starts no lookup after its deadline, and ends with an
    active service, a timeout or a failed lookup. *)
Lemma waitForActive_run (n : nat) :
  ∀ (startTime : option Z) (w : World) (o : Outcome Service.t) (w' : World),
    (length (network w) < n)%nat →
    waitForActive self serviceName startTime w = (o, w') →
    ∃ new,
      trace w' = trace w ++ new
      ∧ posts new = []
      ∧ (startTime_or startTime (clock w) ≠ 0 →
         Forall (fun t => t ≤ startTime_or startTime (clock w)
                              + Config.serviceActiveTimeout self)
                (request_times new))
      ∧ match o with
        | Fulfilled svc => Service.state svc = "active"
        | Rejected r => r = TimeoutError_active ∨ r = NotFoundError
        | Pending => network w' = []
        end.
Proof.
  induction n as [| n IH]; intros startTime w o w' Hlen Hrun; [lia |].
  rewrite waitForActive_unfold in Hrun.
  destruct (Z.lt_ge_cases
              (startTime_or startTime (clock w)
               + Config.serviceActiveTimeout self) (clock w))
    as [Hlate | Hok].
  { rewrite waitForActive_body_expired, ERROR_run in Hrun by assumption.
    injection Hrun as <- <-. eexists [_].
    rewrite trace_logged. repeat split; auto. }
  rewrite waitForActive_body_check in Hrun by assumption.
  destruct (getService self serviceName w) as [[svc | r |] w1] eqn:Hget;
    pose proof (getService_inv _ _ _ _ _ Hget) as [[logs [Htr Hlogs]] Hout].
  - rewrite (then_fulfilled _ _ _ _ _ Hget) in Hrun.
    destruct Hout as (ex & more & Hn & Hr & Hw1).
    destruct (Service.state svc =? "active")%string eqn:Hstate;
      cbn [negb] in Hrun.
    + rewrite LOG_then in Hrun. injection Hrun as <- <-.
      eexists ((EvRequest (clock w) (services_query self serviceName)
                  :: logs) ++ [_]).
      rewrite trace_logged, Htr, <- app_assoc.
      split; [reflexivity |].
      rewrite posts_app, request_times_app, posts_get,
        request_times_one by assumption.
      split; [reflexivity |].
      split; [| apply String.eqb_eq; assumption].
      intros _. simpl. constructor; [assumption | constructor].
    + rewrite LOG_then, DELAY_then in Hrun.
      apply IH in Hrun;
        [| autorewrite with world; rewrite Hn in Hlen; simpl in Hlen; lia].
      destruct Hrun as (new & Hnew & Hposts & Htimes & Hend).
      autorewrite with world in Hnew.
      eexists ((EvRequest (clock w) (services_query self serviceName)
                  :: logs) ++ [_; _] ++ new).
      split.
      { rewrite Hnew, Htr, <- !app_assoc. reflexivity. }
      rewrite !posts_app, !request_times_app, posts_get,
        request_times_one, Hposts by assumption.
      split; [reflexivity |].
      split; [| assumption].
      intros Hstart. rewrite startTime_or_fixed in Htimes by assumption.
      simpl. constructor; [assumption | auto].
  - rewrite (then_rejected _ _ _ _ _ Hget) in Hrun.
    injection Hrun as <- <-. destruct Hout as [-> _].
    exists (EvRequest (clock w) (services_query self serviceName) :: logs).
    rewrite posts_get, request_times_one by assumption.
    split; [assumption |]. split; [reflexivity |].
    split; [intros _; constructor; [assumption | constructor] |].
    right; reflexivity.
  - rewrite (then_pending _ _ _ _ Hget) in Hrun.
    injection Hrun as <- <-. destruct Hout as [_ Hnil].
    exists (EvRequest (clock w) (services_query self serviceName) :: logs).
    rewrite posts_get, request_times_one by assumption.
    split; [assumption |]. split; [reflexivity |].
    split; [intros _; constructor; [assumption | constructor] |].
    assumption.
Qed.

Lemma posts_post (t : Z) (url : string) (params : Params)
    (logs : list Event) :
  requests logs = [] →
  posts (EvRequest t (requestOptions_for self url POST params) :: logs)
  = [requestOptions_for self url POST params].
Proof. intros H. unfold posts. simpl. rewrite H. reflexivity. Qed.

(** A run of the upgraded-wait posts [finishupgrade] at most once, and as
    long as it has not done so it starts no lookup after its deadline. *)
Lemma waitForUpgrade_run (n : nat) :
  ∀ (startTime : option Z) (w : World) (o : Outcome Service.t) (w' : World),
    (length (network w) < n)%nat →
    waitForUpgrade self serviceName startTime w = (o, w') →
    ∃ new,
      trace w' = trace w ++ new
      ∧ (posts new = []
         ∨ ∃ url, posts new = [requestOptions_for self url POST ParamsEmpty])
      ∧ (startTime_or startTime (clock w) ≠ 0 →
         posts new = [] →
         Forall (fun t => t ≤ startTime_or startTime (clock w)
                              + Config.serviceUpgradedTimeout self)
                (request_times new))
      ∧ match o with
        | Fulfilled svc => Service.state svc = "active"
        | Rejected r => wait_failure r
        | Pending => network w' = []
        end.
Proof.
  induction n as [| n IH]; intros startTime w o w' Hlen Hrun; [lia |].
  rewrite waitForUpgrade_unfold in Hrun.
  destruct (Z.lt_ge_cases
              (startTime_or startTime (clock w)
               + Config.serviceUpgradedTimeout self) (clock w))
    as [Hlate | Hok].
  { rewrite waitForUpgrade_body_expired, ERROR_run in Hrun by assumption.
    injection Hrun as <- <-. eexists [_].
    rewrite trace_logged. split; [reflexivity |].
    split; [left; reflexivity |].
    split; [intros _ _; constructor | left; reflexivity]. }
  rewrite waitForUpgrade_body_check in Hrun by assumption.
  destruct (getService self serviceName w) as [[svc | r |] w1] eqn:Hget;
    pose proof (getService_inv _ _ _ _ _ Hget) as [[logs [Htr Hlogs]] Hout].
  - rewrite (then_fulfilled _ _ _ _ _ Hget) in Hrun.
    destruct Hout as (ex & more & Hn & Hr & Hw1).
    destruct (Service.state svc =? "upgrading")%string eqn:Hupgrading.
    { rewrite LOG_then, DELAY_then in Hrun.
      apply IH in Hrun;
        [| autorewrite with world; rewrite Hn in Hlen; simpl in Hlen; lia].
      destruct Hrun as (new & Hnew & Hposts & Htimes & Hend).
      autorewrite with world in Hnew.
      eexists ((EvRequest (clock w) (services_query self serviceName)
                  :: logs) ++ [_; _] ++ new).
      split.
      { rewrite Hnew, Htr, <- !app_assoc. reflexivity. }
      rewrite !posts_app, !request_times_app, posts_get,
        request_times_one by assumption.
      split; [exact Hposts |].
      split; [| exact Hend].
      intros Hstart Hnone.
      rewrite startTime_or_fixed in Htimes by assumption.
      simpl. constructor; [assumption | auto]. }
    destruct (Service.state svc =? "upgraded")%string eqn:Hupgraded.
    + rewrite LOG_then in Hrun.
      destruct (Service.actions svc !! "finishupgrade") as [url |].
      2:{ injection Hrun as <- <-.
          eexists ((EvRequest (clock w) (services_query self serviceName)
                      :: logs) ++ [_]).
          rewrite trace_logged, Htr, <- app_assoc.
          split; [reflexivity |].
          rewrite posts_app, request_times_app, posts_get,
            request_times_one by assumption.
          split; [left; reflexivity |].
          split; [| do 4 right; eexists; reflexivity].
          intros _ _. simpl. constructor; [assumption | constructor]. }
      unfold post in Hrun.
      destruct (_apiRequest self (Some url) POST ParamsEmpty
                  (logged Stdout [LogStr "Service is upgraded. Finishing..."]
                          w1)) as [[result | r |] w2] eqn:Hpost;
        pose proof (_apiRequest_inv _ _ _ _ _ _ _ Hpost)
          as [[logs2 [Htr2 Hlogs2]] Hout2].
      * rewrite (then_fulfilled _ _ _ _ _ Hpost), LOG_then in Hrun.
        apply (waitForActive_run
                 (S (length (network
                       (logged Stdout [LogStr "Finish upgrade sent."] w2)))))
          in Hrun as Hact; [| lia].
        destruct Hact as (new & Hnew & Hposts & _ & Hend).
        autorewrite with world in Hnew, Htr2.
        eexists ((EvRequest (clock w) (services_query self serviceName)
                    :: logs) ++ [_]
                 ++ (EvRequest _
                       (requestOptions_for self url POST ParamsEmpty)
                       :: logs2) ++ [_] ++ new).
        split.
        { rewrite Hnew, Htr2, Htr, <- !app_assoc. reflexivity. }
        rewrite !posts_app, posts_get, posts_post, Hposts by assumption.
        split; [right; exists url; reflexivity |].
        split; [intros _ Hnone; discriminate Hnone |].
        destruct o as [final | r |]; [exact Hend | | exact Hend].
        destruct Hend as [-> | ->]; unfold wait_failure; auto.
      * destruct Hout2.
      * rewrite (then_pending _ _ _ _ Hpost) in Hrun.
        injection Hrun as <- <-.
        autorewrite with world in Htr2.
        eexists ((EvRequest (clock w) (services_query self serviceName)
                    :: logs) ++ [_]
                 ++ (EvRequest _
                       (requestOptions_for self url POST ParamsEmpty)
                       :: logs2)).
        split.
        { rewrite Htr2, Htr, <- !app_assoc. reflexivity. }
        rewrite !posts_app, posts_get, posts_post by assumption.
        split; [right; exists url; reflexivity |].
        split; [intros _ Hnone; discriminate Hnone | apply Hout2].
    + rewrite LOG_then, ERROR_run in Hrun. injection Hrun as <- <-.
      eexists ((EvRequest (clock w) (services_query self serviceName)
                  :: logs) ++ [_; _]).
      split.
      { autorewrite with world. rewrite Htr, <- !app_assoc. reflexivity. }
      rewrite posts_app, request_times_app, posts_get,
        request_times_one by assumption.
      split; [left; reflexivity |].
      split; [| do 3 right; left; eexists; reflexivity].
      intros _ _. simpl. constructor; [assumption | constructor].
  - rewrite (then_rejected _ _ _ _ _ Hget) in Hrun.
    injection Hrun as <- <-. destruct Hout as [-> _].
    exists (EvRequest (clock w) (services_query self serviceName) :: logs).
    rewrite posts_get, request_times_one by assumption.
    split; [assumption |]. split; [left; reflexivity |].
    split; [| do 2 right; left; reflexivity].
    intros _ _. constructor; [assumption | constructor].
  - rewrite (then_pending _ _ _ _ Hget) in Hrun.
    injection Hrun as <- <-.
    exists (EvRequest (clock w) (services_query self serviceName) :: logs).
    rewrite posts_get, request_times_one by assumption.
    split; [assumption |]. split; [left; reflexivity |].
    split; [| apply Hout].
    intros _ _. constructor; [assumption | constructor].
Qed.
End Runs.

(** ** The session up to the post of the upgrade *)

Lemma then_assoc {A B C} (p : Promise A) (f : A → Promise B)
    (g : B → Promise C) (w : World) :
  then_ (then_ p f) g w = then_ p (fun a => then_ (f a) g) w.
Proof. unfold then_. destruct (p w) as [[a | r |] w']; reflexivity. Qed.

Lemma truthy_Some (s : string) : s ≠ "" → truthy (Some s) = true.
Proof.
  intros H. unfold truthy. apply negb_true_iff, String.eqb_neq. exact H.
Qed.

Section Session.
Variable self : Config.t.

(** With the two required options there, the session logs its start and
    looks the service up. *)
Lemma inServiceUpgrade_started (options : Options.t) (name repo : string)
    (w : World) :
  Options.serviceName options = Some name → name ≠ "" →
  Options.imageRepo options = Some repo → repo ≠ "" →
  inServiceUpgrade self (Some options) w
  = (svc <- getService self name ;;
     fun w1 =>
       let w2 := logged Stdout [LogStr "Got service"; LogStr name] w1 in
       if negb (Service.state svc =? "active")%string
          && negb (truthy (Service.actions svc !! "upgrade"))
       then ERROR ("Service is not in active status. ("
                   +:+ Service.state svc +:+ "). Cannot proceed.")
                  [LogService svc] w2
       else submit self options name svc (prepared options svc w2))
      (logged Stdout [LogStr "Starting deploy for"; LogStr name] w).
Proof.
  intros Hname Hname' Hrepo Hrepo'.
  unfold inServiceUpgrade. cbn [default from_option id].
  rewrite Hname, Hrepo, !truthy_Some by assumption.
  cbn [negb default from_option id].
  rewrite LOG_then, then_assoc.
  apply then_ext. intros svc w1 _.
  unfold submit, prepared.
  destruct (negb (Service.state svc =? "active")%string);
    destruct (truthy (Service.actions svc !! "upgrade")); reflexivity.
Qed.

Lemma inServiceUpgrade_fetched (options : Options.t) (name repo : string)
    (w : World) (ex : Exchange) (rest : list Exchange) (svc : Service.t)
    (more : list Service.t) :
  Options.serviceName options = Some name → name ≠ "" →
  Options.imageRepo options = Some repo → repo ≠ "" →
  network w = ex :: rest →
  reply ex = ReplyBody (BCollection (svc :: more)) →
  inServiceUpgrade self (Some options) w
  = if negb (Service.state svc =? "active")%string
       && negb (truthy (Service.actions svc !! "upgrade"))
    then ERROR ("Service is not in active status. ("
                +:+ Service.state svc +:+ "). Cannot proceed.")
               [LogService svc] (fetched self name w ex rest)
    else submit self options name svc
                (prepared options svc (fetched self name w ex rest)).
Proof.
  intros Hname Hname' Hrepo Hrepo' Hn Hr.
  erewrite inServiceUpgrade_started by eassumption.
  erewrite then_fulfilled
    by (apply getService_found with (more := more);
        [autorewrite with world; exact Hn | exact Hr]).
  reflexivity.
Qed.

Lemma requests_prepared (options : Options.t) (svc : Service.t)
    (w : World) :
  requests (trace (prepared options svc w)) = requests (trace w)
  ∧ network (prepared options svc w) = network w
  ∧ clock (prepared options svc w) = clock w.
Proof.
  unfold prepared.
  destruct (negb (Service.state svc =? "active")%string);
    autorewrite with world; rewrite !requests_app; simpl;
    rewrite ?app_nil_r; auto.
Qed.

Lemma requests_fetched (name : string) (w : World) (ex : Exchange)
    (rest : list Exchange) :
  requests (trace (fetched self name w ex rest))
  = requests (trace w) ++ [services_query self name].
Proof.
  unfold fetched. autorewrite with world. rewrite !requests_app. simpl.
  rewrite !app_nil_r. reflexivity.
Qed.

(** From the post of the upgrade on: the upgrade is posted once, and
    [finishupgrade] at most once after it. *)
Lemma submit_run (options : Options.t) (name : string) (svc : Service.t)
    (w : World) (out : Outcome Service.t) (w' : World) :
  submit self options name svc w = (out, w') →
  ∃ new,
    trace w' = trace w ++ new
    ∧ match Service.actions svc !! "upgrade" with
      | None => new = [] ∧ ∃ detail, out = Rejected (TypeError detail)
      | Some url =>
          ∃ later,
            new = EvRequest (clock w)
                    (requestOptions_for self url POST
                       (ParamsUpgrade (inServiceStrategy_for options svc)))
                  :: later
            ∧ (posts later = []
               ∨ ∃ url', posts later
                         = [requestOptions_for self url' POST ParamsEmpty])
      end
    ∧ match out with
      | Fulfilled final => Service.state final = "active"
      | Rejected r => wait_failure r
      | Pending => network w' = []
      end.
Proof.
  unfold submit, post. intros Hrun.
  destruct (Service.actions svc !! "upgrade") as [url |].
  2:{ injection Hrun as <- <-. exists []. rewrite app_nil_r.
      split; [reflexivity |]. split; [split; eauto |].
      do 4 right. eexists; reflexivity. }
  destruct (_apiRequest self (Some url) POST
              (ParamsUpgrade (inServiceStrategy_for options svc)) w)
    as [[result | r |] w2] eqn:Hpost;
    pose proof (_apiRequest_inv _ _ _ _ _ _ _ Hpost)
      as [[logs [Htr Hlogs]] Hout].
  - rewrite (then_fulfilled _ _ _ _ _ Hpost) in Hrun.
    assert (Hfail : ∀ detail,
               (out, w') = (Rejected (TypeError detail), w2) →
               ∃ new,
                 trace w' = trace w ++ new
                 ∧ (∃ later,
                      new = EvRequest (clock w)
                              (requestOptions_for self url POST
                                 (ParamsUpgrade
                                    (inServiceStrategy_for options svc)))
                            :: later
                      ∧ (posts later = []
                         ∨ ∃ url', posts later
                             = [requestOptions_for self url' POST
                                  ParamsEmpty]))
                 ∧ match out with
                   | Fulfilled final => Service.state final = "active"
                   | Rejected r => wait_failure r
                   | Pending => network w' = []
                   end).
    { intros detail [= -> ->]. eexists. split; [exact Htr |].
      split; [exists logs; split;
              [reflexivity | left; apply requests_nil_posts, Hlogs] |].
      do 4 right. eexists; reflexivity. }
    assert (Hgo : ∀ state,
               (LOG [LogStr "Upgrading service..."; state] ;;
                waitForUpgrade self name None) w2 = (out, w') →
               ∃ new,
                 trace w' = trace w ++ new
                 ∧ (∃ later,
                      new = EvRequest (clock w)
                              (requestOptions_for self url POST
                                 (ParamsUpgrade
                                    (inServiceStrategy_for options svc)))
                            :: later
                      ∧ (posts later = []
                         ∨ ∃ url', posts later
                             = [requestOptions_for self url' POST
                                  ParamsEmpty]))
                 ∧ match out with
                   | Fulfilled final => Service.state final = "active"
                   | Rejected r => wait_failure r
                   | Pending => network w' = []
                   end).
    { intros state. rewrite LOG_then. intros Hwait.
      apply (waitForUpgrade_run _ _ (S (length (network
               (logged Stdout [LogStr "Upgrading service..."; state] w2)))))
        in Hwait; [| lia].
      destruct Hwait as (new & Hnew & Hposts & _ & Hend).
      autorewrite with world in Hnew.
      eexists. split.
      { rewrite Hnew, Htr, <- !app_assoc. simpl. reflexivity. }
      split; [| exact Hend].
      eexists. split; [reflexivity |].
      rewrite !posts_app, (requests_nil_posts _ Hlogs). exact Hposts. }
    destruct result as [[| text | data | rsvc] |]; simpl in Hrun;
      first [ eapply Hfail; symmetry; exact Hrun | eapply Hgo; exact Hrun ].
  - destruct Hout.
  - rewrite (then_pending _ _ _ _ Hpost) in Hrun. injection Hrun as <- <-.
    eexists. split; [exact Htr |].
    split; [| apply Hout].
    exists logs. split; [reflexivity |].
    left. apply requests_nil_posts, Hlogs.
Qed.

Lemma wait_failure_not_precondition (r : Reason) (state : string) :
  wait_failure r → r ≠ PreconditionError state.
Proof.
  unfold wait_failure, PreconditionError.
  intros [-> | [-> | [-> | [[s ->] | [d ->]]]]]; simpl; discriminate.
Qed.

(** Once the service is fetched and may be upgraded, the upgrade is posted
    to its [upgrade] action with the strategy built from the options. *)
Lemma inServiceUpgrade_submits (options : Options.t) (name repo : string)
    (w : World) (ex : Exchange) (rest : list Exchange) (svc : Service.t)
    (more : list Service.t) (url : string) (out : Outcome Service.t)
    (w' : World) :
  Options.serviceName options = Some name → name ≠ "" →
  Options.imageRepo options = Some repo → repo ≠ "" →
  network w = ex :: rest →
  reply ex = ReplyBody (BCollection (svc :: more)) →
  Service.actions svc !! "upgrade" = Some url →
  Service.state svc = "active" ∨ url ≠ "" →
  inServiceUpgrade self (Some options) w = (out, w') →
  ∃ t later,
    trace w'
    = trace (prepared options svc (fetched self name w ex rest))
      ++ EvRequest t
           (requestOptions_for self url POST
              (ParamsUpgrade (inServiceStrategy_for options svc)))
         :: later
    ∧ (posts later = []
       ∨ ∃ url', posts later = [requestOptions_for self url' POST ParamsEmpty])
    ∧ match out with
      | Fulfilled final => Service.state final = "active"
      | Rejected r => wait_failure r
      | Pending => network w' = []
      end.
Proof.
  intros Hname Hname' Hrepo Hrepo' Hn Hr Hurl Hmay Hrun.
  erewrite inServiceUpgrade_fetched in Hrun by eassumption.
  assert (Hcond : negb (Service.state svc =? "active")%string
                  && negb (truthy (Service.actions svc !! "upgrade"))
                  = false).
  { apply andb_false_iff. destruct Hmay as [Hactive | Hurl'].
    - left. rewrite Hactive. reflexivity.
    - right. rewrite Hurl, truthy_Some by assumption. reflexivity. }
  rewrite Hcond in Hrun.
  apply submit_run in Hrun as (new & Hnew & Hposted & Hend).
  rewrite Hurl in Hposted. destruct Hposted as (later & -> & Hposts).
  eauto 6.
Qed.

Lemma inServiceUpgrade_submits_requests (options : Options.t)
    (name repo : string) (w : World) (ex : Exchange)
    (rest : list Exchange) (svc : Service.t) (more : list Service.t)
    (url : string) (out : Outcome Service.t) (w' : World) :
  Options.serviceName options = Some name → name ≠ "" →
  Options.imageRepo options = Some repo → repo ≠ "" →
  network w = ex :: rest →
  reply ex = ReplyBody (BCollection (svc :: more)) →
  Service.actions svc !! "upgrade" = Some url →
  Service.state svc = "active" ∨ url ≠ "" →
  inServiceUpgrade self (Some options) w = (out, w') →
  ∃ later,
    requests (trace w')
    = requests (trace w)
      ++ services_query self name
      :: requestOptions_for self url POST
           (ParamsUpgrade (inServiceStrategy_for options svc))
      :: later.
Proof.
  intros Hname Hname' Hrepo Hrepo' Hn Hr Hurl Hmay Hrun.
  destruct (inServiceUpgrade_submits _ _ _ _ _ _ _ _ _ _ _
              Hname Hname' Hrepo Hrepo' Hn Hr Hurl Hmay Hrun)
    as (t & later & Htr & _ & _).
  exists (requests later).
  rewrite Htr, requests_app.
  destruct (requests_prepared options svc (fetched self name w ex rest))
    as [-> _].
  rewrite requests_fetched, <- app_assoc. reflexivity.
Qed.


Lemma truthy_inv (v : option string) :
  truthy v = true → ∃ s, v = Some s ∧ s ≠ "".
Proof.
  destruct v as [s |]; [| discriminate]. intros H. exists s.
  split; [reflexivity |].
  apply String.eqb_neq, negb_true_iff. exact H.
Qed.

(** Whatever the options and the endpoint, a session posts the upgrade at
    most once and [finishupgrade] at most once after it. *)
Lemma inServiceUpgrade_run (options : option Options.t) (w : World)
    (out : Outcome Service.t) (w' : World) :
  inServiceUpgrade self options w = (out, w') →
  ∃ new,
    trace w' = trace w ++ new
    ∧ (posts new = []
       ∨ ∃ url strategy finish,
           posts new = requestOptions_for self url POST
                         (ParamsUpgrade strategy) :: finish
           ∧ (finish = []
              ∨ ∃ url', finish
                        = [requestOptions_for self url' POST ParamsEmpty])).
Proof.
  intros Hrun.
  assert (Hinvalid : ∀ msg,
             (out, w') = (Rejected (Message msg),
                          logged Stderr [LogStr msg] w) →
             ∃ new,
               trace w' = trace w ++ new
               ∧ (posts new = []
                  ∨ ∃ url strategy finish,
                      posts new = requestOptions_for self url POST
                                    (ParamsUpgrade strategy) :: finish
                      ∧ (finish = []
                         ∨ ∃ url', finish
                             = [requestOptions_for self url' POST
                                  ParamsEmpty]))).
  { intros msg [= -> ->]. eexists [_]. rewrite trace_logged.
    split; [reflexivity | left; reflexivity]. }
  destruct options as [o |]; [| apply (Hinvalid _ (eq_sym Hrun))].
  destruct (truthy (Options.serviceName o)) eqn:Hname.
  2:{ unfold inServiceUpgrade in Hrun. cbn [default from_option id] in Hrun.
      rewrite Hname in Hrun. apply (Hinvalid _ (eq_sym Hrun)). }
  destruct (truthy (Options.imageRepo o)) eqn:Hrepo.
  2:{ unfold inServiceUpgrade in Hrun. cbn [default from_option id] in Hrun.
      rewrite Hname, Hrepo in Hrun. apply (Hinvalid _ (eq_sym Hrun)). }
  apply truthy_inv in Hname as (name & Hname & Hname').
  apply truthy_inv in Hrepo as (repo & Hrepo & Hrepo').
  erewrite inServiceUpgrade_started in Hrun by eassumption.
  destruct (getService self name
              (logged Stdout [LogStr "Starting deploy for"; LogStr name] w))
    as [[svc | r |] w1] eqn:Hget;
    pose proof (getService_inv _ _ _ _ _ Hget) as [[logs [Htr Hlogs]] _];
    autorewrite with world in Htr.
  - rewrite (then_fulfilled _ _ _ _ _ Hget) in Hrun. cbv zeta in Hrun.
    destruct (negb (Service.state svc =? "active")%string
              && negb (truthy (Service.actions svc !! "upgrade"))) eqn:Hc.
    + rewrite ERROR_run in Hrun. injection Hrun as <- <-.
      eexists ([_] ++ (_ :: logs) ++ [_; _]).
      split.
      { autorewrite with world. rewrite Htr, <- !app_assoc. reflexivity. }
      left. rewrite !posts_app, posts_get by assumption. reflexivity.
    + apply submit_run in Hrun as (new & Hnew & Hposted & _).
      destruct (requests_prepared o svc
                  (logged Stdout [LogStr "Got service"; LogStr name] w1))
        as (Hreqs & _ & _).
      assert (Hbefore : ∃ before,
                 trace (prepared o svc
                          (logged Stdout
                             [LogStr "Got service"; LogStr name] w1))
                 = trace w ++ before ∧ posts before = []).
      { unfold prepared.
        destruct (negb (Service.state svc =? "active")%string);
          autorewrite with world; rewrite Htr.
        - eexists ([_] ++ (_ :: logs) ++ [_; _; _; _]).
          rewrite <- !app_assoc. split; [reflexivity |].
          rewrite !posts_app, posts_get by assumption. reflexivity.
        - eexists ([_] ++ (_ :: logs) ++ [_; _; _]).
          rewrite <- !app_assoc. split; [reflexivity |].
          rewrite !posts_app, posts_get by assumption. reflexivity. }
      destruct Hbefore as (before & Hbefore & Hnoposts).
      exists (before ++ new).
      split; [rewrite Hnew, Hbefore, <- app_assoc; reflexivity |].
      rewrite posts_app, Hnoposts. simpl.
      destruct (Service.actions svc !! "upgrade") as [url |].
      * destruct Hposted as (later & -> & Hlater). right.
        exists url, (inServiceStrategy_for o svc), (posts later).
        split; [apply posts_post' | exact Hlater].
      * destruct Hposted as [-> _]. left. reflexivity.
  - rewrite (then_rejected _ _ _ _ _ Hget) in Hrun. injection Hrun as <- <-.
    eexists ([_] ++ (_ :: logs)).
    split; [rewrite Htr, <- !app_assoc; reflexivity |].
    left. rewrite !posts_app, posts_get by assumption. reflexivity.
  - rewrite (then_pending _ _ _ _ Hget) in Hrun. injection Hrun as <- <-.
    eexists ([_] ++ (_ :: logs)).
    split; [rewrite Htr, <- !app_assoc; reflexivity |].
    left. rewrite !posts_app, posts_get by assumption. reflexivity.
Qed.

End Session.

(** * The claims *)

Section Claims.
Variable self : Config.t.

(** C8.  [getService] issues one directory query.  When the query returns
    zero matches, an empty collection over a working transport included,
    it fails with NotFoundError; when it returns one or more matches it
    resolves with the first one and looks no further. *)
Theorem getService_first_match (name : string) (w : World) (ex : Exchange)
    (rest : list Exchange) :
  network w = ex :: rest →
  ∃ w',
    getService self name w
    = (match matches (reply ex) with
       | [] => Rejected NotFoundError
       | svc :: _ => Fulfilled svc
       end, w')
    ∧ network w' = rest
    ∧ requests (trace w') = requests (trace w) ++ [services_query self name].
Proof.
  intros Hn.
  destruct (getService self name w) as [o w'] eqn:Hget.
  pose proof (getService_inv _ _ _ _ _ Hget) as [[logs [Htr Hlogs]] Hout].
  exists w'.
  assert (Hreqs : requests (trace w')
                  = requests (trace w) ++ [services_query self name]).
  { rewrite Htr, requests_app. simpl. rewrite Hlogs. reflexivity. }
  destruct o as [svc | r |].
  - destruct Hout as (ex' & more & Hn' & Hr & _).
    rewrite Hn in Hn'. injection Hn' as <- <-.
    rewrite Hr. simpl. auto.
  - destruct Hout as [-> [ex' Hn']].
    rewrite Hn in Hn'. injection Hn' as <- <-.
    destruct (matches (reply ex)) as [| svc more] eqn:Hm; [auto |].
    exfalso. unfold matches in Hm.
    destruct (reply ex) as [[| text | data | rsvc] | err] eqn:Hr;
      try discriminate Hm.
    subst data.
    erewrite getService_found in Hget by eassumption. discriminate Hget.
  - destruct Hout as [Hnil _]. rewrite Hn in Hnil. discriminate Hnil.
Qed.

(** C4.  A request without [serviceName] or without [imageRepo] (missing,
    or empty, which the code treats alike) makes [inServiceUpgrade] fail
    with ValidationError; no network call was made: no request is on the
    trace and no answer of the endpoint was consumed. *)
Theorem inServiceUpgrade_validates (options : option Options.t)
    (w : World) :
  match options with
  | Some o => truthy (Options.serviceName o) = false
              ∨ truthy (Options.imageRepo o) = false
  | None => True
  end →
  ∃ r w',
    inServiceUpgrade self options w = (Rejected r, w')
    ∧ ValidationError r
    ∧ requests (trace w') = requests (trace w)
    ∧ network w' = network w.
Proof.
  intros Hmissing. unfold inServiceUpgrade, ValidationError.
  destruct options as [o |]; cbn [default from_option id].
  - destruct (truthy (Options.serviceName o)) eqn:Hname; cbn [negb].
    + destruct Hmissing as [Hm | Hm]; [discriminate Hm |].
      rewrite Hm. cbn [negb]. rewrite ERROR_run.
      do 2 eexists. split; [reflexivity |]. split; [right; reflexivity |].
      autorewrite with world. rewrite requests_app. simpl.
      rewrite app_nil_r. auto.
    + rewrite ERROR_run.
      do 2 eexists. split; [reflexivity |]. split; [left; reflexivity |].
      autorewrite with world. rewrite requests_app. simpl.
      rewrite app_nil_r. auto.
  - cbn [truthy Options.serviceName negb]. rewrite ERROR_run.
    do 2 eexists. split; [reflexivity |]. split; [left; reflexivity |].
    autorewrite with world. rewrite requests_app. simpl.
    rewrite app_nil_r. auto.
Qed.

(** C5.  The fetched service is not "active".  If its actions have no
    [upgrade] entry, the session fails with PreconditionError and nothing
    was submitted: the directory query is the only request.  If an
    [upgrade] action is there, the session goes on: it logs a warning,
    posts the upgrade to that action, and whatever happens afterwards is
    not a PreconditionError. *)
Theorem inServiceUpgrade_precondition (options : Options.t)
    (name repo : string) (w : World) (ex : Exchange)
    (rest : list Exchange) (svc : Service.t) (more : list Service.t) :
  Options.serviceName options = Some name → name ≠ "" →
  Options.imageRepo options = Some repo → repo ≠ "" →
  network w = ex :: rest →
  reply ex = ReplyBody (BCollection (svc :: more)) →
  Service.state svc ≠ "active" →
  (Service.actions svc !! "upgrade" = None →
   ∃ w',
     inServiceUpgrade self (Some options) w
     = (Rejected (PreconditionError (Service.state svc)), w')
     ∧ network w' = rest
     ∧ requests (trace w')
       = requests (trace w) ++ [services_query self name])
  ∧ (∀ url out w',
       Service.actions svc !! "upgrade" = Some url → url ≠ "" →
       inServiceUpgrade self (Some options) w = (out, w') →
       (∃ later,
          requests (trace w')
          = requests (trace w)
            ++ services_query self name
            :: requestOptions_for self url POST
                 (ParamsUpgrade (inServiceStrategy_for options svc))
            :: later)
       ∧ (∃ t,
            In (EvConsole Stdout
                  [LogTime t;
                   LogStr ("Warning: service is not in active status. ("
                           +:+ Service.state svc
                           +:+ "). It seems we can proceed anyway...")])
               (trace w'))
       ∧ ∀ state, out ≠ Rejected (PreconditionError state)).
Proof.
  intros Hname Hname' Hrepo Hrepo' Hn Hr Hstate.
  assert (Hinactive : negb (Service.state svc =? "active")%string = true).
  { apply negb_true_iff, String.eqb_neq. exact Hstate. }
  split.
  - intros Hnone.
    erewrite inServiceUpgrade_fetched by eassumption.
    rewrite Hinactive, Hnone. cbn [truthy negb andb].
    rewrite ERROR_run. eexists. split; [reflexivity |].
    autorewrite with world. unfold fetched. autorewrite with world.
    split; [reflexivity |].
    rewrite !requests_app. simpl. rewrite !app_nil_r. reflexivity.
  - intros url out w' Hurl Hurl' Hrun.
    split.
    { eapply inServiceUpgrade_submits_requests; eauto. }
    destruct (inServiceUpgrade_submits _ _ _ _ _ _ _ _ _ _ _ _
                Hname Hname' Hrepo Hrepo' Hn Hr Hurl (or_intror Hurl') Hrun)
      as (t & later & Htr & _ & Hend).
    split.
    + eexists. rewrite Htr. apply in_or_app. left.
      unfold prepared. rewrite Hinactive. autorewrite with world.
      apply in_or_app. left. apply in_or_app. left.
      apply in_or_app. right. left. reflexivity.
    + intros state Hout. subst out.
      exact (wait_failure_not_precondition _ _ Hend eq_refl).
Qed.

(** C6, as amended.  The image uuid of the launch config that is posted
    is ["docker:" + imageRepo] when [imageTag] is absent or the empty
    string, and ["docker:" + imageRepo + ":" + imageTag] when [imageTag]
    is a non-empty string. *)
Theorem inServiceUpgrade_imageUuid (options : Options.t)
    (name repo : string) (w : World) (ex : Exchange)
    (rest : list Exchange) (svc : Service.t) (more : list Service.t)
    (url : string) (out : Outcome Service.t) (w' : World) :
  Options.serviceName options = Some name → name ≠ "" →
  Options.imageRepo options = Some repo → repo ≠ "" →
  network w = ex :: rest →
  reply ex = ReplyBody (BCollection (svc :: more)) →
  Service.actions svc !! "upgrade" = Some url →
  Service.state svc = "active" ∨ url ≠ "" →
  inServiceUpgrade self (Some options) w = (out, w') →
  ∃ strategy later,
    requests (trace w')
    = requests (trace w)
      ++ services_query self name
      :: requestOptions_for self url POST (ParamsUpgrade strategy)
      :: later
    ∧ (Options.imageTag options = None
       ∨ Options.imageTag options = Some "" →
       LaunchConfig.imageUuid (InServiceStrategy.launchConfig strategy)
       = "docker:" +:+ repo)
    ∧ (∀ tag,
         Options.imageTag options = Some tag → tag ≠ "" →
         LaunchConfig.imageUuid (InServiceStrategy.launchConfig strategy)
         = "docker:" +:+ repo +:+ ":" +:+ tag).
Proof.
  intros Hname Hname' Hrepo Hrepo' Hn Hr Hurl Hmay Hrun.
  destruct (inServiceUpgrade_submits_requests _ _ _ _ _ _ _ _ _ _ _ _
              Hname Hname' Hrepo Hrepo' Hn Hr Hurl Hmay Hrun)
    as [later Hreqs].
  exists (inServiceStrategy_for options svc), later.
  split; [exact Hreqs |].
  cbn [inServiceStrategy_for InServiceStrategy.launchConfig
       launchConfig_for LaunchConfig.imageUuid].
  rewrite Hrepo. cbn [default from_option id]. unfold imageUuid_for.
  split.
  - intros [-> | ->]; reflexivity.
  - intros tag -> Htag. rewrite truthy_Some by assumption. reflexivity.
Qed.

(** C7.  With [E] the environment of the fetched service and [R] the
    environment of the request, the environment of the launch config that
    is posted has every key of [E] and every key of [R]; a key of [R]
    carries the request's value, any other key keeps the value it has in
    [E]. *)
Theorem inServiceUpgrade_merges_environment (options : Options.t)
    (name repo : string) (w : World) (ex : Exchange)
    (rest : list Exchange) (svc : Service.t) (more : list Service.t)
    (url : string) (out : Outcome Service.t) (w' : World) :
  Options.serviceName options = Some name → name ≠ "" →
  Options.imageRepo options = Some repo → repo ≠ "" →
  network w = ex :: rest →
  reply ex = ReplyBody (BCollection (svc :: more)) →
  Service.actions svc !! "upgrade" = Some url →
  Service.state svc = "active" ∨ url ≠ "" →
  inServiceUpgrade self (Some options) w = (out, w') →
  let E := default ∅ (LaunchConfig.environment (Service.launchConfig svc)) in
  let R := default ∅ (Options.environment options) in
  ∃ strategy later merged,
    requests (trace w')
    = requests (trace w)
      ++ services_query self name
      :: requestOptions_for self url POST (ParamsUpgrade strategy)
      :: later
    ∧ LaunchConfig.environment (InServiceStrategy.launchConfig strategy)
      = Some merged
    ∧ dom merged = dom E ∪ dom R
    ∧ (∀ key value, R !! key = Some value → merged !! key = Some value)
    ∧ (∀ key, R !! key = None → merged !! key = E !! key).
Proof.
  intros Hname Hname' Hrepo Hrepo' Hn Hr Hurl Hmay Hrun E R.
  destruct (inServiceUpgrade_submits_requests _ _ _ _ _ _ _ _ _ _ _ _
              Hname Hname' Hrepo Hrepo' Hn Hr Hurl Hmay Hrun)
    as [later Hreqs].
  exists (inServiceStrategy_for options svc), later, (Object_assign E R).
  split; [exact Hreqs |]. split; [reflexivity |].
  unfold Object_assign. split; [| split].
  - rewrite dom_union_L. apply (comm_L (∪)).
  - intros key value Hkey. apply lookup_union_Some_l. exact Hkey.
  - intros key Hkey. apply lookup_union_r. exact Hkey.
Qed.

(** C10.  A rollout option the request supplies is what is posted in the
    strategy, also when it is falsy: [batchSize = 0], [intervalMillis = 0]
    and [startFirst = false] are kept.  The defaults 1, 30000 and [true]
    are used only for an option that is undefined. *)
Theorem inServiceUpgrade_keeps_supplied_options (options : Options.t)
    (name repo : string) (w : World) (ex : Exchange)
    (rest : list Exchange) (svc : Service.t) (more : list Service.t)
    (url : string) (out : Outcome Service.t) (w' : World) :
  Options.serviceName options = Some name → name ≠ "" →
  Options.imageRepo options = Some repo → repo ≠ "" →
  network w = ex :: rest →
  reply ex = ReplyBody (BCollection (svc :: more)) →
  Service.actions svc !! "upgrade" = Some url →
  Service.state svc = "active" ∨ url ≠ "" →
  inServiceUpgrade self (Some options) w = (out, w') →
  ∃ strategy later,
    requests (trace w')
    = requests (trace w)
      ++ services_query self name
      :: requestOptions_for self url POST (ParamsUpgrade strategy)
      :: later
    ∧ InServiceStrategy.batchSize strategy
      = match Options.batchSize options with
        | Some supplied => supplied
        | None => 1
        end
    ∧ InServiceStrategy.intervalMillis strategy
      = match Options.intervalMillis options with
        | Some supplied => supplied
        | None => 30000
        end
    ∧ InServiceStrategy.startFirst strategy
      = match Options.startFirst options with
        | Some supplied => supplied
        | None => true
        end.
Proof.
  intros Hname Hname' Hrepo Hrepo' Hn Hr Hurl Hmay Hrun.
  destruct (inServiceUpgrade_submits_requests _ _ _ _ _ _ _ _ _ _ _ _
              Hname Hname' Hrepo Hrepo' Hn Hr Hurl Hmay Hrun)
    as [later Hreqs].
  exists (inServiceStrategy_for options svc), later.
  split; [exact Hreqs |].
  cbn [inServiceStrategy_for InServiceStrategy.batchSize
       InServiceStrategy.intervalMillis InServiceStrategy.startFirst].
  destruct (Options.batchSize options), (Options.intervalMillis options),
    (Options.startFirst options); auto.
Qed.


(** One turn of the upgraded-wait whose deadline has not passed and whose
    lookup found [svc]. *)
Lemma waitForUpgrade_turn (serviceName : string) (startTime : option Z)
    (w : World) (ex : Exchange) (rest : list Exchange) (svc : Service.t)
    (more : list Service.t) :
  network w = ex :: rest →
  reply ex = ReplyBody (BCollection (svc :: more)) →
  clock w ≤ startTime_or startTime (clock w)
            + Config.serviceUpgradedTimeout self →
  waitForUpgrade self serviceName startTime w
  = (if (Service.state svc =? "upgrading")%string
     then
       LOG [LogStr "Service is upgrading, waiting..."] ;;
       DELAY (Config.statusCheckFrequency self) ;;
       waitForUpgrade self serviceName
                      (Some (startTime_or startTime (clock w)))
     else if (Service.state svc =? "upgraded")%string
     then
       LOG [LogStr "Service is upgraded. Finishing..."] ;;
       result <- post self (Service.actions svc !! "finishupgrade")
                      ParamsEmpty ;;
       LOG [LogStr "Finish upgrade sent."] ;;
       waitForActive self serviceName None
     else
       LOG [LogStr "unexpected status"; LogStr (Service.state svc);
            LogStr "Aborting."] ;;
       ERROR ("unexpected status (" +:+ Service.state svc
              +:+ ") when waiting for upgrade to complete.") [])
      (answered w ex rest (services_query self serviceName)).
Proof.
  intros Hn Hr Hok.
  rewrite waitForUpgrade_unfold, waitForUpgrade_body_check by assumption.
  erewrite then_fulfilled by (eapply getService_found; eassumption).
  reflexivity.
Qed.

Lemma waitForActive_turn (serviceName : string) (startTime : option Z)
    (w : World) (ex : Exchange) (rest : list Exchange) (svc : Service.t)
    (more : list Service.t) :
  network w = ex :: rest →
  reply ex = ReplyBody (BCollection (svc :: more)) →
  clock w ≤ startTime_or startTime (clock w)
            + Config.serviceActiveTimeout self →
  waitForActive self serviceName startTime w
  = (if negb (Service.state svc =? "active")%string
     then
       LOG [LogStr ("Waiting for active status. Current("
                    +:+ Service.state svc +:+ ")")] ;;
       DELAY (Config.statusCheckFrequency self) ;;
       waitForActive self serviceName
                     (Some (startTime_or startTime (clock w)))
     else
       LOG [LogStr "Upgrade succeded!"] ;;
       resolve svc)
      (answered w ex rest (services_query self serviceName)).
Proof.
  intros Hn Hr Hok.
  rewrite waitForActive_unfold, waitForActive_body_check by assumption.
  erewrite then_fulfilled by (eapply getService_found; eassumption).
  reflexivity.
Qed.

(** The finalize call: whatever the endpoint answers, the active-wait
    comes next. *)
Lemma finalize_then_active (serviceName url : string) (w : World)
    (ex : Exchange) (rest : list Exchange) :
  network w = ex :: rest →
  ∃ w',
    (result <- post self (Some url) ParamsEmpty ;;
     LOG [LogStr "Finish upgrade sent."] ;;
     waitForActive self serviceName None) w
    = waitForActive self serviceName None w'
    ∧ network w' = rest
    ∧ clock w' = clock w + Z.max 0 (latency ex)
    ∧ requests (trace w')
      = requests (trace w) ++ [requestOptions_for self url POST ParamsEmpty].
Proof.
  intros Hn. unfold post. destruct (reply ex) as [b | err] eqn:Hr.
  - erewrite then_fulfilled by (eapply _apiRequest_body; eassumption).
    rewrite LOG_then. eexists. split; [reflexivity |].
    autorewrite with world. rewrite !requests_app. simpl.
    rewrite app_nil_r. auto.
  - erewrite then_fulfilled by (eapply _apiRequest_error; eassumption).
    rewrite LOG_then. eexists. split; [reflexivity |].
    autorewrite with world. unfold emit. simpl.
    rewrite !requests_app. simpl. rewrite !app_nil_r. auto.
Qed.

(** C1.  A turn of the upgraded-wait classifies the descriptor it fetched.
    "upgrading": nothing is posted and the wait goes on, after the delay,
    with the same start time.  "upgraded", the descriptor offering
    [finishupgrade]: that action is posted once, and it is the only post of
    the rest of the session; once the call is answered the active-wait
    takes over.  "upgraded", the descriptor offering no [finishupgrade]:
    [post(undefined, ...)] throws, the session fails at once with a
    TypeError; the lookup is its last request, so nothing was posted, no
    further poll is made and the active-wait is not entered.  Any other
    state: the session fails at once with UnexpectedStateError carrying
    that state; the lookup is its last request, so nothing was posted and
    no further poll is made. *)
Theorem waitForUpgrade_classifies (serviceName : string)
    (startTime : option Z) (w : World) (ex : Exchange)
    (rest : list Exchange) (svc : Service.t) (more : list Service.t) :
  network w = ex :: rest →
  reply ex = ReplyBody (BCollection (svc :: more)) →
  clock w ≤ startTime_or startTime (clock w)
            + Config.serviceUpgradedTimeout self →
  let seen := answered w ex rest (services_query self serviceName) in
  (Service.state svc = "upgrading" →
   waitForUpgrade self serviceName startTime w
   = waitForUpgrade self serviceName
       (Some (startTime_or startTime (clock w)))
       (delayed (Config.statusCheckFrequency self)
          (logged Stdout [LogStr "Service is upgrading, waiting..."]
                  seen)))
  ∧ (Service.state svc = "upgraded" →
     ∀ url,
       Service.actions svc !! "finishupgrade" = Some url →
       (∀ out w',
          waitForUpgrade self serviceName startTime w = (out, w') →
          posts (trace w')
          = posts (trace w)
            ++ [requestOptions_for self url POST ParamsEmpty])
       ∧ (∀ ex2 rest2,
            rest = ex2 :: rest2 →
            ∃ w3,
              waitForUpgrade self serviceName startTime w
              = waitForActive self serviceName None w3
              ∧ network w3 = rest2
              ∧ requests (trace w3)
                = requests (trace w)
                  ++ [services_query self serviceName;
                      requestOptions_for self url POST ParamsEmpty]))
  ∧ (Service.state svc = "upgraded" →
     Service.actions svc !! "finishupgrade" = None →
     ∃ detail w',
       waitForUpgrade self serviceName startTime w
       = (Rejected (TypeError detail), w')
       ∧ network w' = rest
       ∧ requests (trace w')
         = requests (trace w) ++ [services_query self serviceName])
  ∧ (Service.state svc ≠ "upgrading" →
     Service.state svc ≠ "upgraded" →
     ∃ w',
       waitForUpgrade self serviceName startTime w
       = (Rejected (UnexpectedStateError (Service.state svc)), w')
       ∧ network w' = rest
       ∧ requests (trace w')
         = requests (trace w) ++ [services_query self serviceName]).
Proof.
  intros Hn Hr Hok seen.
  rewrite (waitForUpgrade_turn _ _ _ _ _ _ _ Hn Hr Hok).
  fold seen.
  split; [| split; [| split]].
  - intros ->. reflexivity.
  - intros -> url Hurl. cbn [String.eqb Ascii.eqb Bool.eqb andb].
    rewrite LOG_then, Hurl. split.
    + intros out w' Hrun. unfold post in Hrun.
      destruct (_apiRequest self (Some url) POST ParamsEmpty
                  (logged Stdout
                     [LogStr "Service is upgraded. Finishing..."] seen))
        as [[result | r |] w2] eqn:Hpost;
        pose proof (_apiRequest_inv _ _ _ _ _ _ _ Hpost)
          as [[logs [Htr Hlogs]] Hout].
      * rewrite (then_fulfilled _ _ _ _ _ Hpost), LOG_then in Hrun.
        apply (waitForActive_run _ _ (S (length (network
                 (logged Stdout [LogStr "Finish upgrade sent."] w2)))))
          in Hrun; [| lia].
        destruct Hrun as (new & Hnew & Hposts & _).
        rewrite Hnew. autorewrite with world. rewrite Htr.
        autorewrite with world. subst seen. autorewrite with world.
        rewrite !posts_app, Hposts, posts_post by assumption.
        rewrite posts_get by reflexivity. simpl.
        rewrite !app_nil_r. reflexivity.
      * destruct Hout.
      * rewrite (then_pending _ _ _ _ Hpost) in Hrun.
        injection Hrun as <- <-. rewrite Htr.
        autorewrite with world. subst seen. autorewrite with world.
        rewrite !posts_app, posts_post by assumption.
        rewrite posts_get by reflexivity. simpl.
        rewrite !app_nil_r. reflexivity.
    + intros ex2 rest2 ->.
      destruct (finalize_then_active serviceName url
                  (logged Stdout
                     [LogStr "Service is upgraded. Finishing..."] seen)
                  ex2 rest2 eq_refl) as (w3 & Heq & Hnet & _ & Hreqs).
      exists w3. split; [exact Heq |]. split; [exact Hnet |].
      rewrite Hreqs. autorewrite with world. subst seen.
      autorewrite with world. rewrite !requests_app. simpl.
      rewrite app_nil_r, <- app_assoc. reflexivity.
  - intros -> Hnone. cbn [String.eqb Ascii.eqb Bool.eqb andb].
    rewrite LOG_then, Hnone. unfold post, _apiRequest.
    erewrite then_rejected by reflexivity.
    eexists _, _. split; [reflexivity |].
    autorewrite with world. subst seen. autorewrite with world.
    split; [reflexivity |].
    rewrite !requests_app. simpl. rewrite !app_nil_r. reflexivity.
  - intros Hnot1 Hnot2.
    apply String.eqb_neq in Hnot1, Hnot2. rewrite Hnot1, Hnot2.
    rewrite LOG_then, ERROR_run. eexists. split; [reflexivity |].
    autorewrite with world. subst seen. autorewrite with world.
    split; [reflexivity |].
    rewrite !requests_app. simpl. rewrite !app_nil_r. reflexivity.
Qed.






(** C9, as amended.  A turn of the active-wait ends the phase with the
    fetched descriptor when its state is "active", and for any other state
    waits and polls again with the same start time.  The phase never fails
    with UnexpectedStateError: it fails with TimeoutError, or with the
    lookup's NotFoundError when a refetch finds no service. *)
Theorem waitForActive_classifies (serviceName : string)
    (startTime : option Z) (w : World) :
  (∀ ex rest svc more,
     network w = ex :: rest →
     reply ex = ReplyBody (BCollection (svc :: more)) →
     clock w ≤ startTime_or startTime (clock w)
               + Config.serviceActiveTimeout self →
     let seen := answered w ex rest (services_query self serviceName) in
     (Service.state svc = "active" →
      waitForActive self serviceName startTime w
      = (Fulfilled svc,
         logged Stdout [LogStr "Upgrade succeded!"] seen))
     ∧ (Service.state svc ≠ "active" →
        waitForActive self serviceName startTime w
        = waitForActive self serviceName
            (Some (startTime_or startTime (clock w)))
            (delayed (Config.statusCheckFrequency self)
               (logged Stdout
                  [LogStr ("Waiting for active status. Current("
                           +:+ Service.state svc +:+ ")")]
                  seen))))
  ∧ (∀ out w',
       waitForActive self serviceName startTime w = (out, w') →
       match out with
       | Fulfilled svc => Service.state svc = "active"
       | Rejected r =>
           (r = TimeoutError_active ∨ r = NotFoundError)
           ∧ ∀ state, r ≠ UnexpectedStateError state
       | Pending => network w' = []
       end).
Proof.
  split.
  - intros ex rest svc more Hn Hr Hok seen.
    rewrite (waitForActive_turn _ _ _ _ _ _ _ Hn Hr Hok). fold seen.
    split.
    + intros Hactive. rewrite (proj2 (String.eqb_eq _ _) Hactive).
      reflexivity.
    + intros Hother. rewrite (proj2 (String.eqb_neq _ _) Hother).
      reflexivity.
  - intros out w' Hrun.
    apply (waitForActive_run _ _ (S (length (network w)))) in Hrun; [| lia].
    destruct Hrun as (new & _ & _ & _ & Hend).
    destruct out as [svc | r |]; try exact Hend.
    split; [exact Hend |].
    intros state. unfold UnexpectedStateError.
    destruct Hend as [-> | ->]; simpl; discriminate.
Qed.

Lemma getService_refused (name : string) (w : World) (ex : Exchange)
    (rest : list Exchange) (err : string) :
  network w = ex :: rest →
  reply ex = ReplyError err →
  ∃ w',
    getService self name w = (Rejected NotFoundError, w')
    ∧ network w' = rest
    ∧ requests (trace w') = requests (trace w) ++ [services_query self name].
Proof.
  intros Hn Hr. unfold getService, get.
  erewrite then_fulfilled by (eapply _apiRequest_error; eassumption).
  cbv iota. rewrite ERROR_run. eexists. split; [reflexivity |].
  autorewrite with world. unfold emit. simpl.
  rewrite !requests_app. simpl. rewrite !app_nil_r. auto.
Qed.

(** C2, as amended.  When the client cannot complete a call, [_apiRequest]
    logs the error and resolves with no body: the error of the transport is
    not passed on.  A directory query that cannot be completed, be it the
    first fetch or the refetch of a poll, is fatal: the session fails with
    the lookup's NotFoundError, and the failed query is its last request.
    No call is repeated: in any session the upgrade is posted at most once
    and [finishupgrade] at most once. *)
Theorem failed_call_is_logged_not_retried (w : World) (ex : Exchange)
    (rest : list Exchange) (err : string) :
  network w = ex :: rest →
  reply ex = ReplyError err →
  (∀ path method params,
     _apiRequest self (Some path) method params w
     = (Fulfilled None,
        emit (EvConsole Stdout
                [LogStr "ERROR on REQ:"; LogReason (RequestError err)])
             (answered w ex rest
                       (requestOptions_for self path method params))))
  ∧ (∀ options name repo,
       Options.serviceName options = Some name → name ≠ "" →
       Options.imageRepo options = Some repo → repo ≠ "" →
       ∃ w',
         inServiceUpgrade self (Some options) w
         = (Rejected NotFoundError, w')
         ∧ network w' = rest
         ∧ requests (trace w')
           = requests (trace w) ++ [services_query self name])
  ∧ (∀ serviceName startTime,
       clock w ≤ startTime_or startTime (clock w)
                 + Config.serviceUpgradedTimeout self →
       ∃ w',
         waitForUpgrade self serviceName startTime w
         = (Rejected NotFoundError, w')
         ∧ network w' = rest
         ∧ requests (trace w')
           = requests (trace w) ++ [services_query self serviceName])
  ∧ (∀ serviceName startTime,
       clock w ≤ startTime_or startTime (clock w)
                 + Config.serviceActiveTimeout self →
       ∃ w',
         waitForActive self serviceName startTime w
         = (Rejected NotFoundError, w')
         ∧ network w' = rest
         ∧ requests (trace w')
           = requests (trace w) ++ [services_query self serviceName])
  ∧ (∀ options w0 out w',
       inServiceUpgrade self options w0 = (out, w') →
       ∃ new,
         trace w' = trace w0 ++ new
         ∧ (posts new = []
            ∨ ∃ url strategy finish,
                posts new = requestOptions_for self url POST
                              (ParamsUpgrade strategy) :: finish
                ∧ (finish = []
                   ∨ ∃ url', finish
                       = [requestOptions_for self url' POST ParamsEmpty]))).
Proof.
  intros Hn Hr. split; [| split; [| split; [| split]]].
  - intros path method params. eapply _apiRequest_error; eassumption.
  - intros options name repo Hname Hname' Hrepo Hrepo'.
    erewrite inServiceUpgrade_started by eassumption.
    destruct (getService_refused name
                (logged Stdout [LogStr "Starting deploy for"; LogStr name] w)
                ex rest err Hn Hr) as (w' & Hget & Hnet & Hreqs).
    exists w'. rewrite (then_rejected _ _ _ _ _ Hget).
    split; [reflexivity |]. split; [exact Hnet |].
    rewrite Hreqs. autorewrite with world. rewrite requests_app. simpl.
    rewrite app_nil_r. reflexivity.
  - intros serviceName startTime Hok.
    destruct (getService_refused serviceName w ex rest err Hn Hr)
      as (w' & Hget & Hrest).
    exists w'. split; [| exact Hrest].
    rewrite waitForUpgrade_unfold, waitForUpgrade_body_check by assumption.
    apply (then_rejected _ _ _ _ _ Hget).
  - intros serviceName startTime Hok.
    destruct (getService_refused serviceName w ex rest err Hn Hr)
      as (w' & Hget & Hrest).
    exists w'. split; [| exact Hrest].
    rewrite waitForActive_unfold, waitForActive_body_check by assumption.
    apply (then_rejected _ _ _ _ _ Hget).
  - intros options w0 out w'. apply inServiceUpgrade_run.
Qed.

End Claims.

(** * Further properties of the class *)

Lemma trace_emit (e : Event) (w : World) : trace (emit e w) = trace w ++ [e].
Proof. reflexivity. Qed.

Lemma network_emit (e : Event) (w : World) : network (emit e w) = network w.
Proof. reflexivity. Qed.

Lemma clock_emit (e : Event) (w : World) : clock (emit e w) = clock w.
Proof. reflexivity. Qed.

#[local] Hint Rewrite trace_emit network_emit clock_emit : world.

Section Further.
Variable self : Config.t.

Lemma getService_nothing (name : string) (w : World) (ex : Exchange)
    (rest : list Exchange) :
  network w = ex :: rest →
  matches (reply ex) = [] →
  ∃ w',
    getService self name w = (Rejected NotFoundError, w')
    ∧ network w' = rest
    ∧ requests (trace w') = requests (trace w) ++ [services_query self name].
Proof.
  intros Hn Hnone.
  destruct (getService self name w) as [o w'] eqn:Hget.
  pose proof (getService_inv _ _ _ _ _ Hget) as [[logs [Htr Hlogs]] Hout].
  exists w'.
  assert (Hreqs : requests (trace w')
                  = requests (trace w) ++ [services_query self name]).
  { rewrite Htr, requests_app. simpl. rewrite Hlogs. reflexivity. }
  destruct o as [svc | r |].
  - destruct Hout as (ex' & more & Hn' & Hr & _).
    rewrite Hn in Hn'. injection Hn' as <- <-.
    rewrite Hr in Hnone. discriminate Hnone.
  - destruct Hout as [-> [ex' Hn']].
    rewrite Hn in Hn'. injection Hn' as <- <-. auto.
  - destruct Hout as [Hnil _]. rewrite Hn in Hnil. discriminate Hnil.
Qed.

(** X1.  The constructor makes an instance exactly when the options hold
    an endpoint, a key and a secret that are not empty.  The instance
    carries them, and for the poll interval and the two timeouts what the
    options give, or 20000, 180000 and 180000 milliseconds where they give
    none. *)
Theorem constructor_needs_credentials
    (options : option ConstructorOptions.t) (instance : Config.t) :
  constructor options = inr instance
  ↔ ∃ o,
      options = Some o
      ∧ ConstructorOptions.endpoint o = Some (Config.endpoint instance)
      ∧ Config.endpoint instance ≠ ""
      ∧ ConstructorOptions.apikey o = Some (Config.apikey instance)
      ∧ Config.apikey instance ≠ ""
      ∧ ConstructorOptions.apisecret o = Some (Config.apisecret instance)
      ∧ Config.apisecret instance ≠ ""
      ∧ Config.statusCheckFrequency instance
        = default 20000 (ConstructorOptions.statusCheckFrequency o)
      ∧ Config.serviceActiveTimeout instance
        = default 180000 (ConstructorOptions.serviceActiveTimeout o)
      ∧ Config.serviceUpgradedTimeout instance
        = default 180000 (ConstructorOptions.serviceUpgradedTimeout o).
Proof.
  unfold constructor. split.
  - destruct options as [o |]; [| discriminate].
    destruct (truthy (ConstructorOptions.endpoint o)) eqn:He;
      [| discriminate].
    destruct (truthy (ConstructorOptions.apikey o)) eqn:Hk; [| discriminate].
    destruct (truthy (ConstructorOptions.apisecret o)) eqn:Hs;
      [| discriminate].
    cbn [negb]. intros [= <-]. exists o.
    apply truthy_inv in He as (e & He & He').
    apply truthy_inv in Hk as (k & Hk & Hk').
    apply truthy_inv in Hs as (s & Hs & Hs').
    rewrite He, Hk, Hs. cbn. repeat split; assumption.
  - intros (o & -> & He & He' & Hk & Hk' & Hs & Hs' & Hf & Ha & Hu).
    rewrite He, Hk, Hs, !truthy_Some by assumption.
    cbn [negb default from_option id].
    destruct instance as [e k sec f a u]. cbn in *.
    rewrite Hf, Ha, Hu. reflexivity.
Qed.

(** X2.  A valid request whose first directory query finds no service fails
    with NotFoundError; the query is the only request of the session, so
    nothing was posted. *)
Theorem inServiceUpgrade_not_found (options : Options.t)
    (name repo : string) (w : World) (ex : Exchange)
    (rest : list Exchange) :
  Options.serviceName options = Some name → name ≠ "" →
  Options.imageRepo options = Some repo → repo ≠ "" →
  network w = ex :: rest →
  matches (reply ex) = [] →
  ∃ w',
    inServiceUpgrade self (Some options) w = (Rejected NotFoundError, w')
    ∧ network w' = rest
    ∧ requests (trace w')
      = requests (trace w) ++ [services_query self name].
Proof.
  intros Hname Hname' Hrepo Hrepo' Hn Hnone.
  erewrite inServiceUpgrade_started by eassumption.
  destruct (getService_nothing name
              (logged Stdout [LogStr "Starting deploy for"; LogStr name] w)
              ex rest Hn Hnone) as (w' & Hget & Hnet & Hreqs).
  exists w'. rewrite (then_rejected _ _ _ _ _ Hget).
  split; [reflexivity |]. split; [exact Hnet |].
  rewrite Hreqs. autorewrite with world. rewrite requests_app. simpl.
  rewrite app_nil_r. reflexivity.
Qed.

(** X3.  An active service that offers no [upgrade] action passes the
    precondition (its state is "active"), and the post of the upgrade then
    throws on the missing action reference: the session fails with a
    TypeError, not with the precondition failure, and nothing is posted. *)
Theorem inServiceUpgrade_active_without_action (options : Options.t)
    (name repo : string) (w : World) (ex : Exchange)
    (rest : list Exchange) (svc : Service.t) (more : list Service.t) :
  Options.serviceName options = Some name → name ≠ "" →
  Options.imageRepo options = Some repo → repo ≠ "" →
  network w = ex :: rest →
  reply ex = ReplyBody (BCollection (svc :: more)) →
  Service.state svc = "active" →
  Service.actions svc !! "upgrade" = None →
  ∃ detail w',
    inServiceUpgrade self (Some options) w = (Rejected (TypeError detail), w')
    ∧ network w' = rest
    ∧ requests (trace w')
      = requests (trace w) ++ [services_query self name].
Proof.
  intros Hname Hname' Hrepo Hrepo' Hn Hr Hactive Hnone.
  erewrite inServiceUpgrade_fetched by eassumption.
  rewrite Hactive, Hnone. cbn [String.eqb Ascii.eqb Bool.eqb andb negb].
  unfold submit, post. rewrite Hnone. cbn [_apiRequest].
  do 2 eexists. split; [reflexivity |].
  destruct (requests_prepared options svc (fetched self name w ex rest))
    as (Hreqs & Hnet & _).
  rewrite Hnet, Hreqs, requests_fetched. unfold fetched.
  autorewrite with world. auto.
Qed.

(** X4.  When the post of the upgrade cannot be completed, or is answered
    with an empty body, the session fails with a TypeError on
    [result.state] right after that post: the service is never polled and
    [finishupgrade] is never posted. *)
Theorem inServiceUpgrade_submit_unanswered (options : Options.t)
    (name repo : string) (w : World) (ex ex2 : Exchange)
    (rest : list Exchange) (svc : Service.t) (more : list Service.t)
    (url : string) :
  Options.serviceName options = Some name → name ≠ "" →
  Options.imageRepo options = Some repo → repo ≠ "" →
  network w = ex :: ex2 :: rest →
  reply ex = ReplyBody (BCollection (svc :: more)) →
  Service.actions svc !! "upgrade" = Some url →
  Service.state svc = "active" ∨ url ≠ "" →
  (∃ err, reply ex2 = ReplyError err) ∨ reply ex2 = ReplyBody BNull →
  ∃ detail w',
    inServiceUpgrade self (Some options) w = (Rejected (TypeError detail), w')
    ∧ network w' = rest
    ∧ requests (trace w')
      = requests (trace w)
        ++ [services_query self name;
            requestOptions_for self url POST
              (ParamsUpgrade (inServiceStrategy_for options svc))].
Proof.
  intros Hname Hname' Hrepo Hrepo' Hn Hr Hurl Hmay Hbad.
  erewrite inServiceUpgrade_fetched by eassumption.
  assert (Hcond : negb (Service.state svc =? "active")%string
                  && negb (truthy (Service.actions svc !! "upgrade"))
                  = false).
  { apply andb_false_iff. destruct Hmay as [Hactive | Hurl'].
    - left. rewrite Hactive. reflexivity.
    - right. rewrite Hurl, truthy_Some by assumption. reflexivity. }
  rewrite Hcond. unfold submit, post. rewrite Hurl.
  destruct (requests_prepared options svc
              (fetched self name w ex (ex2 :: rest)))
    as (Hreqs & Hnet & _).
  assert (Hnet' : network (prepared options svc
                             (fetched self name w ex (ex2 :: rest)))
                  = ex2 :: rest).
  { rewrite Hnet. unfold fetched. autorewrite with world. reflexivity. }
  destruct Hbad as [[err Hr2] | Hr2].
  - erewrite then_fulfilled by (eapply _apiRequest_error; eassumption).
    cbn [result_state]. do 2 eexists. split; [reflexivity |].
    autorewrite with world.
    rewrite !requests_app, Hreqs, requests_fetched. simpl.
    rewrite !app_nil_r, <- app_assoc. auto.
  - erewrite then_fulfilled by (eapply _apiRequest_body; eassumption).
    cbn [result_state]. do 2 eexists. split; [reflexivity |].
    autorewrite with world.
    rewrite !requests_app, Hreqs, requests_fetched. simpl.
    rewrite <- app_assoc. auto.
Qed.
(** X5.  A request without an environment (or with an empty one) leaves the
    variables of the service as they are: the environment that is posted is
    the one the service had, and the empty one if it had none.  A service
    without an environment gets exactly the variables of the request. *)
Theorem inServiceUpgrade_keeps_environment (options : Options.t)
    (name repo : string) (w : World) (ex : Exchange)
    (rest : list Exchange) (svc : Service.t) (more : list Service.t)
    (url : string) (out : Outcome Service.t) (w' : World) :
  Options.serviceName options = Some name → name ≠ "" →
  Options.imageRepo options = Some repo → repo ≠ "" →
  network w = ex :: rest →
  reply ex = ReplyBody (BCollection (svc :: more)) →
  Service.actions svc !! "upgrade" = Some url →
  Service.state svc = "active" ∨ url ≠ "" →
  inServiceUpgrade self (Some options) w = (out, w') →
  ∃ strategy later,
    requests (trace w')
    = requests (trace w)
      ++ services_query self name
      :: requestOptions_for self url POST (ParamsUpgrade strategy)
      :: later
    ∧ (Options.environment options = None
       ∨ Options.environment options = Some ∅ →
       LaunchConfig.environment (InServiceStrategy.launchConfig strategy)
       = Some (default ∅ (LaunchConfig.environment
                            (Service.launchConfig svc))))
    ∧ (LaunchConfig.environment (Service.launchConfig svc) = None →
       LaunchConfig.environment (InServiceStrategy.launchConfig strategy)
       = Some (default ∅ (Options.environment options))).
Proof.
  intros Hname Hname' Hrepo Hrepo' Hn Hr Hurl Hmay Hrun.
  destruct (inServiceUpgrade_submits_requests _ _ _ _ _ _ _ _ _ _ _ _
              Hname Hname' Hrepo Hrepo' Hn Hr Hurl Hmay Hrun)
    as [later Hreqs].
  exists (inServiceStrategy_for options svc), later.
  split; [exact Hreqs |].
  cbn [inServiceStrategy_for InServiceStrategy.launchConfig
       launchConfig_for LaunchConfig.environment].
  unfold Object_assign. split.
  - intros [-> | ->]; cbn [default from_option id];
      rewrite (left_id_L ∅ (∪)); reflexivity.
  - intros ->. cbn [default from_option id].
    rewrite (right_id_L ∅ (∪)). reflexivity.
Qed.

(** X6.  The upgrade changes the image and the environment of the launch
    config and nothing else: every other key of the launch config and the
    secondary launch configs are posted as they were fetched. *)
Theorem inServiceUpgrade_passes_through (options : Options.t)
    (name repo : string) (w : World) (ex : Exchange)
    (rest : list Exchange) (svc : Service.t) (more : list Service.t)
    (url : string) (out : Outcome Service.t) (w' : World) :
  Options.serviceName options = Some name → name ≠ "" →
  Options.imageRepo options = Some repo → repo ≠ "" →
  network w = ex :: rest →
  reply ex = ReplyBody (BCollection (svc :: more)) →
  Service.actions svc !! "upgrade" = Some url →
  Service.state svc = "active" ∨ url ≠ "" →
  inServiceUpgrade self (Some options) w = (out, w') →
  ∃ strategy later,
    requests (trace w')
    = requests (trace w)
      ++ services_query self name
      :: requestOptions_for self url POST (ParamsUpgrade strategy)
      :: later
    ∧ InServiceStrategy.secondaryLaunchConfigs strategy
      = Service.secondaryLaunchConfigs svc
    ∧ LaunchConfig.others (InServiceStrategy.launchConfig strategy)
      = LaunchConfig.others (Service.launchConfig svc).
Proof.
  intros Hname Hname' Hrepo Hrepo' Hn Hr Hurl Hmay Hrun.
  destruct (inServiceUpgrade_submits_requests _ _ _ _ _ _ _ _ _ _ _ _
              Hname Hname' Hrepo Hrepo' Hn Hr Hurl Hmay Hrun)
    as [later Hreqs].
  exists (inServiceStrategy_for options svc), later.
  split; [exact Hreqs |]. split; reflexivity.
Qed.

Lemma wait_failure_not_transport (r : Reason) (err : string) :
  wait_failure r → r ≠ RequestError err.
Proof.
  unfold wait_failure.
  intros [-> | [-> | [-> | [[s ->] | [d ->]]]]]; discriminate.
Qed.

(** The ways a session can end. *)
Lemma inServiceUpgrade_ends (options : option Options.t) (w : World)
    (out : Outcome Service.t) (w' : World) :
  inServiceUpgrade self options w = (out, w') →
  match out with
  | Fulfilled svc => Service.state svc = "active"
  | Rejected r =>
      ValidationError r
      ∨ (∃ state, r = PreconditionError state)
      ∨ wait_failure r
  | Pending => network w' = []
  end.
Proof.
  intros Hrun.
  assert (Hinvalid : ∀ msg,
             ValidationError (Message msg) →
             (out, w') = (Rejected (Message msg),
                          logged Stderr [LogStr msg] w) →
             match out with
             | Fulfilled svc => Service.state svc = "active"
             | Rejected r =>
                 ValidationError r
                 ∨ (∃ state, r = PreconditionError state)
                 ∨ wait_failure r
             | Pending => network w' = []
             end).
  { intros msg Hmsg [= -> ->]. left; exact Hmsg. }
  destruct options as [o |];
    [| apply (Hinvalid _ (or_introl eq_refl) (eq_sym Hrun))].
  destruct (truthy (Options.serviceName o)) eqn:Hname.
  2:{ unfold inServiceUpgrade in Hrun. cbn [default from_option id] in Hrun.
      rewrite Hname in Hrun.
      apply (Hinvalid _ (or_introl eq_refl) (eq_sym Hrun)). }
  destruct (truthy (Options.imageRepo o)) eqn:Hrepo.
  2:{ unfold inServiceUpgrade in Hrun. cbn [default from_option id] in Hrun.
      rewrite Hname, Hrepo in Hrun.
      apply (Hinvalid _ (or_intror eq_refl) (eq_sym Hrun)). }
  apply truthy_inv in Hname as (name & Hname & Hname').
  apply truthy_inv in Hrepo as (repo & Hrepo & Hrepo').
  erewrite inServiceUpgrade_started in Hrun by eassumption.
  destruct (getService self name
              (logged Stdout [LogStr "Starting deploy for"; LogStr name] w))
    as [[svc | r |] w1] eqn:Hget;
    pose proof (getService_inv _ _ _ _ _ Hget) as [_ Hout].
  - rewrite (then_fulfilled _ _ _ _ _ Hget) in Hrun. cbv zeta in Hrun.
    destruct (negb (Service.state svc =? "active")%string
              && negb (truthy (Service.actions svc !! "upgrade"))).
    + rewrite ERROR_run in Hrun. injection Hrun as <- <-.
      right; left; eexists; reflexivity.
    + apply submit_run in Hrun as (new & _ & _ & Hend).
      destruct out as [final | r |]; try exact Hend.
      right; right; exact Hend.
  - rewrite (then_rejected _ _ _ _ _ Hget) in Hrun. injection Hrun as <- <-.
    destruct Hout as [-> _].
    right; right. unfold wait_failure. auto.
  - rewrite (then_pending _ _ _ _ Hget) in Hrun. injection Hrun as <- <-.
    apply Hout.
Qed.

(** X7.  However a session ends, it ends in one of these ways.  If it is
    fulfilled, the descriptor it returns is in state "active".  If it is
    rejected, the reason is a validation failure, the precondition failure,
    a failed lookup, an unexpected state, a timeout of one of the two waits
    or a TypeError; it is never the error of the transport.  If it stays
    pending, the endpoint has stopped answering. *)
Theorem inServiceUpgrade_outcome (options : option Options.t) (w : World)
    (out : Outcome Service.t) (w' : World) :
  inServiceUpgrade self options w = (out, w') →
  match out with
  | Fulfilled svc => Service.state svc = "active"
  | Rejected r =>
      (ValidationError r
       ∨ (∃ state, r = PreconditionError state)
       ∨ wait_failure r)
      ∧ ∀ err, r ≠ RequestError err
  | Pending => network w' = []
  end.
Proof.
  intros Hrun. apply inServiceUpgrade_ends in Hrun.
  destruct out as [svc | r |]; try exact Hrun.
  split; [exact Hrun |]. intros err.
  destruct Hrun as [[-> | ->] | [[state ->] | Hwait]]; try discriminate.
  apply wait_failure_not_transport. exact Hwait.
Qed.
(** ** Polling: pace, number of lookups, termination *)

Lemma request_times_length (tr : list Event) :
  length (request_times tr) = length (requests tr).
Proof.
  induction tr as [| [t req | stream args | t ms] tr IH]; simpl; auto.
Qed.

Lemma paced_weaken (gap from from' : Z) (times : list Z) :
  from' ≤ from → paced gap from times → paced gap from' times.
Proof.
  destruct times as [| t later]; simpl; [auto |].
  intros Hle [Ht Hlater]. split; [lia | exact Hlater].
Qed.

Lemma paced_bounded (gap deadline : Z) (times : list Z) :
  0 < gap →
  ∀ from,
    paced gap from times →
    Forall (fun t => t ≤ deadline) times →
    times = [] ∨ from + (Z.of_nat (length times) - 1) * gap ≤ deadline.
Proof.
  intros Hgap. induction times as [| t later IH]; intros from Hpaced Hall;
    [left; reflexivity | right].
  destruct Hpaced as [Hfrom Hlater].
  apply Forall_cons in Hall as [Ht Hall].
  destruct (IH _ Hlater Hall) as [-> | Hbound]; simpl length.
  - simpl. lia.
  - rewrite Nat2Z.inj_succ. nia.
Qed.

Lemma getService_clock (name : string) (w : World) (o : Outcome Service.t)
    (w' : World) :
  getService self name w = (o, w') → clock w ≤ clock w'.
Proof.
  unfold getService, get. destruct (network w) as [| ex rest] eqn:Hn.
  - erewrite then_pending by (apply _apiRequest_pending; exact Hn).
    intros [= <- <-]. autorewrite with world. lia.
  - destruct (reply ex) as [b | err] eqn:Hr.
    + erewrite then_fulfilled by (eapply _apiRequest_body; eassumption).
      destruct b as [| text | [| svc more] | rsvc]; cbv iota;
        rewrite ?ERROR_run; intros [= <- <-]; autorewrite with world; lia.
    + erewrite then_fulfilled by (eapply _apiRequest_error; eassumption).
      cbv iota. rewrite ERROR_run. intros [= <- <-].
      autorewrite with world. lia.
Qed.

(** The lookups of a run of the active-wait: all of them are the directory
    query for the service, they keep the pace, and each but a pending last
    one has used up one answer of the endpoint. *)
Lemma waitForActive_polls (serviceName : string) (n : nat) :
  ∀ (startTime : option Z) (w : World) (out : Outcome Service.t)
    (w' : World),
    (length (network w) < n)%nat →
    waitForActive self serviceName startTime w = (out, w') →
    ∃ new k,
      trace w' = trace w ++ new
      ∧ requests new = replicate k (services_query self serviceName)
      ∧ paced (setTimeout_after (Config.statusCheckFrequency self)) (clock w)
              (request_times new)
      ∧ clock w ≤ clock w'
      ∧ (length (network w') + k
         = length (network w) + pending_count out)%nat.
Proof.
  pose proof (setTimeout_after_positive (Config.statusCheckFrequency self))
    as Hgap.
  induction n as [| n IH]; intros startTime w out w' Hlen Hrun; [lia |].
  rewrite waitForActive_unfold in Hrun.
  destruct (Z.lt_ge_cases
              (startTime_or startTime (clock w)
               + Config.serviceActiveTimeout self) (clock w))
    as [Hlate | Hok].
  { rewrite waitForActive_body_expired, ERROR_run in Hrun by assumption.
    injection Hrun as <- <-. eexists [_], 0%nat.
    autorewrite with world. simpl. repeat split; auto; lia. }
  rewrite waitForActive_body_check in Hrun by assumption.
  destruct (getService self serviceName w) as [[svc | r |] w1] eqn:Hget;
    pose proof (getService_inv _ _ _ _ _ Hget) as [[logs [Htr Hlogs]] Hout];
    pose proof (getService_clock _ _ _ _ Hget) as Hclock.
  - rewrite (then_fulfilled _ _ _ _ _ Hget) in Hrun.
    destruct Hout as (ex & more & Hn & Hr & Hw1).
    destruct (Service.state svc =? "active")%string eqn:Hstate;
      cbn [negb] in Hrun.
    + rewrite LOG_then in Hrun. injection Hrun as <- <-.
      eexists ((EvRequest (clock w) (services_query self serviceName)
                  :: logs) ++ [_]), 1%nat.
      autorewrite with world. rewrite Htr, <- app_assoc.
      split; [reflexivity |].
      rewrite requests_app, request_times_app, request_times_one
        by assumption.
      simpl. rewrite Hlogs, Hn. simpl.
      repeat split; auto; lia.
    + rewrite LOG_then, DELAY_then in Hrun.
      apply IH in Hrun;
        [| autorewrite with world; rewrite Hn in Hlen; simpl in Hlen; lia].
      destruct Hrun as (new & k & Hnew & Hreqs & Hpaced & Hmono & Hcount).
      autorewrite with world in Hnew, Hpaced, Hmono, Hcount.
      eexists ((EvRequest (clock w) (services_query self serviceName)
                  :: logs) ++ [_; _] ++ new), (S k).
      split.
      { rewrite Hnew, Htr, <- !app_assoc. reflexivity. }
      rewrite !requests_app, !request_times_app, request_times_one
        by assumption.
      simpl. rewrite Hlogs, Hreqs. simpl.
      split; [reflexivity |].
      split; [split; [lia | eapply paced_weaken; [| exact Hpaced]; lia] |].
      split; [lia |]. rewrite Hn. simpl. lia.
  - rewrite (then_rejected _ _ _ _ _ Hget) in Hrun.
    injection Hrun as <- <-. destruct Hout as [_ [ex Hn]].
    exists (EvRequest (clock w) (services_query self serviceName) :: logs),
      1%nat.
    rewrite request_times_one by assumption. simpl. rewrite Hlogs, Hn.
    simpl. repeat split; auto; lia.
  - rewrite (then_pending _ _ _ _ Hget) in Hrun.
    injection Hrun as <- <-. destruct Hout as [Hnil Hnil'].
    exists (EvRequest (clock w) (services_query self serviceName) :: logs),
      1%nat.
    rewrite request_times_one by assumption. simpl.
    rewrite Hlogs, Hnil, Hnil'. simpl. repeat split; auto; lia.
Qed.
Lemma run_new_unique (w w' : World) (new1 new2 : list Event) :
  trace w' = trace w ++ new1 → trace w' = trace w ++ new2 → new1 = new2.
Proof. intros H1 H2. rewrite H1 in H2. exact (app_inv_head _ _ _ H2). Qed.

(** X8.  The active-wait only ever asks the directory for the service: it
    posts nothing.  Between two of its lookups at least the time the timer
    runs passes: the poll interval [statusCheckFrequency] when that lies
    between 1 ms and [TIMEOUT_MAX], 1 ms otherwise. *)
Theorem waitForActive_keeps_pace (serviceName : string)
    (startTime : option Z) (w : World) :
  let run := waitForActive self serviceName startTime w in
  ∃ new k,
    trace (snd run) = trace w ++ new
    ∧ requests new = replicate k (services_query self serviceName)
    ∧ paced (setTimeout_after (Config.statusCheckFrequency self)) (clock w)
            (request_times new)
    ∧ (1 ≤ Config.statusCheckFrequency self ≤ TIMEOUT_MAX →
       paced (Config.statusCheckFrequency self) (clock w)
             (request_times new)).
Proof.
  intros run.
  destruct (waitForActive_polls serviceName (S (length (network w)))
              startTime w (fst run) (snd run))
    as (new & k & Hnew & Hreqs & Hpaced & _);
    [lia | apply surjective_pairing |].
  exists new, k. split; [exact Hnew |]. split; [exact Hreqs |].
  split; [exact Hpaced |].
  intros Hfits. rewrite <- (setTimeout_after_kept _ Hfits). exact Hpaced.
Qed.

(** X9.  With a start time that is not 0, the active-wait makes at most
    [(deadline - now) / interval + 1] lookups, where [interval] is the time
    the timer runs: the last of [n] lookups is started no earlier than
    [n - 1] intervals after the wait was entered, and no later than the
    deadline. *)
Theorem waitForActive_lookups_bounded (serviceName : string)
    (startTime : option Z) (w : World) (out : Outcome Service.t)
    (w' : World) :
  startTime_or startTime (clock w) ≠ 0 →
  waitForActive self serviceName startTime w = (out, w') →
  ∃ new,
    trace w' = trace w ++ new
    ∧ (requests new = []
       ∨ clock w
         + (Z.of_nat (length (requests new)) - 1)
           * setTimeout_after (Config.statusCheckFrequency self)
         ≤ startTime_or startTime (clock w)
           + Config.serviceActiveTimeout self).
Proof.
  intros Hstart Hrun.
  assert (Hgap : 0 < setTimeout_after (Config.statusCheckFrequency self))
    by (pose proof (setTimeout_after_positive
                      (Config.statusCheckFrequency self)); lia).
  destruct (waitForActive_polls serviceName _ _ _ _ _
              (Nat.lt_succ_diag_r _) Hrun)
    as (new & k & Hnew & Hreqs & Hpaced & _).
  destruct (waitForActive_run self serviceName _ _ _ _ _
              (Nat.lt_succ_diag_r _) Hrun)
    as (new' & Hnew' & _ & Htimes & _).
  rewrite (run_new_unique _ _ _ _ Hnew' Hnew) in Htimes.
  exists new. split; [exact Hnew |].
  destruct (paced_bounded _ _ _ Hgap _ Hpaced (Htimes Hstart))
    as [Hnone | Hbound].
  - left. apply (f_equal (@length Z)) in Hnone.
    rewrite request_times_length in Hnone.
    destruct (requests new); [reflexivity | discriminate Hnone].
  - right. rewrite <- request_times_length. exact Hbound.
Qed.

(** X10.  The active-wait ends.  With a start time that is not 0, it
    settles (with the active service, a timeout or a failed lookup) as soon
    as the endpoint answers the lookups that fit before the deadline, one
    per interval the timer runs: it is not left pending when that many
    answers come. *)
Theorem waitForActive_settles (serviceName : string)
    (startTime : option Z) (w : World) (out : Outcome Service.t)
    (w' : World) :
  startTime_or startTime (clock w) ≠ 0 →
  startTime_or startTime (clock w) + Config.serviceActiveTimeout self
    < clock w
      + Z.of_nat (length (network w))
        * setTimeout_after (Config.statusCheckFrequency self) →
  waitForActive self serviceName startTime w = (out, w') →
  out ≠ Pending.
Proof.
  intros Hstart Henough Hrun ->.
  assert (Hgap : 0 < setTimeout_after (Config.statusCheckFrequency self))
    by (pose proof (setTimeout_after_positive
                      (Config.statusCheckFrequency self)); lia).
  destruct (waitForActive_polls serviceName _ _ _ _ _
              (Nat.lt_succ_diag_r _) Hrun)
    as (new & k & Hnew & Hreqs & Hpaced & _ & Hcount).
  destruct (waitForActive_run self serviceName _ _ _ _ _
              (Nat.lt_succ_diag_r _) Hrun)
    as (new' & Hnew' & _ & Htimes & Hnil).
  rewrite (run_new_unique _ _ _ _ Hnew' Hnew) in Htimes.
  rewrite Hnil in Hcount. simpl in Hcount.
  assert (Hk : length (request_times new) = k).
  { rewrite request_times_length, Hreqs. apply length_replicate. }
  destruct (paced_bounded _ _ _ Hgap _ Hpaced (Htimes Hstart))
    as [Hnone | Hbound].
  - rewrite Hnone in Hk. simpl in Hk. lia.
  - rewrite Hk in Hbound. nia.
Qed.

Lemma _apiRequest_clock (path : option string) (method : Method)
    (params : Params) (w : World) (o : Outcome (option Body)) (w' : World) :
  _apiRequest self path method params w = (o, w') → clock w ≤ clock w'.
Proof.
  destruct path as [path |]; [| intros [= <- <-]; lia].
  destruct (network w) as [| ex rest] eqn:Hn.
  - rewrite _apiRequest_pending by exact Hn.
    intros [= <- <-]. autorewrite with world. lia.
  - destruct (reply ex) as [b | err] eqn:Hr.
    + erewrite _apiRequest_body by eassumption.
      intros [= <- <-]. autorewrite with world. lia.
    + erewrite _apiRequest_error by eassumption.
      intros [= <- <-]. autorewrite with world. lia.
Qed.

Lemma finalized_weaken (serviceName : string) (from from' : Z)
    (answers : list Exchange) (k : nat) (tail : list Event) :
  from' ≤ from →
  finalized self serviceName from answers k tail →
  finalized self serviceName from' answers k tail.
Proof.
  intros Hle [Hnone | (j & svc & url & t & entered & act & m & Hk & Hsvc
                       & Hstate & Hurl & Htail & Hfrom & Hrest)];
    [left; exact Hnone | right].
  exists j, svc, url, t, entered, act, m.
  repeat (split; [assumption |]). split; [lia | exact Hrest].
Qed.

(** One more lookup before those of the run: it took one more answer, in
    which it did not find an upgraded service. *)
Lemma finalized_later (serviceName : string) (from : Z) (ex : Exchange)
    (answers : list Exchange) (k : nat) (tail : list Event) :
  (∀ svc, looked_up [ex] 0 = Some svc → Service.state svc ≠ "upgraded") →
  finalized self serviceName from answers k tail →
  finalized self serviceName from (ex :: answers) (S k) tail.
Proof.
  intros Hex [[-> Hnone] | (j & svc & url & t & entered & act & m & -> & Hsvc
                            & Hrest)];
    [left | right].
  - split; [reflexivity |]. intros j svc [= <-] Hsvc Hstate.
    destruct k as [| j].
    + destruct (Hex svc Hsvc Hstate).
    + exact (Hnone j svc eq_refl Hsvc Hstate).
  - exists (S j), svc, url, t, entered, act, m.
    split; [reflexivity |]. split; [exact Hsvc | exact Hrest].
Qed.

(** With no lookup made, no [finishupgrade] is due. *)
Lemma finalized_nothing (serviceName : string) (from : Z)
    (answers : list Exchange) :
  finalized self serviceName from answers 0 [].
Proof. left. split; [reflexivity |]. intros j svc Hj. discriminate Hj. Qed.

(** After one lookup that found no upgraded service offering
    [finishupgrade], none is due either. *)
Lemma finalized_skipped (serviceName : string) (from : Z)
    (answers : list Exchange) :
  (∀ svc, looked_up answers 0 = Some svc →
          Service.state svc = "upgraded" →
          Service.actions svc !! "finishupgrade" = None) →
  finalized self serviceName from answers 1 [].
Proof.
  intros Hfirst. left. split; [reflexivity |].
  intros j svc [= <-]. apply Hfirst.
Qed.

Lemma getService_unfound (name : string) (w : World)
    (o : Outcome Service.t) (w' : World) :
  getService self name w = (o, w') →
  (∀ svc, o ≠ Fulfilled svc) →
  looked_up (network w) 0 = None.
Proof.
  intros Hget Hnot. unfold looked_up.
  destruct (network w) as [| ex rest] eqn:Hn; [reflexivity |]. simpl.
  destruct (reply ex) as [[| text | [| svc more] | rsvc] | err] eqn:Hr;
    try reflexivity.
  erewrite getService_found in Hget by eassumption.
  injection Hget as <- _. destruct (Hnot svc eq_refl).
Qed.

Lemma looked_up_found (ex : Exchange) (answers : list Exchange)
    (svc : Service.t) (more : list Service.t) :
  reply ex = ReplyBody (BCollection (svc :: more)) →
  looked_up (ex :: answers) 0 = Some svc.
Proof. intros Hr. unfold looked_up. simpl. rewrite Hr. reflexivity. Qed.

Lemma requests_cons_request (t : Z) (req : RequestOptions.t)
    (tr : list Event) :
  requests (EvRequest t req :: tr) = req :: requests tr.
Proof. reflexivity. Qed.

Lemma requests_cons_console (stream : Stream) (args : list LogArg)
    (tr : list Event) :
  requests (EvConsole stream args :: tr) = requests tr.
Proof. reflexivity. Qed.

Lemma requests_cons_timer (t ms : Z) (tr : list Event) :
  requests (EvTimer t ms :: tr) = requests tr.
Proof. reflexivity. Qed.

Lemma requests_nil : requests [] = [].
Proof. reflexivity. Qed.

Lemma request_times_cons_request (t : Z) (req : RequestOptions.t)
    (tr : list Event) :
  request_times (EvRequest t req :: tr) = t :: request_times tr.
Proof. reflexivity. Qed.

Lemma request_times_cons_console (stream : Stream) (args : list LogArg)
    (tr : list Event) :
  request_times (EvConsole stream args :: tr) = request_times tr.
Proof. reflexivity. Qed.

Lemma request_times_cons_timer (t ms : Z) (tr : list Event) :
  request_times (EvTimer t ms :: tr) = request_times tr.
Proof. reflexivity. Qed.

Lemma request_times_nil : request_times [] = [].
Proof. reflexivity. Qed.

Create Rewrite HintDb events.
#[local] Hint Rewrite requests_app request_times_app
  requests_cons_request requests_cons_console requests_cons_timer
  requests_nil request_times_cons_request request_times_cons_console
  request_times_cons_timer request_times_nil : events.

(** The lookups of a run of the upgraded-wait, and what follows them. *)
Lemma waitForUpgrade_polls (serviceName : string) (n : nat) :
  ∀ (startTime : option Z) (w : World) (out : Outcome Service.t)
    (w' : World),
    (length (network w) < n)%nat →
    waitForUpgrade self serviceName startTime w = (out, w') →
    ∃ polls tail k,
      trace w' = trace w ++ polls ++ tail
      ∧ requests polls = replicate k (services_query self serviceName)
      ∧ paced (setTimeout_after (Config.statusCheckFrequency self)) (clock w)
              (request_times polls)
      ∧ (startTime_or startTime (clock w) ≠ 0 →
         Forall (fun t => t ≤ startTime_or startTime (clock w)
                              + Config.serviceUpgradedTimeout self)
                (request_times polls))
      ∧ clock w ≤ clock w'
      ∧ (length (network w') + k + length (requests tail)
         = length (network w) + pending_count out)%nat
      ∧ finalized self serviceName (clock w) (network w) k tail.
Proof.
  pose proof (setTimeout_after_positive (Config.statusCheckFrequency self))
    as Hgap.
  induction n as [| n IH]; intros startTime w out w' Hlen Hrun; [lia |].
  rewrite waitForUpgrade_unfold in Hrun.
  destruct (Z.lt_ge_cases
              (startTime_or startTime (clock w)
               + Config.serviceUpgradedTimeout self) (clock w))
    as [Hlate | Hok].
  { rewrite waitForUpgrade_body_expired, ERROR_run in Hrun by assumption.
    injection Hrun as <- <-. eexists [_], [], 0%nat.
    autorewrite with world events. rewrite app_nil_r. cbn.
    split; [reflexivity |]. split; [reflexivity |]. split; [exact I |].
    split; [intros _; constructor |]. split; [lia |]. split; [lia |].
    apply finalized_nothing. }
  rewrite waitForUpgrade_body_check in Hrun by assumption.
  destruct (getService self serviceName w) as [[svc | r |] w1] eqn:Hget;
    pose proof (getService_inv _ _ _ _ _ Hget) as [[logs [Htr Hlogs]] Hout];
    pose proof (getService_clock _ _ _ _ Hget) as Hclock;
    pose proof (requests_nil_times _ Hlogs) as Hlogt.
  - rewrite (then_fulfilled _ _ _ _ _ Hget) in Hrun.
    destruct Hout as (ex & more & Hn & Hr & Hw1).
    pose proof (looked_up_found _ (network w1) _ _ Hr) as Hfound.
    rewrite <- Hn in Hfound.
    destruct (Service.state svc =? "upgrading")%string eqn:Hupgrading.
    { rewrite LOG_then, DELAY_then in Hrun.
      apply IH in Hrun;
        [| autorewrite with world; rewrite Hn in Hlen; simpl in Hlen; lia].
      destruct Hrun
        as (polls & tail & k & Hnew & Hreqs & Hpaced & Htimes & Hmono
            & Hcount & Htail).
      autorewrite with world in Hnew, Hpaced, Hmono, Hcount, Htail.
      eexists ((EvRequest (clock w) (services_query self serviceName)
                  :: logs) ++ [_; _] ++ polls), tail, (S k).
      split.
      { rewrite Hnew, Htr, <- !app_assoc. reflexivity. }
      autorewrite with events. rewrite Hlogs, Hlogt, Hreqs. cbn [app].
      split; [reflexivity |].
      split; [split; [lia | eapply paced_weaken; [| exact Hpaced]; lia] |].
      split.
      { intros Hstart. rewrite startTime_or_fixed in Htimes by assumption.
        constructor; [assumption | auto]. }
      split; [lia |].
      split; [rewrite Hn; simpl; lia |].
      rewrite Hn. apply finalized_later.
      { intros svc0 Hsvc0.
        rewrite (looked_up_found _ [] _ _ Hr) in Hsvc0.
        injection Hsvc0 as <-. apply String.eqb_eq in Hupgrading.
        rewrite Hupgrading. discriminate. }
      eapply finalized_weaken; [| exact Htail]. lia. }
    destruct (Service.state svc =? "upgraded")%string eqn:Hupgraded.
    + rewrite LOG_then in Hrun. apply String.eqb_eq in Hupgraded.
      destruct (Service.actions svc !! "finishupgrade") as [url |] eqn:Hurl.
      2:{ injection Hrun as <- <-.
          eexists ((EvRequest (clock w) (services_query self serviceName)
                      :: logs) ++ [_]), [], 1%nat.
          autorewrite with world. rewrite Htr, <- !app_assoc, app_nil_r.
          split; [reflexivity |].
          autorewrite with events. rewrite Hlogs, Hlogt. cbn [app].
          split; [reflexivity |]. split; [split; [lia | exact I] |].
          split; [intros _; constructor; [assumption | constructor] |].
          split; [lia |]. split; [rewrite Hn; simpl; lia |].
          apply finalized_skipped. intros svc0 Hsvc0 _.
          rewrite Hfound in Hsvc0. injection Hsvc0 as <-. exact Hurl. }
      unfold post in Hrun.
      destruct (_apiRequest self (Some url) POST ParamsEmpty
                  (logged Stdout [LogStr "Service is upgraded. Finishing..."]
                          w1)) as [[result | r |] w2] eqn:Hpost;
        pose proof (_apiRequest_inv _ _ _ _ _ _ _ Hpost)
          as [[logs2 [Htr2 Hlogs2]] Hout2];
        pose proof (_apiRequest_clock _ _ _ _ _ _ Hpost) as Hclock2;
        pose proof (requests_nil_times _ Hlogs2) as Hlogt2;
        autorewrite with world in Htr2, Hclock2, Hout2.
      * rewrite (then_fulfilled _ _ _ _ _ Hpost), LOG_then in Hrun.
        destruct Hout2 as [ex2 Hn2].
        pose proof (waitForActive_polls serviceName _ _ _ _ _
                      (Nat.lt_succ_diag_r _) Hrun)
          as (new & m & Hnew & Hreqs & Hpaced & Hmono & Hcount).
        pose proof (waitForActive_run self serviceName _ _ _ _ _
                      (Nat.lt_succ_diag_r _) Hrun)
          as (new' & Hnew' & _ & Htimes & _).
        rewrite (run_new_unique _ _ _ _ Hnew' Hnew) in Htimes.
        autorewrite with world in Hnew, Hpaced, Hmono, Hcount, Htimes.
        cbn [startTime_or] in Htimes.
        eexists ((EvRequest (clock w) (services_query self serviceName)
                    :: logs) ++ [_]),
          (EvRequest _ (requestOptions_for self url POST ParamsEmpty)
             :: logs2 ++ [_] ++ new), 1%nat.
        split.
        { rewrite Hnew, Htr2, Htr, <- !app_assoc. reflexivity. }
        autorewrite with events. rewrite Hlogs, Hlogt, Hlogs2, Hreqs.
        cbn [app].
        split; [reflexivity |]. split; [split; [lia | exact I] |].
        split; [intros _; constructor; [assumption | constructor] |].
        split; [lia |].
        split.
        { cbn [length]. rewrite length_replicate, Hn, Hn2. simpl. lia. }
        right. eexists 0%nat, svc, url, (clock w1), (clock w2), _, m.
        do 4 (split; [first [reflexivity | assumption] |]).
        split; [reflexivity |]. split; [lia |].
        autorewrite with events. rewrite Hlogs2, Hlogt2. cbn [app].
        auto.
      * destruct Hout2.
      * rewrite (then_pending _ _ _ _ Hpost) in Hrun.
        injection Hrun as <- <-. destruct Hout2 as [Hnil Hnil'].
        eexists ((EvRequest (clock w) (services_query self serviceName)
                    :: logs) ++ [_]),
          (EvRequest _ (requestOptions_for self url POST ParamsEmpty)
             :: logs2), 1%nat.
        split.
        { rewrite Htr2, Htr, <- !app_assoc. reflexivity. }
        autorewrite with events. rewrite Hlogs, Hlogt, Hlogs2. cbn [app].
        split; [reflexivity |]. split; [split; [lia | exact I] |].
        split; [intros _; constructor; [assumption | constructor] |].
        split; [lia |].
        split; [rewrite Hn, Hnil, Hnil'; simpl; lia |].
        right. exists 0%nat, svc, url, (clock w1), (clock w2), logs2, 0%nat.
        do 4 (split; [first [reflexivity | assumption] |]).
        split; [reflexivity |]. split; [lia |].
        rewrite Hlogs2, Hlogt2. simpl. auto.
    + rewrite LOG_then, ERROR_run in Hrun. injection Hrun as <- <-.
      eexists ((EvRequest (clock w) (services_query self serviceName)
                  :: logs) ++ [_; _]), [], 1%nat.
      autorewrite with world. rewrite Htr, <- !app_assoc, app_nil_r.
      split; [reflexivity |].
      autorewrite with events. rewrite Hlogs, Hlogt. cbn [app].
      split; [reflexivity |]. split; [split; [lia | exact I] |].
      split; [intros _; constructor; [assumption | constructor] |].
      split; [lia |]. split; [rewrite Hn; simpl; lia |].
      apply finalized_skipped. intros svc0 Hsvc0 Hstate.
      rewrite Hfound in Hsvc0. injection Hsvc0 as <-.
      apply String.eqb_neq in Hupgraded. contradiction.
  - rewrite (then_rejected _ _ _ _ _ Hget) in Hrun.
    injection Hrun as <- <-. destruct Hout as [_ [ex Hn]].
    exists (EvRequest (clock w) (services_query self serviceName) :: logs),
      [], 1%nat.
    rewrite app_nil_r. split; [exact Htr |].
    autorewrite with events. rewrite Hlogs, Hlogt.
    split; [reflexivity |]. split; [split; [lia | exact I] |].
    split; [intros _; constructor; [assumption | constructor] |].
    split; [lia |]. split; [rewrite Hn; simpl; lia |].
    apply finalized_skipped. intros svc0 Hsvc0.
    rewrite (getService_unfound _ _ _ _ Hget) in Hsvc0 by discriminate.
    discriminate Hsvc0.
  - rewrite (then_pending _ _ _ _ Hget) in Hrun.
    injection Hrun as <- <-. destruct Hout as [Hnil Hnil'].
    exists (EvRequest (clock w) (services_query self serviceName) :: logs),
      [], 1%nat.
    rewrite app_nil_r. split; [exact Htr |].
    autorewrite with events. rewrite Hlogs, Hlogt.
    split; [reflexivity |]. split; [split; [lia | exact I] |].
    split; [intros _; constructor; [assumption | constructor] |].
    split; [lia |]. split; [rewrite Hnil, Hnil'; simpl; lia |].
    apply finalized_skipped. intros svc0 Hsvc0.
    rewrite (getService_unfound _ _ _ _ Hget) in Hsvc0 by discriminate.
    discriminate Hsvc0.
Qed.
Lemma prepared_trace (options : Options.t) (svc : Service.t) (w : World) :
  ∃ before,
    trace (prepared options svc w) = trace w ++ before
    ∧ requests before = []
    ∧ network (prepared options svc w) = network w
    ∧ clock (prepared options svc w) = clock w.
Proof.
  unfold prepared.
  destruct (negb (Service.state svc =? "active")%string);
    autorewrite with world.
  - eexists [_; _; _]. rewrite <- !app_assoc. auto.
  - eexists [_; _]. rewrite <- !app_assoc. auto.
Qed.

(** A request passes the validation or it does not. *)
Lemma options_valid_or_not (options : option Options.t) :
  (∃ o name repo,
     options = Some o
     ∧ Options.serviceName o = Some name ∧ name ≠ ""
     ∧ Options.imageRepo o = Some repo ∧ repo ≠ "")
  ∨ match options with
    | Some o => truthy (Options.serviceName o) = false
                ∨ truthy (Options.imageRepo o) = false
    | None => True
    end.
Proof.
  destruct options as [o |]; [| right; exact I].
  destruct (truthy (Options.serviceName o)) eqn:Hname; [| auto].
  destruct (truthy (Options.imageRepo o)) eqn:Hrepo; [| auto].
  apply truthy_inv in Hname as (name & Hname & Hname').
  apply truthy_inv in Hrepo as (repo & Hrepo & Hrepo').
  left. exists o, name, repo. auto.
Qed.

(** A request that fails the validation is rejected on the spot. *)
Lemma inServiceUpgrade_invalid (options : option Options.t) (w : World) :
  match options with
  | Some o => truthy (Options.serviceName o) = false
              ∨ truthy (Options.imageRepo o) = false
  | None => True
  end →
  ∃ msg,
    inServiceUpgrade self options w
    = (Rejected (Message msg), logged Stderr [LogStr msg] w).
Proof.
  intros Hmissing. unfold inServiceUpgrade.
  destruct options as [o |]; cbn [default from_option id].
  - destruct (truthy (Options.serviceName o)) eqn:Hname; cbn [negb].
    + destruct Hmissing as [Hm | Hm]; [discriminate Hm |].
      rewrite Hm. cbn [negb]. rewrite ERROR_run. eauto.
    + rewrite ERROR_run. eauto.
  - cbn [truthy Options.serviceName negb]. rewrite ERROR_run. eauto.
Qed.

(** A valid session, request by request. *)
Lemma inServiceUpgrade_valid_session (o : Options.t) (name repo : string)
    (w : World) (out : Outcome Service.t) (w' : World) :
  Options.serviceName o = Some name → name ≠ "" →
  Options.imageRepo o = Some repo → repo ≠ "" →
  inServiceUpgrade self (Some o) w = (out, w') →
  ∃ new,
    trace w' = trace w ++ new
    ∧ (length (network w') + length (requests new)
       = length (network w) + pending_count out)%nat
    ∧ ∃ rest,
        requests new = services_query self name :: rest
        ∧ ((rest = []
            ∧ ∀ svc url,
                looked_up (network w) 0 = Some svc →
                Service.actions svc !! "upgrade" = Some url →
                url = "" ∧ Service.state svc ≠ "active")
           ∨ ∃ svc,
               looked_up (network w) 0 = Some svc
               ∧ rollout self o name svc (clock w) (drop 2 (network w))
                         rest).
Proof.
  intros Hname Hname' Hrepo Hrepo' Hrun.
  erewrite inServiceUpgrade_started in Hrun by eassumption.
  destruct (getService self name
              (logged Stdout [LogStr "Starting deploy for"; LogStr name] w))
    as [[svc | r |] w1] eqn:Hget;
    pose proof (getService_inv _ _ _ _ _ Hget) as [[logs [Htr Hlogs]] Hout];
    pose proof (getService_clock _ _ _ _ Hget) as Hclock;
    pose proof (getService_unfound _ _ _ _ Hget) as Hunfound;
    autorewrite with world in Htr, Hclock, Hout, Hunfound.
  - rewrite (then_fulfilled _ _ _ _ _ Hget) in Hrun. cbv zeta in Hrun.
    destruct Hout as (ex & more & Hn & Hr & _).
    pose proof (looked_up_found _ (network w1) _ _ Hr) as Hfound.
    rewrite <- Hn in Hfound.
    destruct (negb (Service.state svc =? "active")%string
              && negb (truthy (Service.actions svc !! "upgrade"))) eqn:Hc.
    { rewrite ERROR_run in Hrun. injection Hrun as <- <-.
      eexists ([_] ++ (_ :: logs) ++ [_; _]).
      split.
      { autorewrite with world. rewrite Htr, <- !app_assoc. reflexivity. }
      autorewrite with world events. rewrite Hlogs.
      split; [rewrite Hn; simpl; lia |].
      exists []. split; [reflexivity | left]. split; [reflexivity |].
      intros svc0 url Hsvc0 Hurl.
      rewrite Hfound in Hsvc0. injection Hsvc0 as <-.
      apply andb_true_iff in Hc as [Hstate Hempty].
      apply negb_true_iff in Hstate, Hempty.
      rewrite Hurl in Hempty. cbn [truthy] in Hempty.
      apply negb_false_iff, String.eqb_eq in Hempty.
      apply String.eqb_neq in Hstate. auto. }
    destruct (prepared_trace o svc
                (logged Stdout [LogStr "Got service"; LogStr name] w1))
      as (before & Hbefore & Hnone & Hpnet & Hpclock).
    autorewrite with world in Hbefore, Hpnet, Hpclock.
    unfold submit, post in Hrun.
    destruct (Service.actions svc !! "upgrade") as [url |] eqn:Hurl.
    2:{ injection Hrun as <- <-.
        eexists ([_] ++ (_ :: logs) ++ [_] ++ before).
        split.
        { rewrite Hbefore, Htr, <- !app_assoc. reflexivity. }
        autorewrite with events. rewrite Hlogs, Hnone, Hpnet.
        split; [rewrite Hn; simpl; lia |].
        exists []. split; [reflexivity | left]. split; [reflexivity |].
        intros svc0 url Hsvc0 Hurl0.
        rewrite Hfound in Hsvc0. injection Hsvc0 as <-.
        rewrite Hurl in Hurl0. discriminate Hurl0. }
    assert (Hposted : ∀ entered,
               clock w ≤ entered →
               rollout self o name svc (clock w) (drop 2 (network w))
                 [requestOptions_for self url POST
                    (ParamsUpgrade (inServiceStrategy_for o svc))]).
    { intros entered Hentered. exists url, [], [], 0%nat, entered.
      split; [exact Hurl |]. split; [reflexivity |].
      split; [reflexivity |]. split; [exact Hentered |].
      split; [exact I |]. split; [intros _; constructor |].
      apply finalized_nothing. }
    destruct (_apiRequest self (Some url) POST
                (ParamsUpgrade (inServiceStrategy_for o svc))
                (prepared o svc
                   (logged Stdout [LogStr "Got service"; LogStr name] w1)))
      as [[result | r |] w2] eqn:Hpost;
      pose proof (_apiRequest_inv _ _ _ _ _ _ _ Hpost)
        as [[logs2 [Htr2 Hlogs2]] Hout2];
      pose proof (_apiRequest_clock _ _ _ _ _ _ Hpost) as Hclock2;
      rewrite ?Hpnet, ?Hpclock in *.
    + rewrite (then_fulfilled _ _ _ _ _ Hpost) in Hrun.
      destruct Hout2 as [ex2 Hn2].
      assert (Hfail : ∀ detail,
                 (out, w') = (Rejected (TypeError detail), w2) →
                 ∃ new,
                   trace w' = trace w ++ new
                   ∧ (length (network w') + length (requests new)
                      = length (network w) + pending_count out)%nat
                   ∧ ∃ rest,
                       requests new = services_query self name :: rest
                       ∧ ((rest = []
                           ∧ ∀ svc url,
                               looked_up (network w) 0 = Some svc →
                               Service.actions svc !! "upgrade" = Some url →
                               url = "" ∧ Service.state svc ≠ "active")
                          ∨ ∃ svc,
                              looked_up (network w) 0 = Some svc
                              ∧ rollout self o name svc (clock w)
                                        (drop 2 (network w)) rest)).
      { intros detail [= -> ->].
        eexists ([_] ++ (_ :: logs) ++ [_] ++ before ++ (_ :: logs2)).
        split.
        { rewrite Htr2, Hbefore, Htr, <- !app_assoc. reflexivity. }
        autorewrite with events. rewrite Hlogs, Hnone, Hlogs2.
        split; [rewrite Hn, Hn2; simpl; lia |].
        eexists. split; [reflexivity |]. right. exists svc.
        split; [exact Hfound | apply (Hposted (clock w)); lia]. }
      assert (Hgo : ∀ state,
                 (LOG [LogStr "Upgrading service..."; state] ;;
                  waitForUpgrade self name None) w2 = (out, w') →
                 ∃ new,
                   trace w' = trace w ++ new
                   ∧ (length (network w') + length (requests new)
                      = length (network w) + pending_count out)%nat
                   ∧ ∃ rest,
                       requests new = services_query self name :: rest
                       ∧ ((rest = []
                           ∧ ∀ svc url,
                               looked_up (network w) 0 = Some svc →
                               Service.actions svc !! "upgrade" = Some url →
                               url = "" ∧ Service.state svc ≠ "active")
                          ∨ ∃ svc,
                              looked_up (network w) 0 = Some svc
                              ∧ rollout self o name svc (clock w)
                                        (drop 2 (network w)) rest)).
      { intros state. rewrite LOG_then. intros Hwait.
        apply (waitForUpgrade_polls name _ _ _ _ _ (Nat.lt_succ_diag_r _))
          in Hwait.
        destruct Hwait
          as (polls & tail & k & Hnew & Hreqs & Hpaced & Htimes & Hmono
              & Hcount & Htail).
        autorewrite with world in Hnew, Hpaced, Htimes, Hmono, Hcount, Htail.
        cbn [startTime_or] in Htimes.
        eexists ([_] ++ (_ :: logs) ++ [_] ++ before ++ (_ :: logs2)
                 ++ [_] ++ polls ++ tail).
        split.
        { rewrite Hnew, Htr2, Hbefore, Htr, <- !app_assoc. reflexivity. }
        autorewrite with events. rewrite Hlogs, Hnone, Hlogs2. cbn [app].
        split.
        { cbn [length]. rewrite length_app, Hreqs, length_replicate.
          rewrite Hn, Hn2. simpl. lia. }
        eexists. split; [reflexivity |]. right. exists svc.
        split; [exact Hfound |].
        exists url, polls, tail, k, (clock w2).
        split; [exact Hurl |]. split; [reflexivity |].
        split; [exact Hreqs |]. split; [lia |].
        split; [exact Hpaced |]. split; [exact Htimes |].
        rewrite Hn, Hn2. exact Htail. }
      destruct result as [[| text | data | rsvc] |]; cbn [result_state] in Hrun;
        rewrite ?then_resolve in Hrun;
        first [ exact (Hfail _ (eq_sym Hrun)) | exact (Hgo _ Hrun) ].
    + destruct Hout2.
    + rewrite (then_pending _ _ _ _ Hpost) in Hrun. injection Hrun as <- <-.
      destruct Hout2 as [Hnil Hnil'].
      eexists ([_] ++ (_ :: logs) ++ [_] ++ before ++ (_ :: logs2)).
      split.
      { rewrite Htr2, Hbefore, Htr, <- !app_assoc. reflexivity. }
      autorewrite with events. rewrite Hlogs, Hnone, Hlogs2.
      split; [rewrite Hn, Hnil, Hnil'; simpl; lia |].
      eexists. split; [reflexivity |]. right. exists svc.
      split; [exact Hfound | apply (Hposted (clock w)); lia].
  - rewrite (then_rejected _ _ _ _ _ Hget) in Hrun. injection Hrun as <- <-.
    destruct Hout as [_ [ex Hn]].
    eexists ([_] ++ (_ :: logs)).
    split; [rewrite Htr, <- !app_assoc; reflexivity |].
    autorewrite with events. rewrite Hlogs.
    split; [rewrite Hn; simpl; lia |].
    exists []. split; [reflexivity | left]. split; [reflexivity |].
    intros svc0 url Hsvc0.
    rewrite Hunfound in Hsvc0 by discriminate. discriminate Hsvc0.
  - rewrite (then_pending _ _ _ _ Hget) in Hrun. injection Hrun as <- <-.
    destruct Hout as [Hnil Hnil'].
    eexists ([_] ++ (_ :: logs)).
    split; [rewrite Htr, <- !app_assoc; reflexivity |].
    autorewrite with events. rewrite Hlogs.
    split; [rewrite Hnil, Hnil'; simpl; lia |].
    exists []. split; [reflexivity | left]. split; [reflexivity |].
    intros svc0 url Hsvc0.
    rewrite Hunfound in Hsvc0 by discriminate. discriminate Hsvc0.
Qed.

(** A whole session, request by request. *)
Lemma inServiceUpgrade_session (options : option Options.t) (w : World)
    (out : Outcome Service.t) (w' : World) :
  inServiceUpgrade self options w = (out, w') →
  ∃ new,
    trace w' = trace w ++ new
    ∧ (length (network w') + length (requests new)
       = length (network w) + pending_count out)%nat
    ∧ (match options with
       | Some o => truthy (Options.serviceName o) = false
                   ∨ truthy (Options.imageRepo o) = false
       | None => True
       end → requests new = [])
    ∧ (∀ o name repo,
         options = Some o →
         Options.serviceName o = Some name → name ≠ "" →
         Options.imageRepo o = Some repo → repo ≠ "" →
         ∃ rest,
           requests new = services_query self name :: rest
           ∧ ((rest = []
               ∧ ∀ svc url,
                   looked_up (network w) 0 = Some svc →
                   Service.actions svc !! "upgrade" = Some url →
                   url = "" ∧ Service.state svc ≠ "active")
              ∨ ∃ svc,
                  looked_up (network w) 0 = Some svc
                  ∧ rollout self o name svc (clock w) (drop 2 (network w))
                            rest)).
Proof.
  intros Hrun.
  destruct (options_valid_or_not options)
    as [(o & name & repo & -> & Hname & Hname' & Hrepo & Hrepo') | Hmissing].
  - destruct (inServiceUpgrade_valid_session _ _ _ _ _ _
                Hname Hname' Hrepo Hrepo' Hrun)
      as (new & Hnew & Hcount & Hshape).
    exists new. split; [exact Hnew |]. split; [exact Hcount |]. split.
    + intros [Hm | Hm].
      * rewrite Hname, truthy_Some in Hm by assumption. discriminate Hm.
      * rewrite Hrepo, truthy_Some in Hm by assumption. discriminate Hm.
    + intros o' name' repo' [= <-] Hname2 _ _ _.
      rewrite Hname in Hname2. injection Hname2 as <-. exact Hshape.
  - destruct (inServiceUpgrade_invalid _ w Hmissing) as [msg Hreject].
    rewrite Hreject in Hrun. injection Hrun as <- <-.
    eexists [_]. split; [apply trace_logged |].
    autorewrite with world events. simpl.
    split; [lia |]. split; [reflexivity |].
    intros o name repo -> Hname Hname' Hrepo Hrepo'.
    destruct Hmissing as [Hm | Hm].
    + rewrite Hname, truthy_Some in Hm by assumption. discriminate Hm.
    + rewrite Hrepo, truthy_Some in Hm by assumption. discriminate Hm.
Qed.

Lemma lookups_fit (gap budget from : Z) (times : list Z) :
  0 < gap → 0 ≤ budget →
  paced gap from times →
  Forall (fun t => t ≤ from + budget) times →
  Z.of_nat (length times) ≤ budget / gap + 1.
Proof.
  intros Hgap Hbudget Hpaced Hall.
  destruct (paced_bounded _ _ _ Hgap _ Hpaced Hall) as [-> | Hbound].
  - simpl. pose proof (Z.div_pos budget gap Hbudget Hgap). lia.
  - assert (Z.of_nat (length times) - 1 ≤ budget / gap); [| lia].
    apply Z.div_le_lower_bound; [exact Hgap | nia].
Qed.

(** X11.  The upgraded-wait asks the directory for the service, keeping
    between two lookups the time the timer runs (the poll interval when
    that lies between 1 ms and [TIMEOUT_MAX], 1 ms otherwise), until it
    posts [finishupgrade] or ends.  With a start time that is not 0 the
    last of its [k] lookups is started at least [k - 1] such intervals
    after the wait was entered and no later than its deadline.  What comes
    after the lookups, if anything, starts with the post to the
    [finishupgrade] action of the service the last lookup found, in state
    "upgraded"; nothing comes after them only when the last lookup found
    no such service, or one that offers no [finishupgrade]. *)
Theorem waitForUpgrade_lookups_bounded (serviceName : string)
    (startTime : option Z) (w : World) (out : Outcome Service.t)
    (w' : World) :
  startTime_or startTime (clock w) ≠ 0 →
  waitForUpgrade self serviceName startTime w = (out, w') →
  ∃ polls tail k,
    trace w' = trace w ++ polls ++ tail
    ∧ requests polls = replicate k (services_query self serviceName)
    ∧ paced (setTimeout_after (Config.statusCheckFrequency self)) (clock w)
            (request_times polls)
    ∧ (k = 0%nat
       ∨ clock w
         + (Z.of_nat k - 1)
           * setTimeout_after (Config.statusCheckFrequency self)
         ≤ startTime_or startTime (clock w)
           + Config.serviceUpgradedTimeout self)
    ∧ ((tail = []
        ∧ ∀ j svc,
            k = S j →
            looked_up (network w) j = Some svc →
            Service.state svc = "upgraded" →
            Service.actions svc !! "finishupgrade" = None)
       ∨ ∃ j svc url t act,
           k = S j
           ∧ looked_up (network w) j = Some svc
           ∧ Service.state svc = "upgraded"
           ∧ Service.actions svc !! "finishupgrade" = Some url
           ∧ tail = EvRequest t (requestOptions_for self url POST ParamsEmpty)
                    :: act).
Proof.
  intros Hstart Hrun.
  assert (Hgap : 0 < setTimeout_after (Config.statusCheckFrequency self))
    by (pose proof (setTimeout_after_positive
                      (Config.statusCheckFrequency self)); lia).
  destruct (waitForUpgrade_polls serviceName _ _ _ _ _
              (Nat.lt_succ_diag_r _) Hrun)
    as (polls & tail & k & Hnew & Hreqs & Hpaced & Htimes & _ & _ & Htail).
  exists polls, tail, k.
  split; [exact Hnew |]. split; [exact Hreqs |]. split; [exact Hpaced |].
  assert (Hk : length (request_times polls) = k).
  { rewrite request_times_length, Hreqs. apply length_replicate. }
  split.
  - destruct (paced_bounded _ _ _ Hgap _ Hpaced (Htimes Hstart))
      as [Hnone | Hbound].
    + left. rewrite Hnone in Hk. simpl in Hk. lia.
    + right. rewrite Hk in Hbound. exact Hbound.
  - destruct Htail
      as [Hnone | (j & svc & url & t & entered & act & m & Hj & Hsvc & Hstate
                   & Hurl & -> & _)];
      [left; exact Hnone | right].
    exists j, svc, url, t, act. auto.
Qed.

(** X12.  The requests of a session, in order.  A request that fails the
    validation makes none.  A valid one starts with the directory query for
    the service.  The next request is the post to the [upgrade] action of
    the service the first lookup found, with the strategy built from the
    options and that service; the session stops before it only when no
    service was found or the one found offers no [upgrade] (an empty
    reference on a service that is not active counts as none).  Then come
    lookups of the same service; then at most one post, to the
    [finishupgrade] action of the service the last of these lookups found
    in state "upgraded", followed by further lookups; that post is only
    missing when the last lookup found no such service, or one that offers
    no [finishupgrade].  The request at position [j] of a session is given
    the answer at position [j] of the endpoint. *)
Theorem inServiceUpgrade_requests_in_order (options : option Options.t)
    (w : World) (out : Outcome Service.t) (w' : World) :
  inServiceUpgrade self options w = (out, w') →
  ∃ new,
    trace w' = trace w ++ new
    ∧ (match options with
       | Some o => truthy (Options.serviceName o) = false
                   ∨ truthy (Options.imageRepo o) = false
       | None => True
       end → requests new = [])
    ∧ (∀ o name repo,
         options = Some o →
         Options.serviceName o = Some name → name ≠ "" →
         Options.imageRepo o = Some repo → repo ≠ "" →
         ∃ rest,
           requests new = services_query self name :: rest
           ∧ ((rest = []
               ∧ ∀ svc url,
                   looked_up (network w) 0 = Some svc →
                   Service.actions svc !! "upgrade" = Some url →
                   url = "" ∧ Service.state svc ≠ "active")
              ∨ ∃ svc url k finish,
                  looked_up (network w) 0 = Some svc
                  ∧ Service.actions svc !! "upgrade" = Some url
                  ∧ rest
                    = requestOptions_for self url POST
                        (ParamsUpgrade (inServiceStrategy_for o svc))
                      :: replicate k (services_query self name) ++ finish
                  ∧ ((finish = []
                      ∧ ∀ j svc',
                          k = S j →
                          looked_up (network w) (S (S j)) = Some svc' →
                          Service.state svc' = "upgraded" →
                          Service.actions svc' !! "finishupgrade" = None)
                     ∨ ∃ j svc' url' m,
                         k = S j
                         ∧ looked_up (network w) (S (S j)) = Some svc'
                         ∧ Service.state svc' = "upgraded"
                         ∧ Service.actions svc' !! "finishupgrade"
                           = Some url'
                         ∧ finish
                           = requestOptions_for self url' POST ParamsEmpty
                             :: replicate m (services_query self name)))).
Proof.
  intros Hrun.
  destruct (inServiceUpgrade_session _ _ _ _ Hrun)
    as (new & Hnew & _ & Hnone & Hshape).
  exists new. split; [exact Hnew |]. split; [exact Hnone |].
  intros o name repo Ho Hname Hname' Hrepo Hrepo'.
  destruct (Hshape o name repo Ho Hname Hname' Hrepo Hrepo')
    as (rest & Hreqs & Hrest).
  exists rest. split; [exact Hreqs |].
  destruct Hrest
    as [Hstop | (svc & Hsvc & url & polls & tail & k & entered & Hurl & ->
                 & Hpolls & _ & _ & _ & Htail)];
    [left; exact Hstop | right].
  exists svc, url, k, (requests tail).
  split; [exact Hsvc |]. split; [exact Hurl |].
  rewrite Hpolls. split; [reflexivity |].
  assert (Hlater : ∀ j, looked_up (drop 2 (network w)) j
                        = looked_up (network w) (S (S j))).
  { intros j. unfold looked_up. rewrite lookup_drop. reflexivity. }
  destruct Htail
    as [[-> Hskip] | (j & svc' & url' & t & e & act & m & Hj & Hsvc' & Hstate
                      & Hurl' & -> & _ & Hact & _)].
  - left. split; [reflexivity |]. intros j svc' Hj Hsvc'.
    rewrite <- Hlater in Hsvc'. exact (Hskip j svc' Hj Hsvc').
  - right. exists j, svc', url', m.
    split; [exact Hj |]. split; [rewrite <- Hlater; exact Hsvc' |].
    split; [exact Hstate |]. split; [exact Hurl' |].
    rewrite requests_cons_request, Hact. reflexivity.
Qed.

Lemma session_requests_fit (options : option Options.t) (w : World)
    (out : Outcome Service.t) (w' : World) :
  0 < clock w →
  0 ≤ Config.serviceUpgradedTimeout self →
  0 ≤ Config.serviceActiveTimeout self →
  inServiceUpgrade self options w = (out, w') →
  ∃ new,
    trace w' = trace w ++ new
    ∧ (length (network w') + length (requests new)
       = length (network w) + pending_count out)%nat
    ∧ Z.of_nat (length (requests new))
      ≤ Config.serviceUpgradedTimeout self
        / setTimeout_after (Config.statusCheckFrequency self)
        + Config.serviceActiveTimeout self
          / setTimeout_after (Config.statusCheckFrequency self)
        + 5.
Proof.
  intros Hclock Hup Hact Hrun.
  assert (Hgap : 0 < setTimeout_after (Config.statusCheckFrequency self))
    by (pose proof (setTimeout_after_positive
                      (Config.statusCheckFrequency self)); lia).
  pose proof (Z.div_pos _ _ Hup Hgap) as Hupq.
  pose proof (Z.div_pos _ _ Hact Hgap) as Hactq.
  destruct (inServiceUpgrade_session _ _ _ _ Hrun)
    as (new & Hnew & Hcount & Hnone & Hshape).
  exists new. split; [exact Hnew |]. split; [exact Hcount |].
  destruct (options_valid_or_not options)
    as [(o & name & repo & Ho & Hname & Hname' & Hrepo & Hrepo') | Hmissing];
    [| rewrite (Hnone Hmissing); simpl; lia].
  destruct (Hshape o name repo Ho Hname Hname' Hrepo Hrepo')
    as (rest & -> & Hrest).
  destruct Hrest
    as [[-> _] | (svc & _ & url & polls & tail & k & entered & _ & -> & Hpolls
                  & Hentered & Hpaced & Htimes & Htail)];
    [simpl; lia |].
  assert (Hk : Z.of_nat (length (requests polls))
               ≤ Config.serviceUpgradedTimeout self
                 / setTimeout_after (Config.statusCheckFrequency self) + 1).
  { rewrite <- request_times_length.
    apply (lookups_fit _ _ entered); auto. apply Htimes. lia. }
  cbn [length]. rewrite length_app.
  destruct Htail
    as [[-> _] | (j & svc' & url' & t & e & act & m & _ & _ & _ & _ & -> & He
                  & Hreqs & Hpaced' & Htimes')].
  - simpl. lia.
  - assert (Hm : Z.of_nat (length (requests act))
                 ≤ Config.serviceActiveTimeout self
                   / setTimeout_after (Config.statusCheckFrequency self) + 1).
    { rewrite <- request_times_length.
      apply (lookups_fit _ _ e); auto. apply Htimes'. lia. }
    rewrite requests_cons_request. cbn [length]. lia.
Qed.

(** X13.  A session is bounded.  With a clock after the epoch and timeouts
    that are not negative, it makes at most
    [serviceUpgradedTimeout / interval + serviceActiveTimeout / interval
     + 5] requests, where [interval] is the time the timer runs between two
    lookups: [statusCheckFrequency] when that lies between 1 ms and
    [TIMEOUT_MAX], 1 ms otherwise. *)
Theorem inServiceUpgrade_requests_bounded (options : option Options.t)
    (w : World) (out : Outcome Service.t) (w' : World) :
  0 < clock w →
  0 ≤ Config.serviceUpgradedTimeout self →
  0 ≤ Config.serviceActiveTimeout self →
  inServiceUpgrade self options w = (out, w') →
  ∃ new,
    trace w' = trace w ++ new
    ∧ Z.of_nat (length (requests new))
      ≤ Config.serviceUpgradedTimeout self
        / setTimeout_after (Config.statusCheckFrequency self)
        + Config.serviceActiveTimeout self
          / setTimeout_after (Config.statusCheckFrequency self)
        + 5.
Proof.
  intros Hclock Hup Hact Hrun.
  destruct (session_requests_fit _ _ _ _ Hclock Hup Hact Hrun)
    as (new & Hnew & _ & Hbound).
  exists new. split; assumption.
Qed.

(** X14.  A session ends.  With a clock after the epoch and timeouts that
    are not negative, a session for which the endpoint has
    [serviceUpgradedTimeout / interval + serviceActiveTimeout / interval
     + 5] answers is not left pending: it is fulfilled or rejected.
    [interval] is the time the timer runs between two lookups. *)
Theorem inServiceUpgrade_settles (options : option Options.t)
    (w : World) (out : Outcome Service.t) (w' : World) :
  0 < clock w →
  0 ≤ Config.serviceUpgradedTimeout self →
  0 ≤ Config.serviceActiveTimeout self →
  Config.serviceUpgradedTimeout self
    / setTimeout_after (Config.statusCheckFrequency self)
  + Config.serviceActiveTimeout self
    / setTimeout_after (Config.statusCheckFrequency self) + 5
    ≤ Z.of_nat (length (network w)) →
  inServiceUpgrade self options w = (out, w') →
  out ≠ Pending.
Proof.
  intros Hclock Hup Hact Henough Hrun ->.
  destruct (session_requests_fit _ _ _ _ Hclock Hup Hact Hrun)
    as (new & _ & Hcount & Hbound).
  apply inServiceUpgrade_ends in Hrun. simpl in Hrun, Hcount.
  rewrite Hrun in Hcount. simpl in Hcount. lia.
Qed.

(** X15.  A start time of 0 counts as no start time: both waits then take
    the clock, as they do when they are entered without one. *)
Theorem wait_startTime_zero_is_absent (serviceName : string) (w : World) :
  waitForUpgrade self serviceName (Some 0) w
  = waitForUpgrade self serviceName None w
  ∧ waitForActive self serviceName (Some 0) w
    = waitForActive self serviceName None w.
Proof.
  split.
  - rewrite !waitForUpgrade_unfold.
    destruct (Z.lt_ge_cases
                (clock w + Config.serviceUpgradedTimeout self) (clock w))
      as [Hlate | Hok].
    + rewrite !waitForUpgrade_body_expired by exact Hlate. reflexivity.
    + rewrite !waitForUpgrade_body_check by exact Hok. reflexivity.
  - rewrite !waitForActive_unfold.
    destruct (Z.lt_ge_cases
                (clock w + Config.serviceActiveTimeout self) (clock w))
      as [Hlate | Hok].
    + rewrite !waitForActive_body_expired by exact Hlate. reflexivity.
    + rewrite !waitForActive_body_check by exact Hok. reflexivity.
Qed.
(** ** What the result of a session does not depend on *)

Lemma respects_resolve {A} (a : A) : respects (resolve a).
Proof. intros w1 w2 H. simpl. auto. Qed.

Lemma respects_reject {A} (r : Reason) : respects (@reject A r).
Proof. intros w1 w2 H. simpl. auto. Qed.

Lemma respects_then {A B} (p : Promise A) (f : A → Promise B) :
  respects p → (∀ a, respects (f a)) → respects (then_ p f).
Proof.
  intros Hp Hf w1 w2 H. unfold then_.
  destruct (Hp w1 w2 H) as [Hout Hsame].
  destruct (p w1) as [o1 w1'], (p w2) as [o2 w2']. simpl in Hout, Hsame.
  subst o2. destruct o1 as [a | r |]; simpl; auto.
  apply Hf. exact Hsame.
Qed.

Lemma respects_Date_now : respects Date_now.
Proof. intros w1 w2 [Hc Hn]. simpl. rewrite Hc. split; [| split]; auto. Qed.

Lemma respects_console (stream : Stream) (args : list LogArg) :
  respects (console stream args).
Proof. intros w1 w2 [Hc Hn]. simpl. split; [| split]; auto. Qed.

Lemma respects_LOG (args : list LogArg) : respects (LOG args).
Proof.
  intros w1 w2 [Hc Hn]. unfold LOG, then_, Date_now, console. simpl.
  split; [| split]; auto.
Qed.

Lemma respects_ERROR {A} (msg : string) (more : list LogArg) :
  respects (@ERROR A msg more).
Proof.
  intros w1 w2 [Hc Hn]. rewrite !ERROR_run. simpl. split; [| split]; auto.
Qed.

Lemma respects_DELAY (time : Z) : respects (DELAY time).
Proof.
  intros w1 w2 [Hc Hn]. unfold DELAY, delayed. simpl. rewrite Hc.
  split; [| split]; auto.
Qed.

Lemma respects_apiRequest (path : option string) (method : Method)
    (params : Params) : respects (_apiRequest self path method params).
Proof.
  intros w1 w2 [Hc Hn]. destruct path as [path |];
    [| simpl; split; [| split]; auto].
  destruct (network w1) as [| ex rest] eqn:Hn1; symmetry in Hn.
  - rewrite !_apiRequest_pending by assumption.
    cbn [fst snd]. unfold same_state. autorewrite with world.
    split; [| split]; congruence.
  - destruct (reply ex) as [b | err] eqn:Hr.
    + erewrite !_apiRequest_body by eassumption.
      cbn [fst snd]. unfold same_state. autorewrite with world.
      rewrite Hc. split; [| split]; auto.
    + erewrite !_apiRequest_error by eassumption.
      cbn [fst snd]. unfold same_state. autorewrite with world.
      rewrite Hc. split; [| split]; auto.
Qed.

Lemma respects_getService (name : string) : respects (getService self name).
Proof.
  unfold getService, get. apply respects_then.
  - apply respects_apiRequest.
  - intros [[| text | [| svc more] | rsvc] |];
      first [apply respects_resolve | apply respects_ERROR].
Qed.

Lemma respects_startTime_or_now (startTime : option Z) :
  respects (startTime_or_now startTime).
Proof.
  unfold startTime_or_now. apply respects_then.
  - apply respects_Date_now.
  - intros now. apply respects_resolve.
Qed.

Lemma respects_waitForActive_fuel (serviceName : string) (fuel : nat) :
  ∀ startTime, respects (waitForActive_fuel fuel self serviceName startTime).
Proof.
  induction fuel as [| fuel IH]; intros startTime.
  - intros w1 w2 H. simpl. auto.
  - cbn [waitForActive_fuel]. unfold waitForActive_body.
    apply respects_then; [apply respects_startTime_or_now | intros t0].
    apply respects_then; [apply respects_Date_now | intros now].
    destruct (t0 + Config.serviceActiveTimeout self <? now)%Z;
      [apply respects_ERROR |].
    apply respects_then; [apply respects_getService | intros svc].
    destruct (negb (Service.state svc =? "active")%string).
    + apply respects_then; [apply respects_LOG | intros _].
      apply respects_then; [apply respects_DELAY | intros _]. apply IH.
    + apply respects_then; [apply respects_LOG | intros _].
      apply respects_resolve.
Qed.

Lemma respects_waitForActive (serviceName : string) (startTime : option Z) :
  respects (waitForActive self serviceName startTime).
Proof.
  intros w1 w2 H. unfold waitForActive.
  destruct H as [Hc Hn]. rewrite <- Hn.
  apply respects_waitForActive_fuel. split; auto.
Qed.

Lemma respects_waitForUpgrade_fuel (serviceName : string) (fuel : nat) :
  ∀ startTime, respects (waitForUpgrade_fuel fuel self serviceName startTime).
Proof.
  induction fuel as [| fuel IH]; intros startTime.
  - intros w1 w2 H. simpl. auto.
  - cbn [waitForUpgrade_fuel]. unfold waitForUpgrade_body.
    apply respects_then; [apply respects_startTime_or_now | intros t0].
    apply respects_then; [apply respects_Date_now | intros now].
    destruct (t0 + Config.serviceUpgradedTimeout self <? now)%Z;
      [apply respects_ERROR |].
    apply respects_then; [apply respects_getService | intros svc].
    destruct (Service.state svc =? "upgrading")%string.
    + apply respects_then; [apply respects_LOG | intros _].
      apply respects_then; [apply respects_DELAY | intros _]. apply IH.
    + destruct (Service.state svc =? "upgraded")%string.
      * apply respects_then; [apply respects_LOG | intros _].
        apply respects_then; [apply respects_apiRequest | intros result].
        apply respects_then; [apply respects_LOG | intros _].
        apply respects_waitForActive.
      * apply respects_then; [apply respects_LOG | intros _].
        apply respects_ERROR.
Qed.

Lemma respects_waitForUpgrade (serviceName : string) (startTime : option Z) :
  respects (waitForUpgrade self serviceName startTime).
Proof.
  intros w1 w2 H. unfold waitForUpgrade.
  destruct H as [Hc Hn]. rewrite <- Hn.
  apply respects_waitForUpgrade_fuel. split; auto.
Qed.

(** X16.  The answer to the [finishupgrade] call is not looked at.  Take
    two runs of the upgraded-wait that differ only in that answer, be it a
    body or a failed call, arriving after the same time: once the service
    is seen "upgraded" both runs end in the same way. *)
Theorem finishupgrade_answer_is_ignored (serviceName : string)
    (startTime : option Z) (w1 w2 : World) (ex ex2 ex2' : Exchange)
    (rest : list Exchange) (svc : Service.t) (more : list Service.t)
    (url : string) :
  clock w1 = clock w2 →
  network w1 = ex :: ex2 :: rest →
  network w2 = ex :: ex2' :: rest →
  Z.max 0 (latency ex2) = Z.max 0 (latency ex2') →
  reply ex = ReplyBody (BCollection (svc :: more)) →
  clock w1 ≤ startTime_or startTime (clock w1)
             + Config.serviceUpgradedTimeout self →
  Service.state svc = "upgraded" →
  Service.actions svc !! "finishupgrade" = Some url →
  fst (waitForUpgrade self serviceName startTime w1)
  = fst (waitForUpgrade self serviceName startTime w2).
Proof.
  intros Hc Hn1 Hn2 Hlat Hr Hok Hstate Hurl.
  assert (Hok2 : clock w2 ≤ startTime_or startTime (clock w2)
                            + Config.serviceUpgradedTimeout self)
    by (rewrite <- Hc; exact Hok).
  rewrite (waitForUpgrade_turn self _ _ _ _ _ _ _ Hn1 Hr Hok).
  rewrite (waitForUpgrade_turn self _ _ _ _ _ _ _ Hn2 Hr Hok2).
  rewrite Hstate. cbn [String.eqb Ascii.eqb Bool.eqb andb].
  rewrite !LOG_then, Hurl.
  destruct (finalize_then_active self serviceName url
              (logged Stdout [LogStr "Service is upgraded. Finishing..."]
                 (answered w1 ex (ex2 :: rest)
                           (services_query self serviceName)))
              ex2 rest eq_refl) as (w3 & -> & Hnet & Hclock & _).
  destruct (finalize_then_active self serviceName url
              (logged Stdout [LogStr "Service is upgraded. Finishing..."]
                 (answered w2 ex (ex2' :: rest)
                           (services_query self serviceName)))
              ex2' rest eq_refl) as (w3' & -> & Hnet' & Hclock' & _).
  apply respects_waitForActive. split.
  - rewrite Hclock, Hclock'. autorewrite with world. lia.
  - rewrite Hnet, Hnet'. reflexivity.
Qed.
(** X17.  The body that answers the post of the upgrade is only logged.
    Take two sessions that differ only in that body, neither being empty,
    arriving after the same time: both end in the same way. *)
Theorem upgrade_answer_is_only_logged (options : Options.t)
    (name repo : string) (w1 w2 : World) (ex ex2 ex2' : Exchange)
    (rest : list Exchange) (svc : Service.t) (more : list Service.t)
    (url : string) (body body' : Body) :
  Options.serviceName options = Some name → name ≠ "" →
  Options.imageRepo options = Some repo → repo ≠ "" →
  clock w1 = clock w2 →
  network w1 = ex :: ex2 :: rest →
  network w2 = ex :: ex2' :: rest →
  Z.max 0 (latency ex2) = Z.max 0 (latency ex2') →
  reply ex = ReplyBody (BCollection (svc :: more)) →
  Service.actions svc !! "upgrade" = Some url →
  Service.state svc = "active" ∨ url ≠ "" →
  reply ex2 = ReplyBody body → body ≠ BNull →
  reply ex2' = ReplyBody body' → body' ≠ BNull →
  fst (inServiceUpgrade self (Some options) w1)
  = fst (inServiceUpgrade self (Some options) w2).
Proof.
  intros Hname Hname' Hrepo Hrepo' Hc Hn1 Hn2 Hlat Hr Hurl Hmay
         Hb Hbody Hb' Hbody'.
  erewrite !inServiceUpgrade_fetched by eassumption.
  assert (Hcond : negb (Service.state svc =? "active")%string
                  && negb (truthy (Service.actions svc !! "upgrade"))
                  = false).
  { apply andb_false_iff. destruct Hmay as [Hactive | Hurl'].
    - left. rewrite Hactive. reflexivity.
    - right. rewrite Hurl, truthy_Some by assumption. reflexivity. }
  rewrite Hcond. unfold submit, post. rewrite Hurl.
  destruct (prepared_trace options svc (fetched self name w1 ex (ex2 :: rest)))
    as (before1 & _ & _ & Hnet1 & Hclock1).
  destruct (prepared_trace options svc
              (fetched self name w2 ex (ex2' :: rest)))
    as (before2 & _ & _ & Hnet2 & Hclock2).
  assert (Hnet1' : network (prepared options svc
                              (fetched self name w1 ex (ex2 :: rest)))
                   = ex2 :: rest)
    by (rewrite Hnet1; unfold fetched; autorewrite with world; reflexivity).
  assert (Hnet2' : network (prepared options svc
                              (fetched self name w2 ex (ex2' :: rest)))
                   = ex2' :: rest)
    by (rewrite Hnet2; unfold fetched; autorewrite with world; reflexivity).
  erewrite then_fulfilled by (eapply _apiRequest_body; eassumption).
  erewrite (then_fulfilled
              (_apiRequest self (Some url) POST
                 (ParamsUpgrade (inServiceStrategy_for options svc))))
    by (eapply _apiRequest_body; eassumption).
  assert (Hlogged : ∀ state1 state2 wa wb,
             same_state wa wb →
             fst ((LOG [LogStr "Upgrading service..."; state1] ;;
                   waitForUpgrade self name None) wa)
             = fst ((LOG [LogStr "Upgrading service..."; state2] ;;
                     waitForUpgrade self name None) wb)).
  { intros state1 state2 wa wb [Hca Hna]. rewrite !LOG_then.
    apply respects_waitForUpgrade. split; autorewrite with world; auto. }
  assert (Hsame : same_state
                    (answered
                       (prepared options svc
                          (fetched self name w1 ex (ex2 :: rest)))
                       ex2 rest
                       (requestOptions_for self url POST
                          (ParamsUpgrade (inServiceStrategy_for options svc))))
                    (answered
                       (prepared options svc
                          (fetched self name w2 ex (ex2' :: rest)))
                       ex2' rest
                       (requestOptions_for self url POST
                          (ParamsUpgrade
                             (inServiceStrategy_for options svc))))).
  { split; autorewrite with world; [| reflexivity].
    rewrite Hclock1, Hclock2. unfold fetched. autorewrite with world. lia. }
  destruct body as [| text | data | rsvc]; [contradiction | | |];
    (destruct body' as [| text' | data' | rsvc']; [contradiction | | |]);
    cbn [result_state]; rewrite !then_resolve; apply Hlogged; exact Hsame.
Qed.
(** ** Requests: where they go and what they carry *)

Lemma prefix_split (p s : string) :
  String.prefix p s = true ↔ ∃ rest, s = p +:+ rest.
Proof.
  revert s. induction p as [| a p IH]; intros s.
  - split; [intros _; exists s; reflexivity | intros _].
    destruct s; reflexivity.
  - destruct s as [| b s]; simpl.
    + split; [discriminate | intros [rest Hrest]; discriminate Hrest].
    + destruct (Ascii.ascii_dec a b) as [<- | Hne].
      * rewrite IH. split; intros [rest Hrest]; exists rest.
        -- rewrite Hrest. reflexivity.
        -- injection Hrest as ->. reflexivity.
      * split; [discriminate | intros [rest Hrest]].
        injection Hrest as Hab _. congruence.
Qed.

(** X18.  Where a call goes.  A path that starts with [http://] or
    [https://], such as the action references the platform hands out, is
    requested as it is; any other path is requested below the endpoint of
    the instance. *)
Theorem requests_resolve_paths (path : string) (method : Method)
    (params : Params) :
  let uri := RequestOptions.uri
               (requestOptions_for self path method params) in
  let absolute_url :=
    ∃ rest, path = "http://" +:+ rest ∨ path = "https://" +:+ rest in
  (absolute_url → uri = path)
  ∧ (¬ absolute_url → uri = Config.endpoint self +:+ "/" +:+ path).
Proof.
  intros uri absolute_url.
  assert (Habs : absolute path = true ↔ absolute_url).
  { unfold absolute, absolute_url. rewrite orb_true_iff, !prefix_split.
    split.
    - intros [[rest H] | [rest H]]; exists rest; auto.
    - intros [rest [H | H]]; [left | right]; exists rest; exact H. }
  assert (Huri : uri = if absolute path then path
                       else Config.endpoint self +:+ "/" +:+ path).
  { unfold uri, requestOptions_for. destruct method; reflexivity. }
  rewrite Huri. split.
  - intros H. apply Habs in H. rewrite H. reflexivity.
  - intros H. destruct (absolute path) eqn:E; [| reflexivity].
    exfalso. apply H, Habs. reflexivity.
Qed.

Lemma requestOptions_well_formed (path : string) (method : Method)
    (params : Params) :
  RequestOptions.method (requestOptions_for self path method params) = method
  ∧ well_formed self params (requestOptions_for self path method params).
Proof.
  unfold well_formed, requestOptions_for.
  destruct method; cbn; repeat split; reflexivity.
Qed.

(** X19.  Every request of a session carries the key and the secret of the
    instance and asks for JSON.  A GET is a lookup: its query string is the
    name of the service of the request and it has no body.  A POST has no
    query string; its body is the empty object (the post of
    [finishupgrade]) or the strategy built from the options and the service
    the first lookup found (the post of the upgrade). *)
Theorem inServiceUpgrade_requests_well_formed (options : option Options.t)
    (w : World) (out : Outcome Service.t) (w' : World) :
  inServiceUpgrade self options w = (out, w') →
  ∃ new,
    trace w' = trace w ++ new
    ∧ Forall
        (fun req =>
           ∃ o name,
             options = Some o
             ∧ Options.serviceName o = Some name
             ∧ match RequestOptions.method req with
               | GET => well_formed self (ParamsName name) req
               | POST =>
                   well_formed self ParamsEmpty req
                   ∨ ∃ svc,
                       looked_up (network w) 0 = Some svc
                       ∧ well_formed self
                           (ParamsUpgrade (inServiceStrategy_for o svc)) req
               end)
        (requests new).
Proof.
  intros Hrun.
  destruct (inServiceUpgrade_session _ _ _ _ Hrun)
    as (new & Hnew & _ & Hnone & Hshape).
  exists new. split; [exact Hnew |].
  destruct (options_valid_or_not options)
    as [(o & name & repo & -> & Hname & Hname' & Hrepo & Hrepo') | Hmissing];
    [| rewrite (Hnone Hmissing); constructor].
  destruct (Hshape o name repo eq_refl Hname Hname' Hrepo Hrepo')
    as (rest & -> & Hrest).
  assert (Hquery : ∃ o0 name0,
             Some o = Some o0
             ∧ Options.serviceName o0 = Some name0
             ∧ match RequestOptions.method (services_query self name) with
               | GET => well_formed self (ParamsName name0)
                          (services_query self name)
               | POST =>
                   well_formed self ParamsEmpty (services_query self name)
                   ∨ ∃ svc,
                       looked_up (network w) 0 = Some svc
                       ∧ well_formed self
                           (ParamsUpgrade (inServiceStrategy_for o0 svc))
                           (services_query self name)
               end).
  { exists o, name. split; [reflexivity |]. split; [exact Hname |].
    apply requestOptions_well_formed. }
  assert (Hfinish : ∀ url,
             ∃ o0 name0,
               Some o = Some o0
               ∧ Options.serviceName o0 = Some name0
               ∧ match RequestOptions.method
                         (requestOptions_for self url POST ParamsEmpty) with
                 | GET => well_formed self (ParamsName name0)
                            (requestOptions_for self url POST ParamsEmpty)
                 | POST =>
                     well_formed self ParamsEmpty
                       (requestOptions_for self url POST ParamsEmpty)
                     ∨ ∃ svc,
                         looked_up (network w) 0 = Some svc
                         ∧ well_formed self
                             (ParamsUpgrade (inServiceStrategy_for o0 svc))
                             (requestOptions_for self url POST ParamsEmpty)
                 end).
  { intros url. exists o, name. split; [reflexivity |].
    split; [exact Hname |].
    destruct (requestOptions_well_formed url POST ParamsEmpty) as [-> Hwf].
    left. exact Hwf. }
  constructor; [exact Hquery |].
  destruct Hrest
    as [[-> _] | (svc & Hsvc & url & polls & tail & k & entered & _ & ->
                  & Hpolls & _ & _ & _ & Htail)];
    [constructor |].
  constructor.
  { exists o, name. split; [reflexivity |]. split; [exact Hname |].
    destruct (requestOptions_well_formed url POST
                (ParamsUpgrade (inServiceStrategy_for o svc))) as [-> Hwf].
    right. exists svc. split; [exact Hsvc | exact Hwf]. }
  apply Forall_app. split.
  - rewrite Hpolls. apply Forall_replicate. exact Hquery.
  - destruct Htail
      as [[-> _] | (j & svc' & url' & t & e & act & m & _ & _ & _ & _ & -> & _
                    & Hact & _)];
      [constructor |].
    rewrite requests_cons_request, Hact.
    constructor; [apply Hfinish |].
    apply Forall_replicate. exact Hquery.
Qed.

(** ** Failures are reported *)

Lemma reports_resolve {A} (a : A) : reports (resolve a).
Proof. intros w msg w' H. discriminate H. Qed.

Lemma reports_then {A B} (p : Promise A) (f : A → Promise B) :
  reports p → (∀ a, reports (f a)) → reports (then_ p f).
Proof.
  intros Hp Hf w msg w'. unfold then_.
  destruct (p w) as [[a | r |] w1] eqn:Hrun.
  - apply Hf.
  - intros [= -> ->]. apply (Hp _ _ _ Hrun).
  - discriminate.
Qed.

Lemma reports_LOG (args : list LogArg) : reports (LOG args).
Proof. intros w msg w' H. discriminate H. Qed.

Lemma reports_DELAY (time : Z) : reports (DELAY time).
Proof. intros w msg w' H. discriminate H. Qed.

Lemma reports_ERROR {A} (msg : string) (more : list LogArg) :
  reports (@ERROR A msg more).
Proof.
  intros w msg' w'. rewrite ERROR_run. intros [= <- <-].
  rewrite trace_logged. eauto.
Qed.

Lemma reports_apiRequest (path : option string) (method : Method)
    (params : Params) : reports (_apiRequest self path method params).
Proof.
  intros w msg w' H. destruct path as [path |]; [| discriminate H].
  apply _apiRequest_inv in H as [_ []].
Qed.

Lemma reports_getService (name : string) : reports (getService self name).
Proof.
  unfold getService, get. apply reports_then; [apply reports_apiRequest |].
  intros [[| text | [| svc more] | rsvc] |];
    first [apply reports_resolve | apply reports_ERROR].
Qed.

Lemma reports_startTime_or_now (startTime : option Z) :
  reports (startTime_or_now startTime).
Proof. intros w msg w' H. discriminate H. Qed.

Lemma reports_Date_now : reports Date_now.
Proof. intros w msg w' H. discriminate H. Qed.

Lemma reports_waitForActive (serviceName : string)
    (startTime : option Z) :
  reports (waitForActive self serviceName startTime).
Proof.
  assert (Hfuel : ∀ fuel st,
             reports (waitForActive_fuel fuel self serviceName st)).
  { induction fuel as [| fuel IH]; intros st.
    - intros w msg w' H. discriminate H.
    - cbn [waitForActive_fuel]. unfold waitForActive_body.
      apply reports_then; [apply reports_startTime_or_now | intros t0].
      apply reports_then; [apply reports_Date_now | intros now].
      destruct (t0 + Config.serviceActiveTimeout self <? now)%Z;
        [apply reports_ERROR |].
      apply reports_then; [apply reports_getService | intros svc].
      destruct (negb (Service.state svc =? "active")%string).
      + apply reports_then; [apply reports_LOG | intros _].
        apply reports_then; [apply reports_DELAY | intros _]. apply IH.
      + apply reports_then; [apply reports_LOG | intros _].
        apply reports_resolve. }
  intros w. apply Hfuel.
Qed.

Lemma reports_waitForUpgrade (serviceName : string)
    (startTime : option Z) :
  reports (waitForUpgrade self serviceName startTime).
Proof.
  assert (Hfuel : ∀ fuel st,
             reports (waitForUpgrade_fuel fuel self serviceName st)).
  { induction fuel as [| fuel IH]; intros st.
    - intros w msg w' H. discriminate H.
    - cbn [waitForUpgrade_fuel]. unfold waitForUpgrade_body.
      apply reports_then; [apply reports_startTime_or_now | intros t0].
      apply reports_then; [apply reports_Date_now | intros now].
      destruct (t0 + Config.serviceUpgradedTimeout self <? now)%Z;
        [apply reports_ERROR |].
      apply reports_then; [apply reports_getService | intros svc].
      destruct (Service.state svc =? "upgrading")%string.
      + apply reports_then; [apply reports_LOG | intros _].
        apply reports_then; [apply reports_DELAY | intros _]. apply IH.
      + destruct (Service.state svc =? "upgraded")%string.
        * apply reports_then; [apply reports_LOG | intros _].
          apply reports_then; [apply reports_apiRequest | intros result].
          apply reports_then; [apply reports_LOG | intros _].
          apply reports_waitForActive.
        * apply reports_then; [apply reports_LOG | intros _].
          apply reports_ERROR. }
  intros w. apply Hfuel.
Qed.

(** X20.  No failure with a message goes unreported: whenever a session, or
    one of the two waits called on its own, is rejected with a message, the
    last thing it did was to write that message to the error console, with
    the time in front. *)
Theorem failures_are_on_the_error_console :
  (∀ options w msg w',
     inServiceUpgrade self options w = (Rejected (Message msg), w') →
     ∃ before t more,
       trace w'
       = before ++ [EvConsole Stderr (LogTime t :: LogStr msg :: more)])
  ∧ (∀ serviceName startTime w msg w',
       waitForUpgrade self serviceName startTime w
       = (Rejected (Message msg), w') →
       ∃ before t more,
         trace w'
         = before ++ [EvConsole Stderr (LogTime t :: LogStr msg :: more)])
  ∧ (∀ serviceName startTime w msg w',
       waitForActive self serviceName startTime w
       = (Rejected (Message msg), w') →
       ∃ before t more,
         trace w'
         = before ++ [EvConsole Stderr (LogTime t :: LogStr msg :: more)]).
Proof.
  split; [| split].
  - intros options. change (reports (inServiceUpgrade self options)).
    unfold inServiceUpgrade.
    destruct (negb (truthy (Options.serviceName
                (default (Options.mk None None None None None None None)
                         options)))); [apply reports_ERROR |].
    destruct (negb (truthy (Options.imageRepo
                (default (Options.mk None None None None None None None)
                         options)))); [apply reports_ERROR |].
    cbv zeta.
    apply reports_then; [apply reports_LOG | intros _].
    apply reports_then.
    + apply reports_then; [apply reports_getService | intros svc].
      apply reports_then; [apply reports_LOG | intros _].
      destruct (negb (Service.state svc =? "active")%string
                && negb (truthy (Service.actions svc !! "upgrade")));
        [apply reports_ERROR |].
      apply reports_then;
        [destruct (negb (Service.state svc =? "active")%string);
         [apply reports_LOG | apply reports_resolve] | intros _].
      apply reports_then; [apply reports_LOG | intros _].
      apply reports_then; [apply reports_LOG | intros _].
      apply reports_apiRequest.
    + intros result.
      apply reports_then.
      * destruct result as [[| text | data | rsvc] |];
          first [apply reports_resolve
                | intros w msg w' H; discriminate H].
      * intros state.
        apply reports_then; [apply reports_LOG | intros _].
        apply reports_waitForUpgrade.
  - intros serviceName startTime. apply reports_waitForUpgrade.
  - intros serviceName startTime. apply reports_waitForActive.
Qed.
End Further.

(** * The code on the scenario *)

Ltac concrete :=
  first [ apply surjective_pairing
        | vm_compute; reflexivity
        | vm_compute; discriminate
        | discriminate ].

(** [Scenario.api] is what the constructor makes of an endpoint and a key
    pair: the poll interval and both timeouts take their defaults. *)
Example api_constructed :
  constructor
    (Some (ConstructorOptions.mk (Some "https://rancher.local/v1")
             (Some "key") (Some "secret") None None None))
  = inr Scenario.api.
Proof. reflexivity. Qed.

(** The end-to-end run of the spec: one upgrade posted with the new image,
    one [finishupgrade], and the active service as the result. *)
Example smooth_session :
  let run := inServiceUpgrade Scenario.api (Some Scenario.request_v2)
                              Scenario.smooth in
  fst run = Fulfilled (Scenario.web "active")
  ∧ map RequestOptions.uri (posts (trace (snd run)))
    = [Scenario.upgrade_url; Scenario.finish_url]
  ∧ map (fun s => LaunchConfig.imageUuid (InServiceStrategy.launchConfig s))
        (submitted (requests (trace (snd run))))
    = ["docker:org/app:v2"]
  ∧ length (requests (trace (snd run))) = 7%nat.
Proof. vm_compute. repeat split; reflexivity. Qed.

(** A poll interval of 2^31 ms does not fit the timer, which then runs for
    1 ms: the next lookup starts 1 ms after the answer to the last one (the
    answers take 40 ms), and the wait goes through the three answers well
    within its 180000 ms instead of timing out at its second turn. *)
Example interval_beyond_TIMEOUT_MAX :
  let w := Scenario.at_noon [Scenario.found (Scenario.web "upgraded");
                             Scenario.found (Scenario.web "upgraded");
                             Scenario.found (Scenario.web "active")] in
  let run := waitForActive Scenario.hasty "web" None w in
  fst run = Fulfilled (Scenario.web "active")
  ∧ request_times (trace (snd run))
    = [clock w; clock w + 41; clock w + 82].
Proof. vm_compute. split; reflexivity. Qed.

(** C1, counterexample.  The poll tick observes "upgraded" on a descriptor
    that offers no [finishupgrade] action: no finishupgrade is invoked and
    the session does not proceed to the active-wait.  It fails with a
    TypeError after the lookup, leaving the answer that would have served
    the next call unused. *)
Lemma upgraded_without_finishupgrade_is_not_finalized :
  let run := waitForUpgrade Scenario.api "web" None
               (Scenario.at_noon [Scenario.found (Scenario.stuck "upgraded");
                                  Scenario.found (Scenario.web "active")]) in
  Service.state (Scenario.stuck "upgraded") = "upgraded"
  ∧ (∃ detail, fst run = Rejected (TypeError detail))
  ∧ posts (trace (snd run)) = []
  ∧ requests (trace (snd run)) = [services_query Scenario.api "web"]
  ∧ network (snd run) = [Scenario.found (Scenario.web "active")].
Proof.
  split; [reflexivity |]. split; [eexists; vm_compute; reflexivity |].
  vm_compute. repeat split; reflexivity.
Qed.

(** C2, counterexample.  The [finishupgrade] call is refused by the
    transport, and the session still ends well, with the active service; a
    refused first fetch fails the session, but with NotFoundError, not with
    the error of the transport. *)
Lemma transport_error_not_propagated :
  In Scenario.refused (network Scenario.finalize_refused)
  ∧ (let run := inServiceUpgrade Scenario.api (Some Scenario.request_v2)
                                 Scenario.finalize_refused in
     fst run = Fulfilled (Scenario.web "active") ∧ network (snd run) = [])
  ∧ (let run := inServiceUpgrade Scenario.api (Some Scenario.request_v2)
                                 (Scenario.at_noon [Scenario.refused]) in
     fst run = Rejected NotFoundError
     ∧ NotFoundError ≠ RequestError "ECONNREFUSED").
Proof.
  split; [| split].
  - simpl. tauto.
  - vm_compute. split; reflexivity.
  - vm_compute. split; [reflexivity | discriminate].
Qed.

(** C6, counterexample.  The request carries [imageTag: ""]; the uuid that
    is posted is ["docker:org/app"], not ["docker:org/app:"]. *)
Lemma empty_imageTag_is_dropped :
  let run := inServiceUpgrade Scenario.api (Some Scenario.request_empty_tag)
                              Scenario.smooth in
  Options.imageTag Scenario.request_empty_tag = Some ""
  ∧ map (fun s => LaunchConfig.imageUuid (InServiceStrategy.launchConfig s))
        (submitted (requests (trace (snd run))))
    = ["docker:org/app"]
  ∧ "docker:org/app" ≠ "docker:" +:+ "org/app" +:+ ":" +:+ "".
Proof.
  split; [reflexivity |]. split; [vm_compute; reflexivity | discriminate].
Qed.

(** C9, counterexample.  The refetch of the active-wait finds no service:
    the phase fails, and not with TimeoutError. *)
Lemma waitForActive_fails_without_timeout :
  let run := waitForActive Scenario.api "web" None
                           (Scenario.at_noon [Scenario.nothing]) in
  fst run = Rejected NotFoundError
  ∧ NotFoundError ≠ TimeoutError_active.
Proof. vm_compute. split; [reflexivity | discriminate]. Qed.

(** * Witnesses *)

Lemma getService_first_match_witness :
  ∃ w',
    getService Scenario.api "web"
      (Scenario.at_noon [Scenario.found (Scenario.web "active")])
    = (Fulfilled (Scenario.web "active"), w')
    ∧ network w' = []
    ∧ requests (trace w') = [services_query Scenario.api "web"].
Proof.
  exact (getService_first_match Scenario.api "web"
           (Scenario.at_noon [Scenario.found (Scenario.web "active")])
           (Scenario.found (Scenario.web "active")) [] eq_refl).
Defined.

Lemma inServiceUpgrade_validates_witness :
  ∃ r w',
    inServiceUpgrade Scenario.api (Some Scenario.request_unnamed)
                     Scenario.smooth = (Rejected r, w')
    ∧ ValidationError r
    ∧ requests (trace w') = requests (trace Scenario.smooth)
    ∧ network w' = network Scenario.smooth.
Proof.
  apply (inServiceUpgrade_validates Scenario.api
           (Some Scenario.request_unnamed) Scenario.smooth).
  left. reflexivity.
Defined.

Lemma waitForUpgrade_classifies_witness :
  (∃ w3,
     waitForUpgrade Scenario.api "web" None
       (Scenario.at_noon [Scenario.found (Scenario.web "upgraded");
                          Scenario.accepted (Scenario.web "active");
                          Scenario.found (Scenario.web "active")])
     = waitForActive Scenario.api "web" None w3
     ∧ network w3 = [Scenario.found (Scenario.web "active")]
     ∧ requests (trace w3)
       = [services_query Scenario.api "web";
          requestOptions_for Scenario.api Scenario.finish_url POST
                             ParamsEmpty])
  ∧ (∃ w',
       waitForUpgrade Scenario.api "web" None
         (Scenario.at_noon [Scenario.found (Scenario.web "rolling-back");
                            Scenario.found (Scenario.web "active")])
       = (Rejected (UnexpectedStateError "rolling-back"), w')
       ∧ network w' = [Scenario.found (Scenario.web "active")]
       ∧ requests (trace w') = [services_query Scenario.api "web"])
  ∧ (∃ detail w',
       waitForUpgrade Scenario.api "web" None
         (Scenario.at_noon [Scenario.found (Scenario.stuck "upgraded");
                            Scenario.found (Scenario.web "active")])
       = (Rejected (TypeError detail), w')
       ∧ network w' = [Scenario.found (Scenario.web "active")]
       ∧ requests (trace w') = [services_query Scenario.api "web"]).
Proof.
  split; [| split].
  - destruct (waitForUpgrade_classifies Scenario.api "web" None
                (Scenario.at_noon [Scenario.found (Scenario.web "upgraded");
                                   Scenario.accepted (Scenario.web "active");
                                   Scenario.found (Scenario.web "active")])
                (Scenario.found (Scenario.web "upgraded"))
                [Scenario.accepted (Scenario.web "active");
                 Scenario.found (Scenario.web "active")]
                (Scenario.web "upgraded") [] eq_refl eq_refl)
      as (_ & Hupgraded & _); [concrete |].
    exact (proj2 (Hupgraded eq_refl Scenario.finish_url eq_refl)
                 _ _ eq_refl).
  - destruct (waitForUpgrade_classifies Scenario.api "web" None
                (Scenario.at_noon [Scenario.found (Scenario.web "rolling-back");
                                   Scenario.found (Scenario.web "active")])
                (Scenario.found (Scenario.web "rolling-back"))
                [Scenario.found (Scenario.web "active")]
                (Scenario.web "rolling-back") [] eq_refl eq_refl)
      as (_ & _ & _ & Hother); [concrete |].
    apply Hother; discriminate.
  - destruct (waitForUpgrade_classifies Scenario.api "web" None
                (Scenario.at_noon [Scenario.found (Scenario.stuck "upgraded");
                                   Scenario.found (Scenario.web "active")])
                (Scenario.found (Scenario.stuck "upgraded"))
                [Scenario.found (Scenario.web "active")]
                (Scenario.stuck "upgraded") [] eq_refl eq_refl)
      as (_ & _ & Hnoaction & _); [concrete |].
    apply Hnoaction; reflexivity.
Defined.

Lemma failed_call_is_logged_not_retried_witness :
  ∃ w',
    inServiceUpgrade Scenario.api (Some Scenario.request_v2)
                     (Scenario.at_noon [Scenario.refused])
    = (Rejected NotFoundError, w')
    ∧ network w' = []
    ∧ requests (trace w')
      = requests (trace (Scenario.at_noon [Scenario.refused]))
        ++ [services_query Scenario.api "web"].
Proof.
  destruct (failed_call_is_logged_not_retried Scenario.api
              (Scenario.at_noon [Scenario.refused]) Scenario.refused []
              "ECONNREFUSED" eq_refl eq_refl) as (_ & Hfetch & _).
  apply (Hfetch Scenario.request_v2 "web" "org/app"); concrete.
Defined.


Lemma inServiceUpgrade_precondition_witness :
  (∃ w',
     inServiceUpgrade Scenario.api (Some Scenario.request_v2)
       (Scenario.at_noon [Scenario.found (Scenario.stuck "inactive")])
     = (Rejected (PreconditionError "inactive"), w')
     ∧ network w' = []
     ∧ requests (trace w') = [services_query Scenario.api "web"])
  ∧ (let run := inServiceUpgrade Scenario.api (Some Scenario.request_v2)
                  (Scenario.at_noon
                     [Scenario.found (Scenario.web "degraded");
                      Scenario.accepted (Scenario.web "upgrading")]) in
     ∃ later,
       requests (trace (snd run))
       = services_query Scenario.api "web"
         :: requestOptions_for Scenario.api Scenario.upgrade_url POST
              (ParamsUpgrade
                 (inServiceStrategy_for Scenario.request_v2
                                        (Scenario.web "degraded")))
         :: later).
Proof.
  split.
  - refine (proj1 (inServiceUpgrade_precondition Scenario.api
                     Scenario.request_v2 "web" "org/app"
                     (Scenario.at_noon
                        [Scenario.found (Scenario.stuck "inactive")])
                     (Scenario.found (Scenario.stuck "inactive")) []
                     (Scenario.stuck "inactive") []
                     eq_refl _ eq_refl _ eq_refl eq_refl _) eq_refl);
      discriminate.
  - intros run.
    refine (proj1 (proj2 (inServiceUpgrade_precondition Scenario.api
                     Scenario.request_v2 "web" "org/app"
                     (Scenario.at_noon
                        [Scenario.found (Scenario.web "degraded");
                         Scenario.accepted (Scenario.web "upgrading")])
                     (Scenario.found (Scenario.web "degraded"))
                     [Scenario.accepted (Scenario.web "upgrading")]
                     (Scenario.web "degraded") []
                     eq_refl _ eq_refl _ eq_refl eq_refl _)
                   Scenario.upgrade_url (fst run) (snd run) eq_refl _ _));
      concrete.
Defined.

Lemma inServiceUpgrade_imageUuid_witness :
  let run := inServiceUpgrade Scenario.api (Some Scenario.request_v2)
                              Scenario.smooth in
  ∃ strategy later,
    requests (trace (snd run))
    = requests (trace Scenario.smooth)
      ++ services_query Scenario.api "web"
      :: requestOptions_for Scenario.api Scenario.upgrade_url POST
           (ParamsUpgrade strategy)
      :: later
    ∧ LaunchConfig.imageUuid (InServiceStrategy.launchConfig strategy)
      = "docker:org/app:v2".
Proof.
  intros run.
  destruct (inServiceUpgrade_imageUuid Scenario.api Scenario.request_v2
              "web" "org/app" Scenario.smooth
              (Scenario.found (Scenario.web "active"))
              (List.tl (network Scenario.smooth))
              (Scenario.web "active") [] Scenario.upgrade_url
              (fst run) (snd run))
    as (strategy & later & Hreqs & _ & Htagged);
    [concrete | concrete | concrete | concrete | concrete | concrete
     | concrete | left; reflexivity | concrete |].
  exists strategy, later. split; [exact Hreqs |].
  apply (Htagged "v2"); concrete.
Defined.

Lemma inServiceUpgrade_merges_environment_witness :
  let run := inServiceUpgrade Scenario.api (Some Scenario.request_v2)
                              Scenario.smooth in
  ∃ strategy later merged,
    requests (trace (snd run))
    = requests (trace Scenario.smooth)
      ++ services_query Scenario.api "web"
      :: requestOptions_for Scenario.api Scenario.upgrade_url POST
           (ParamsUpgrade strategy)
      :: later
    ∧ LaunchConfig.environment (InServiceStrategy.launchConfig strategy)
      = Some merged
    ∧ merged !! "A" = Some (JNum 1)
    ∧ merged !! "B" = Some (JNum 3)
    ∧ merged !! "C" = Some (JNum 4).
Proof.
  intros run.
  destruct (inServiceUpgrade_merges_environment Scenario.api
              Scenario.request_v2 "web" "org/app" Scenario.smooth
              (Scenario.found (Scenario.web "active"))
              (List.tl (network Scenario.smooth))
              (Scenario.web "active") [] Scenario.upgrade_url
              (fst run) (snd run))
    as (strategy & later & merged & Hreqs & Henv & _ & Hwins & Hkept);
    [concrete | concrete | concrete | concrete | concrete | concrete
     | concrete | left; reflexivity | concrete |].
  exists strategy, later, merged.
  split; [exact Hreqs |]. split; [exact Henv |].
  split; [| split].
  - rewrite (Hkept "A"); concrete.
  - apply (Hwins "B"). concrete.
  - apply (Hwins "C"). concrete.
Defined.

Lemma inServiceUpgrade_keeps_supplied_options_witness :
  let run := inServiceUpgrade Scenario.api (Some Scenario.request_zeroes)
                              Scenario.smooth in
  ∃ strategy later,
    requests (trace (snd run))
    = requests (trace Scenario.smooth)
      ++ services_query Scenario.api "web"
      :: requestOptions_for Scenario.api Scenario.upgrade_url POST
           (ParamsUpgrade strategy)
      :: later
    ∧ InServiceStrategy.batchSize strategy = 0
    ∧ InServiceStrategy.intervalMillis strategy = 0
    ∧ InServiceStrategy.startFirst strategy = false.
Proof.
  intros run.
  apply (inServiceUpgrade_keeps_supplied_options Scenario.api
           Scenario.request_zeroes "web" "org/app" Scenario.smooth
           (Scenario.found (Scenario.web "active"))
           (List.tl (network Scenario.smooth))
           (Scenario.web "active") [] Scenario.upgrade_url
           (fst run) (snd run));
    first [ concrete | left; reflexivity ].
Defined.

Lemma waitForActive_classifies_witness :
  let w := Scenario.at_noon [Scenario.found (Scenario.web "active")] in
  waitForActive Scenario.api "web" None w
  = (Fulfilled (Scenario.web "active"),
     logged Stdout [LogStr "Upgrade succeded!"]
       (answered w (Scenario.found (Scenario.web "active")) []
                 (services_query Scenario.api "web"))).
Proof.
  intros w.
  apply (proj1 (waitForActive_classifies Scenario.api "web" None w)
           (Scenario.found (Scenario.web "active")) []
           (Scenario.web "active") []); concrete.
Defined.

(** * Witnesses of the further properties *)

Lemma constructor_needs_credentials_witness :
  constructor
    (Some (ConstructorOptions.mk (Some "https://rancher.local/v1")
             (Some "key") (Some "secret") None (Some 5000) None))
  = inr (Config.mk "https://rancher.local/v1" "key" "secret"
                   20000 5000 180000).
Proof.
  apply (proj2 (constructor_needs_credentials
                  (Some (ConstructorOptions.mk
                           (Some "https://rancher.local/v1")
                           (Some "key") (Some "secret") None (Some 5000)
                           None))
                  (Config.mk "https://rancher.local/v1" "key" "secret"
                             20000 5000 180000))).
  eexists. repeat split; discriminate.
Defined.

Lemma inServiceUpgrade_not_found_witness :
  ∃ w',
    inServiceUpgrade Scenario.api (Some Scenario.request_v2)
                     (Scenario.at_noon [Scenario.nothing])
    = (Rejected NotFoundError, w')
    ∧ network w' = []
    ∧ requests (trace w')
      = requests (trace (Scenario.at_noon [Scenario.nothing]))
        ++ [services_query Scenario.api "web"].
Proof.
  apply (inServiceUpgrade_not_found Scenario.api Scenario.request_v2
           "web" "org/app" (Scenario.at_noon [Scenario.nothing])
           Scenario.nothing []); concrete.
Defined.

Lemma inServiceUpgrade_active_without_action_witness :
  let w := Scenario.at_noon [Scenario.found (Scenario.stuck "active")] in
  ∃ detail w',
    inServiceUpgrade Scenario.api (Some Scenario.request_v2) w
    = (Rejected (TypeError detail), w')
    ∧ network w' = []
    ∧ requests (trace w')
      = requests (trace w) ++ [services_query Scenario.api "web"].
Proof.
  intros w.
  apply (inServiceUpgrade_active_without_action Scenario.api
           Scenario.request_v2 "web" "org/app" w
           (Scenario.found (Scenario.stuck "active")) []
           (Scenario.stuck "active") []); concrete.
Defined.

Lemma inServiceUpgrade_submit_unanswered_witness :
  let w := Scenario.at_noon [Scenario.found (Scenario.web "active");
                             Scenario.refused;
                             Scenario.found (Scenario.web "upgraded")] in
  ∃ detail w',
    inServiceUpgrade Scenario.api (Some Scenario.request_v2) w
    = (Rejected (TypeError detail), w')
    ∧ network w' = [Scenario.found (Scenario.web "upgraded")]
    ∧ requests (trace w')
      = requests (trace w)
        ++ [services_query Scenario.api "web";
            requestOptions_for Scenario.api Scenario.upgrade_url POST
              (ParamsUpgrade
                 (inServiceStrategy_for Scenario.request_v2
                                        (Scenario.web "active")))].
Proof.
  intros w.
  apply (inServiceUpgrade_submit_unanswered Scenario.api
           Scenario.request_v2 "web" "org/app" w
           (Scenario.found (Scenario.web "active")) Scenario.refused
           [Scenario.found (Scenario.web "upgraded")]
           (Scenario.web "active") [] Scenario.upgrade_url);
    first [ concrete
          | left; reflexivity
          | left; exists "ECONNREFUSED"; reflexivity ].
Defined.

Lemma inServiceUpgrade_keeps_environment_witness :
  let run := inServiceUpgrade Scenario.api (Some Scenario.request_untagged)
                              Scenario.smooth in
  ∃ strategy later,
    requests (trace (snd run))
    = requests (trace Scenario.smooth)
      ++ services_query Scenario.api "web"
      :: requestOptions_for Scenario.api Scenario.upgrade_url POST
           (ParamsUpgrade strategy)
      :: later
    ∧ LaunchConfig.environment (InServiceStrategy.launchConfig strategy)
      = Some {[ "A" := JNum 1; "B" := JNum 2 ]}.
Proof.
  intros run.
  destruct (inServiceUpgrade_keeps_environment Scenario.api
              Scenario.request_untagged "web" "org/app" Scenario.smooth
              (Scenario.found (Scenario.web "active"))
              (List.tl (network Scenario.smooth))
              (Scenario.web "active") [] Scenario.upgrade_url
              (fst run) (snd run))
    as (strategy & later & Hreqs & Hkept & _);
    [concrete | concrete | concrete | concrete | concrete | concrete
     | concrete | left; reflexivity | concrete |].
  exists strategy, later. split; [exact Hreqs |].
  apply Hkept. left. reflexivity.
Defined.

Lemma inServiceUpgrade_passes_through_witness :
  let run := inServiceUpgrade Scenario.api (Some Scenario.request_v2)
                              Scenario.smooth in
  ∃ strategy later,
    requests (trace (snd run))
    = requests (trace Scenario.smooth)
      ++ services_query Scenario.api "web"
      :: requestOptions_for Scenario.api Scenario.upgrade_url POST
           (ParamsUpgrade strategy)
      :: later
    ∧ InServiceStrategy.secondaryLaunchConfigs strategy = []
    ∧ LaunchConfig.others (InServiceStrategy.launchConfig strategy) = ∅.
Proof.
  intros run.
  apply (inServiceUpgrade_passes_through Scenario.api
           Scenario.request_v2 "web" "org/app" Scenario.smooth
           (Scenario.found (Scenario.web "active"))
           (List.tl (network Scenario.smooth))
           (Scenario.web "active") [] Scenario.upgrade_url
           (fst run) (snd run));
    first [ concrete | left; reflexivity ].
Defined.

Lemma inServiceUpgrade_outcome_witness :
  let run := inServiceUpgrade Scenario.api (Some Scenario.request_v2)
                              Scenario.smooth in
  match fst run with
  | Fulfilled svc => Service.state svc = "active"
  | Rejected r =>
      (ValidationError r
       ∨ (∃ state, r = PreconditionError state)
       ∨ wait_failure r)
      ∧ ∀ err, r ≠ RequestError err
  | Pending => network (snd run) = []
  end.
Proof.
  intros run.
  apply (inServiceUpgrade_outcome Scenario.api (Some Scenario.request_v2)
           Scenario.smooth (fst run) (snd run)).
  apply surjective_pairing.
Defined.

Lemma waitForActive_keeps_pace_witness :
  let w := Scenario.at_noon [Scenario.found (Scenario.web "upgraded");
                             Scenario.found (Scenario.web "active")] in
  let run := waitForActive Scenario.api "web" None w in
  ∃ new k,
    trace (snd run) = trace w ++ new
    ∧ requests new = replicate k (services_query Scenario.api "web")
    ∧ paced 20000 (clock w) (request_times new).
Proof.
  intros w run.
  pose proof (waitForActive_keeps_pace Scenario.api "web" None w) as H.
  cbv zeta in H. fold run in H.
  destruct H as (new & k & Hnew & Hreqs & _ & Hpaced).
  exists new, k. split; [exact Hnew |]. split; [exact Hreqs |].
  apply Hpaced. unfold TIMEOUT_MAX. simpl. lia.
Defined.

Lemma waitForActive_lookups_bounded_witness :
  let w := Scenario.at_noon [Scenario.found (Scenario.web "upgraded");
                             Scenario.found (Scenario.web "active")] in
  let run := waitForActive Scenario.api "web" None w in
  ∃ new,
    trace (snd run) = trace w ++ new
    ∧ (requests new = []
       ∨ clock w + (Z.of_nat (length (requests new)) - 1) * 20000
         ≤ clock w + 180000).
Proof.
  intros w run.
  apply (waitForActive_lookups_bounded Scenario.api "web" None w
           (fst run) (snd run)); concrete.
Defined.

Lemma waitForActive_settles_witness :
  fst (waitForActive Scenario.quick "web" None
         (Scenario.at_noon [Scenario.found (Scenario.web "upgraded");
                            Scenario.found (Scenario.web "upgraded")]))
  ≠ Pending.
Proof.
  apply (waitForActive_settles Scenario.quick "web" None
           (Scenario.at_noon [Scenario.found (Scenario.web "upgraded");
                              Scenario.found (Scenario.web "upgraded")])
           _ (snd (waitForActive Scenario.quick "web" None
                     (Scenario.at_noon
                        [Scenario.found (Scenario.web "upgraded");
                         Scenario.found (Scenario.web "upgraded")]))));
    concrete.
Defined.

Lemma waitForUpgrade_lookups_bounded_witness :
  let w := Scenario.at_noon [Scenario.found (Scenario.web "upgrading");
                             Scenario.found (Scenario.web "upgraded");
                             Scenario.accepted (Scenario.web "active");
                             Scenario.found (Scenario.web "active")] in
  let run := waitForUpgrade Scenario.api "web" None w in
  ∃ polls tail k,
    trace (snd run) = trace w ++ polls ++ tail
    ∧ requests polls = replicate k (services_query Scenario.api "web")
    ∧ paced 20000 (clock w) (request_times polls)
    ∧ (k = 0%nat
       ∨ clock w + (Z.of_nat k - 1) * 20000 ≤ clock w + 180000)
    ∧ ((tail = []
        ∧ ∀ j svc,
            k = S j →
            looked_up (network w) j = Some svc →
            Service.state svc = "upgraded" →
            Service.actions svc !! "finishupgrade" = None)
       ∨ ∃ j svc url t act,
           k = S j
           ∧ looked_up (network w) j = Some svc
           ∧ Service.state svc = "upgraded"
           ∧ Service.actions svc !! "finishupgrade" = Some url
           ∧ tail = EvRequest t
                      (requestOptions_for Scenario.api url POST ParamsEmpty)
                    :: act).
Proof.
  intros w run.
  apply (waitForUpgrade_lookups_bounded Scenario.api "web" None w
           (fst run) (snd run)); concrete.
Defined.

Lemma inServiceUpgrade_requests_in_order_witness :
  let run := inServiceUpgrade Scenario.api (Some Scenario.request_v2)
                              Scenario.smooth in
  ∃ new rest,
    trace (snd run) = trace Scenario.smooth ++ new
    ∧ requests new = services_query Scenario.api "web" :: rest
    ∧ ((rest = []
        ∧ ∀ svc url,
            looked_up (network Scenario.smooth) 0 = Some svc →
            Service.actions svc !! "upgrade" = Some url →
            url = "" ∧ Service.state svc ≠ "active")
       ∨ ∃ svc url k finish,
           looked_up (network Scenario.smooth) 0 = Some svc
           ∧ Service.actions svc !! "upgrade" = Some url
           ∧ rest
             = requestOptions_for Scenario.api url POST
                 (ParamsUpgrade
                    (inServiceStrategy_for Scenario.request_v2 svc))
               :: replicate k (services_query Scenario.api "web") ++ finish
           ∧ ((finish = []
               ∧ ∀ j svc',
                   k = S j →
                   looked_up (network Scenario.smooth) (S (S j)) = Some svc' →
                   Service.state svc' = "upgraded" →
                   Service.actions svc' !! "finishupgrade" = None)
              ∨ ∃ j svc' url' m,
                  k = S j
                  ∧ looked_up (network Scenario.smooth) (S (S j)) = Some svc'
                  ∧ Service.state svc' = "upgraded"
                  ∧ Service.actions svc' !! "finishupgrade" = Some url'
                  ∧ finish
                    = requestOptions_for Scenario.api url' POST ParamsEmpty
                      :: replicate m (services_query Scenario.api "web"))).
Proof.
  intros run.
  destruct (inServiceUpgrade_requests_in_order Scenario.api
              (Some Scenario.request_v2) Scenario.smooth (fst run) (snd run))
    as (new & Hnew & _ & Hvalid); [apply surjective_pairing |].
  assert (Hname : "web" ≠ "") by discriminate.
  assert (Hrepo : "org/app" ≠ "") by discriminate.
  destruct (Hvalid Scenario.request_v2 "web" "org/app"
              eq_refl eq_refl Hname eq_refl Hrepo)
    as (rest & Hrest).
  exists new, rest. split; [exact Hnew | exact Hrest].
Defined.

Lemma inServiceUpgrade_requests_bounded_witness :
  let run := inServiceUpgrade Scenario.api (Some Scenario.request_v2)
                              Scenario.smooth in
  ∃ new,
    trace (snd run) = trace Scenario.smooth ++ new
    ∧ Z.of_nat (length (requests new)) ≤ 180000 / 20000 + 180000 / 20000 + 5.
Proof.
  intros run.
  apply (inServiceUpgrade_requests_bounded Scenario.api
           (Some Scenario.request_v2) Scenario.smooth (fst run) (snd run));
    concrete.
Defined.

Lemma inServiceUpgrade_settles_witness :
  fst (inServiceUpgrade Scenario.quick (Some Scenario.request_v2)
                        Scenario.smooth) ≠ Pending.
Proof.
  apply (inServiceUpgrade_settles Scenario.quick (Some Scenario.request_v2)
           Scenario.smooth _
           (snd (inServiceUpgrade Scenario.quick (Some Scenario.request_v2)
                                  Scenario.smooth)));
    concrete.
Defined.

Lemma finishupgrade_answer_is_ignored_witness :
  fst (waitForUpgrade Scenario.api "web" None
         (Scenario.at_noon [Scenario.found (Scenario.web "upgraded");
                            Scenario.accepted (Scenario.web "active");
                            Scenario.found (Scenario.web "active")]))
  = fst (waitForUpgrade Scenario.api "web" None
           (Scenario.at_noon [Scenario.found (Scenario.web "upgraded");
                              Scenario.dropped;
                              Scenario.found (Scenario.web "active")])).
Proof.
  apply (finishupgrade_answer_is_ignored Scenario.api "web" None _ _
           (Scenario.found (Scenario.web "upgraded"))
           (Scenario.accepted (Scenario.web "active")) Scenario.dropped
           [Scenario.found (Scenario.web "active")]
           (Scenario.web "upgraded") [] Scenario.finish_url); concrete.
Defined.

Lemma upgrade_answer_is_only_logged_witness :
  fst (inServiceUpgrade Scenario.api (Some Scenario.request_v2)
         (Scenario.at_noon [Scenario.found (Scenario.web "active");
                            Scenario.accepted (Scenario.web "upgrading");
                            Scenario.found (Scenario.web "upgraded")]))
  = fst (inServiceUpgrade Scenario.api (Some Scenario.request_v2)
           (Scenario.at_noon [Scenario.found (Scenario.web "active");
                              Scenario.accepted (Scenario.web "active");
                              Scenario.found (Scenario.web "upgraded")])).
Proof.
  apply (upgrade_answer_is_only_logged Scenario.api Scenario.request_v2
           "web" "org/app" _ _
           (Scenario.found (Scenario.web "active"))
           (Scenario.accepted (Scenario.web "upgrading"))
           (Scenario.accepted (Scenario.web "active"))
           [Scenario.found (Scenario.web "upgraded")]
           (Scenario.web "active") [] Scenario.upgrade_url
           (BResource (Scenario.web "upgrading"))
           (BResource (Scenario.web "active")));
    first [ concrete | left; reflexivity ].
Defined.

Lemma requests_resolve_paths_witness :
  RequestOptions.uri
    (requestOptions_for Scenario.api Scenario.upgrade_url POST ParamsEmpty)
  = Scenario.upgrade_url
  ∧ RequestOptions.uri
      (requestOptions_for Scenario.api "services" GET (ParamsName "web"))
    = "https://rancher.local/v1" +:+ "/" +:+ "services".
Proof.
  split.
  - apply (proj1 (requests_resolve_paths Scenario.api Scenario.upgrade_url
                    POST ParamsEmpty)).
    exists "rancher.local/v1/services/1s7/?action=upgrade".
    right. reflexivity.
  - apply (proj2 (requests_resolve_paths Scenario.api "services" GET
                    (ParamsName "web"))).
    intros [rest [H | H]]; discriminate H.
Defined.

Lemma inServiceUpgrade_requests_well_formed_witness :
  let run := inServiceUpgrade Scenario.api (Some Scenario.request_v2)
                              Scenario.smooth in
  ∃ new,
    trace (snd run) = trace Scenario.smooth ++ new
    ∧ Forall
        (fun req =>
           ∃ o name,
             Some Scenario.request_v2 = Some o
             ∧ Options.serviceName o = Some name
             ∧ match RequestOptions.method req with
               | GET => well_formed Scenario.api (ParamsName name) req
               | POST =>
                   well_formed Scenario.api ParamsEmpty req
                   ∨ ∃ svc,
                       looked_up (network Scenario.smooth) 0 = Some svc
                       ∧ well_formed Scenario.api
                           (ParamsUpgrade (inServiceStrategy_for o svc)) req
               end)
        (requests new).
Proof.
  intros run.
  apply (inServiceUpgrade_requests_well_formed Scenario.api
           (Some Scenario.request_v2) Scenario.smooth (fst run) (snd run)).
  apply surjective_pairing.
Defined.

Lemma failures_are_on_the_error_console_witness :
  let run := inServiceUpgrade Scenario.api (Some Scenario.request_v2)
                              (Scenario.at_noon [Scenario.nothing]) in
  ∃ before t more,
    trace (snd run)
    = before
      ++ [EvConsole Stderr
            (LogTime t :: LogStr "getService: Rancher service not found."
             :: more)].
Proof.
  intros run.
  apply (proj1 (failures_are_on_the_error_console Scenario.api)
           (Some Scenario.request_v2)
           (Scenario.at_noon [Scenario.nothing])).
  vm_compute. reflexivity.
Defined.
